(** * cat.c: the line counter, the substituting copy loop, the
      annotated line engine and [main], embedded from [src/src/cat.c].

    Bytes are integers in [0, 256).  The source declares most buffers
    as [char]; every test it makes on them (comparisons with ASCII
    constants, masks with constants below 256) gives the same answer
    whether [char] is signed or not, so the unsigned reading is used
    throughout.  A pointer into a buffer is the list of bytes that
    starts where it points: fetching through it takes the head and keeps
    the tail. *)

From Stdlib Require Import ZArith Lia Bool.
From stdpp Require Import base list.

Local Open Scope Z_scope.

(** ** The line counter (cat.c lines 57-76 and 129-146) *)

Module LineNum.

Definition LINE_COUNTER_BUF_LEN : nat := 20.

(** [line_buf] with its three cursors, kept as offsets from
    [line_buf]. *)
Record line_counter := LineCounter {
  line_buf : list Z;
  line_num_print : nat;
  line_num_start : nat;
  line_num_end : nat
}.

(** The static initialisers: seventeen blanks, the digit zero, tab, NUL. *)
Definition initial : line_counter :=
  {| line_buf := replicate 17 32 ++ [48; 9; 0];
     line_num_print := (LINE_COUNTER_BUF_LEN - 8)%nat;
     line_num_start := (LINE_COUNTER_BUF_LEN - 3)%nat;
     line_num_end := (LINE_COUNTER_BUF_LEN - 3)%nat |}.

(** How the do-while of [next_line_num] is left. *)
Inductive carry :=
| Incremented (buf : list Z)   (* the [return] inside the loop *)
| CarriedOut (buf : list Z).   (* [endp] fell below [line_num_start] *)

(** The do-while of [next_line_num]: the digit under [endp] is
    incremented; when it was below nine the function returns, otherwise
    the digit is reset to zero and [endp] moves one place left, as long
    as [endp >= line_num_start].  The recursion is on [endp]; stepping
    below [line_buf] itself ends the loop, since [line_num_start] never
    lies below [line_buf]. *)
Fixpoint carry_loop (start : nat) (buf : list Z) (endp : nat) : carry :=
  let c := default 0 (buf !! endp) in
  let buf1 := <[endp := c + 1]> buf in
  if c <? 57 (* nine *) then Incremented buf1
  else
    let buf2 := <[endp := 48 (* zero *)]> buf1 in
    match endp with
    | O => CarriedOut buf2
    | S endp' =>
        if (start <=? endp')%nat then carry_loop start buf2 endp'
        else CarriedOut buf2
    end.

Definition next_line_num (l : line_counter) : line_counter :=
  match carry_loop (line_num_start l) (line_buf l) (line_num_end l) with
  | Incremented buf =>
      {| line_buf := buf; line_num_print := line_num_print l;
         line_num_start := line_num_start l; line_num_end := line_num_end l |}
  | CarriedOut buf =>
      let start := line_num_start l in
      let buf' :=
        if (0 <? start)%nat then <[(start - 1)%nat := 49 (* one *)]> buf
        else <[0%nat := 62 (* greater-than *)]> buf in
      let start' := if (0 <? start)%nat then (start - 1)%nat else start in
      let print' :=
        if (start' <? line_num_print l)%nat then (line_num_print l - 1)%nat
        else line_num_print l in
      {| line_buf := buf'; line_num_print := print';
         line_num_start := start'; line_num_end := line_num_end l |}
  end.

(** The C string that starts at a pointer: the bytes before the first
    NUL. *)
Fixpoint c_string (p : list Z) : list Z :=
  match p with
  | [] => []
  | c :: p' => if c =? 0 then [] else c :: c_string p'
  end.

(** The text [stpcpy (bpout, line_num_print)] copies. *)
Definition rendered (l : line_counter) : list Z :=
  c_string (drop (line_num_print l) (line_buf l)).

(** The counter after [n] calls of [next_line_num]; see [after]
    below.  [widths_within w c m]: every number the counter [c] shows
    within its next [m] calls takes [w] places at most. *)
Fixpoint after (n : nat) (l : line_counter) : line_counter :=
  match n with
  | O => l
  | S n' => next_line_num (after n' l)
  end.

Definition widths_within (w : nat) (c : line_counter) (m : nat) : Prop :=
  forall k, (1 <= k <= m)%nat -> (length (rendered (after k c)) <= w)%nat.

(** *** Counters by value

    The digits of a count, least significant first, and the counter
    that shows them: blanks, the digits, tab, NUL. *)

Fixpoint to_digits (fuel : nat) (v : Z) : list Z :=
  match fuel with
  | O => []
  | S fuel' => if v <? 10 then [v] else (v mod 10) :: to_digits fuel' (v / 10)
  end.

Definition of_digits (ds : list Z) : line_counter :=
  let start := (18 - length ds)%nat in
  {| line_buf :=
       replicate start 32 ++ map (fun d => 48 + d) (reverse ds) ++ [9; 0];
     line_num_print := start `min` 12;
     line_num_start := start;
     line_num_end := 17 |}.

Definition showing (v : Z) : line_counter := of_digits (to_digits 18 v).

(** Adding one to a list of digits. *)
Fixpoint inc (ds : list Z) : list Z :=
  match ds with
  | [] => [1]
  | d :: ds' => if d <? 9 then (d + 1) :: ds' else 0 :: inc ds'
  end.

Definition digit (d : Z) : Prop := 0 <= d <= 9.

Definition all_nines (ds : list Z) : bool := forallb (fun d => d =? 9) ds.

(** The buffer a run of the carry loop leaves. *)
Definition carry_buf (r : carry) : list Z :=
  match r with
  | Incremented buf => buf
  | CarriedOut buf => buf
  end.

(** The counter with all eighteen digit places at nine. *)
Definition saturated : line_counter :=
  {| line_buf := replicate 18 57 ++ [9; 0];
     line_num_print := 0; line_num_start := 0; line_num_end := 17 |}.

(** After the overflow: no room on the left, the marker in the first
    place. *)
Definition overflowed (l : line_counter) : Prop :=
  line_num_start l = 0%nat /\ line_num_end l = 17%nat /\
  length (line_buf l) = 20%nat /\ line_buf l !! 0%nat = Some 62.

End LineNum.

Import LineNum.

(** ** What stops a run *)

Inductive failure :=
| UnexpectedUtf8   (* die: unexpected UTF-8 encoding *)
| OutOfBounds      (* a load or a store outside its buffer: undefined *)
| Forever.         (* a loop that never ends *)

Inductive result (A : Type) :=
| Ok (a : A)
| Stop (f : failure).
Arguments Ok {A} a.
Arguments Stop {A} f.

Definition bind {A B} (r : result A) (k : A -> result B) : result B :=
  match r with
  | Ok a => k a
  | Stop f => Stop f
  end.

Notation "'let*' x ':=' r 'in' k" := (bind r (fun x => k))
  (at level 10, x pattern, r at level 100, k at level 200).

(** What one call of [safe_read] gives: an error, or the bytes read;
    no bytes is the end of the file. *)
Inductive read_result :=
| ReadFailed
| ReadOk (data : list Z).

(** ** The substituting copy loop (cat.c lines 148-301) *)

Module Simple.

Definition lowercase : list Z :=
  [ 0xc9; 0x90;  0x71; 0xff;  0xc9; 0x94;  0x70; 0xff;  0xc7; 0x9d;
    0xc9; 0x9f;  0xc6; 0x83;  0xc9; 0xa5;  0xc4; 0xb1;  0xc9; 0xbe;
    0xca; 0x9e;  0xca; 0x83;  0xc9; 0xaf;  0x75; 0xff;  0x6f; 0xff;
    0x64; 0xff;  0x62; 0xff;  0xc9; 0xb9;  0x73; 0xff;  0xca; 0x87;
    0x6e; 0xff;  0xca; 0x8c;  0xca; 0x8d;  0x78; 0xff;  0xca; 0x8e;
    0x7a; 0xff ].

Definition uppercase : list Z :=
  [ 0xe2; 0x88; 0x80; 0xff;  0xf0; 0x90; 0x90; 0x92;
    0xe2; 0x86; 0x83; 0xff;  0xe2; 0x97; 0x96; 0xff;
    0xc6; 0x8e; 0xff; 0xff;  0xe2; 0x84; 0xb2; 0xff;
    0xe2; 0x85; 0x81; 0xff;  0x48; 0xff; 0xff; 0xff;
    0x49; 0xff; 0xff; 0xff;  0xc5; 0xbf; 0xff; 0xff;
    0xe2; 0x8b; 0x8a; 0xff;  0xe2; 0x85; 0x82; 0xff;
    0x57; 0xff; 0xff; 0xff;  0xe1; 0xb4; 0x8e; 0xff;
    0x4f; 0xff; 0xff; 0xff;  0xd4; 0x80; 0xff; 0xff;
    0xce; 0x8c; 0xff; 0xff;  0xe1; 0xb4; 0x9a; 0xff;
    0x53; 0xff; 0xff; 0xff;  0xe2; 0x8a; 0xa5; 0xff;
    0xe2; 0x88; 0xa9; 0xff;  0xe1; 0xb4; 0xa7; 0xff;
    0x4d; 0xff; 0xff; 0xff;  0x58; 0xff; 0xff; 0xff;
    0xe2; 0x85; 0x84; 0xff;  0x5a; 0xff; 0xff; 0xff ].

(** [char_size]: the length announced by the byte under [pchar]. *)
Definition char_size (pchar : list Z) : result nat :=
  match pchar with
  | [] => Stop OutOfBounds
  | b :: _ =>
      if Z.land b 0x80 =? 0 then Ok 1%nat
      else if Z.land b 0xE0 =? 0xC0 then Ok 2%nat
      else if Z.land b 0xF0 =? 0xE0 then Ok 3%nat
      else if Z.land b 0xF8 =? 0xF0 then Ok 4%nat
      else Stop UnexpectedUtf8
  end.

Definition is_upper (c : Z) : bool := (65 <=? c) && (c <=? 90).
Definition is_lower (c : Z) : bool := (97 <=? c) && (c <=? 122).

(** The pointer [puc] both loops compute for position [i]: into a table
    for a letter, at the input byte itself otherwise. *)
Definition select (buf : list Z) (i : nat) : result (list Z) :=
  match buf !! i with
  | None => Stop OutOfBounds
  | Some c =>
      if is_upper c then Ok (drop (Z.to_nat ((c - 65) * 4)) uppercase)
      else if is_lower c then Ok (drop (Z.to_nat ((c - 97) * 2)) lowercase)
      else Ok (drop i buf)
  end.

(** First loop (lines 259-269): [k] positions are left, [i] is the
    next one. *)
Fixpoint count_loop (buf : list Z) (k i : nat) (uclen : nat) : result nat :=
  match k with
  | O => Ok uclen
  | S k' =>
      let* puc := select buf i in
      let* n := char_size puc in
      count_loop buf k' (S i) (uclen + n)%nat
  end.

(** The inner copy (lines 288-290) into [unibuf], which holds [uclen]
    bytes; the list is the part of [unibuf] filled so far. *)
Fixpoint copy_char (uclen : nat) (puc : list Z) (clen : nat)
    (unibuf : list Z) {struct clen} : result (list Z) :=
  match clen with
  | O => Ok unibuf
  | S clen' =>
      match puc with
      | [] => Stop OutOfBounds
      | b :: puc' =>
          if (length unibuf <? uclen)%nat
          then copy_char uclen puc' clen' (unibuf ++ [b])
          else Stop OutOfBounds
      end
  end.

(** Second loop (lines 278-291). *)
Fixpoint copy_loop (uclen : nat) (buf : list Z) (k i : nat)
    (unibuf : list Z) : result (list Z) :=
  match k with
  | O => Ok unibuf
  | S k' =>
      let* puc := select buf i in
      let* clen := char_size puc in
      let* unibuf' := copy_char uclen puc clen unibuf in
      copy_loop uclen buf k' (S i) unibuf'
  end.

(** One block: [buf] is the memory behind the buffer pointer, of which
    the first [n_read] bytes were just read.  The result is the
    argument of the one [full_write]. *)
Definition block (buf : list Z) (n_read : nat) : result (list Z) :=
  let* uclen := count_loop buf n_read 0 0 in
  let* unibuf := copy_loop uclen buf n_read 0 [] in
  if (length unibuf =? uclen)%nat then Ok unibuf else Stop OutOfBounds.

(** How [simple_cat] ends. *)
Inductive ending :=
| Returned (ok : bool)
| Stopped (f : failure).

(** [simple_cat]: [reads] are the results of the successive calls of
    [safe_read] (after the last one the file is at its end), [buf] the
    memory behind the buffer, [written] the writes made so far.  A read
    replaces the front of [buf] and leaves the rest as it was. *)
Fixpoint simple_cat (reads : list read_result) (buf : list Z)
    (written : list (list Z)) : list (list Z) * ending :=
  match reads with
  | [] => (written, Returned true)
  | ReadFailed :: _ => (written, Returned false)
  | ReadOk [] :: _ => (written, Returned true)
  | ReadOk data :: reads' =>
      let buf' := data ++ drop (length data) buf in
      match block buf' (length data) with
      | Ok unibuf => simple_cat reads' buf' (written ++ [unibuf])
      | Stop f => (written, Stopped f)
      end
  end.

(** *** The substitution as the description has it

    A slot of a table is [width] bytes wide and padded on the right
    with the filler byte; the replacement of a letter is its slot
    without the padding, and any other byte stands for itself. *)

Fixpoint unpadded (slot : list Z) : list Z :=
  match slot with
  | [] => []
  | b :: slot' => if b =? 0xff then [] else b :: unpadded slot'
  end.

Definition slot (table : list Z) (width : nat) (k : Z) : list Z :=
  take width (drop (Z.to_nat k * width) table).

Definition replacement (c : Z) : list Z :=
  if is_upper c then unpadded (slot uppercase 4 (c - 65))
  else if is_lower c then unpadded (slot lowercase 2 (c - 97))
  else [c].

(** The length a byte is declared to take: what the leading byte of
    its slot announces for a letter, one otherwise. *)
Definition declared_length (c : Z) : nat :=
  if is_upper c then
    match char_size (slot uppercase 4 (c - 65)) with Ok n => n | Stop _ => 0 end
  else if is_lower c then
    match char_size (slot lowercase 2 (c - 97)) with Ok n => n | Stop _ => 0 end
  else 1.

(** The pointer [select] finds for a byte [c] that is followed in
    memory by [rest]. *)
Definition pointed (c : Z) (rest : list Z) : list Z :=
  if is_upper c then drop (Z.to_nat ((c - 65) * 4)) uppercase
  else if is_lower c then drop (Z.to_nat ((c - 97) * 2)) lowercase
  else c :: rest.

(** A letter, or another byte below 128. *)
Definition plain (c : Z) : Prop := 0 <= c < 128.

(** A byte that cannot start a UTF-8 sequence. *)
Definition stray (c : Z) : Prop := 0x80 <= c <= 0xBF \/ 0xF8 <= c <= 0xFF.

End Simple.

(** ** The annotated line engine (cat.c lines 303-619) *)

Module Engine.

Record options := Options {
  show_nonprinting : bool;
  show_tabs : bool;
  number : bool;
  number_nonblank : bool;
  show_ends : bool;
  squeeze_blank : bool
}.

(** What the FIONREAD [ioctl] answers before a read. *)
Inductive ioctl_result :=
| Available (n_to_read : Z)
| Unsupported     (* EOPNOTSUPP, ENOTTY, EINVAL, ENODEV or ENOSYS *)
| IoctlFailed.    (* any other error *)

(** One pass through lines 413-474: the answer of the [ioctl], used
    only while [use_fionread] holds, and the result of [safe_read]. *)
Record read_event := ReadEvent {
  ev_ioctl : ioctl_result;
  ev_read : read_result
}.

(** The variables of [cat] that live across reads.  [bpout] is the
    filled part of the output buffer, from [outbuf] up to the write
    position; [written] lists the arguments of the calls of
    [full_write], which is taken to succeed. *)
Record state := State {
  newlines : Z;
  counter : line_counter;
  bpout : list Z;
  written : list (list Z);
  use_fionread : bool
}.

Definition set_newlines (n : Z) (s : state) : state :=
  {| newlines := n; counter := counter s; bpout := bpout s;
     written := written s; use_fionread := use_fionread s |}.

Definition set_bpout (b : list Z) (s : state) : state :=
  {| newlines := newlines s; counter := counter s; bpout := b;
     written := written s; use_fionread := use_fionread s |}.

(** How [cat] ends: it returns, leaving [newlines2] and the line
    counter behind, or the run stops. *)
Inductive outcome :=
| Return (ok : bool) (newlines2 : Z) (c : line_counter)
    (out : list (list Z))
| Halt (f : failure).

Section Cat.

(** [outbuf_len] bytes may be stored at [outbuf]. *)
Variable outbuf_len : nat.
Variable outsize : nat.
Variable o : options.

(** A store through [bpout], which then moves on. *)
Definition put (c : Z) (b : list Z) : result (list Z) :=
  if (length b <? outbuf_len)%nat then Ok (b ++ [c]) else Stop OutOfBounds.

(** [stpcpy]: the string and its closing NUL are stored, the result
    points at the NUL. *)
Definition stpcpy (src : list Z) (b : list Z) : result (list Z) :=
  let text := c_string src in
  if (length b + length text <? outbuf_len)%nat then Ok (b ++ text)
  else Stop OutOfBounds.

(** [next_line_num (); bpout = stpcpy (bpout, line_num_print);] *)
Definition number_line (s : state) : result state :=
  let c := next_line_num (counter s) in
  let* b := stpcpy (drop (line_num_print c) (line_buf c)) (bpout s) in
  Ok {| newlines := newlines s; counter := c; bpout := b;
        written := written s; use_fionread := use_fionread s |}.

(** The do-while of lines 395-402: [wp] runs over the filled part in
    steps of [outsize]; the fuel only runs out when [outsize] is
    zero, where the loop of the source never ends. *)
Fixpoint write_blocks (fuel : nat) (wp : list Z) (out : list (list Z))
    : result (list Z * list (list Z)) :=
  match fuel with
  | O => Stop Forever
  | S fuel' =>
      let out' := out ++ [take outsize wp] in
      let wp' := drop outsize wp in
      if (outsize <=? length wp')%nat then write_blocks fuel' wp' out'
      else Ok (wp', out')
  end.

(** Lines 391-409: the test for a full buffer, the writes, and the
    move of what remains to the front. *)
Definition flush (s : state) : result state :=
  if (outsize <=? length (bpout s))%nat then
    let* (rest, out) :=
      write_blocks (S (length (bpout s))) (bpout s) (written s) in
    Ok {| newlines := newlines s; counter := counter s; bpout := rest;
          written := out; use_fionread := use_fionread s |}
  else Ok s.

(** [write_pending] (lines 307-317). *)
Definition write_pending (s : state) : state :=
  if (0 <? length (bpout s))%nat then
    {| newlines := newlines s; counter := counter s; bpout := [];
       written := written s ++ [bpout s]; use_fionread := use_fionread s |}
  else s.

(** One turn of the loop of lines 541-587; [None] is its [break]. *)
Definition quote_step (ch : Z) (b : list Z) : result (option (list Z)) :=
  if 32 <=? ch then
    if ch <? 127 then
      let* b := put ch b in Ok (Some b)
    else if ch =? 127 then
      let* b := put 94 b in let* b := put 63 b in Ok (Some b)
    else
      let* b := put 77 b in
      let* b := put 45 b in
      if 128 + 32 <=? ch then
        if ch <? 128 + 127 then
          let* b := put (ch - 128) b in Ok (Some b)
        else
          let* b := put 94 b in let* b := put 63 b in Ok (Some b)
      else
        let* b := put 94 b in let* b := put (ch - 128 + 64) b in Ok (Some b)
  else if (ch =? 9) && negb (show_tabs o) then
    let* b := put 9 b in Ok (Some b)
  else if ch =? 10 then Ok None
  else
    let* b := put 94 b in let* b := put (ch + 64) b in Ok (Some b).

(** One turn of the loop of lines 592-616; the byte under [bpin] is
    looked at after a carriage return. *)
Definition plain_step (ch : Z) (bpin : list Z) (b : list Z)
    : result (option (list Z)) :=
  if (ch =? 9) && show_tabs o then
    let* b := put 94 b in let* b := put (ch + 64) b in Ok (Some b)
  else if negb (ch =? 10) then
    if (ch =? 13) && (default 0 (head bpin) =? 10) && show_ends o then
      let* b := put 94 b in let* b := put 77 b in Ok (Some b)
    else
      let* b := put ch b in Ok (Some b)
  else Ok None.

(** The two scanning loops: they end at a newline, with [bpin] past
    it, and fetch the next byte otherwise. *)
Fixpoint scan_quoted (bpin : list Z) (ch : Z) (b : list Z)
    : result (list Z * list Z) :=
  let* r := quote_step ch b in
  match r with
  | None => Ok (bpin, b)
  | Some b' =>
      match bpin with
      | [] => Stop OutOfBounds
      | ch' :: bpin' => scan_quoted bpin' ch' b'
      end
  end.

Fixpoint scan_plain (bpin : list Z) (ch : Z) (b : list Z)
    : result (list Z * list Z) :=
  let* r := plain_step ch bpin b in
  match r with
  | None => Ok (bpin, b)
  | Some b' =>
      match bpin with
      | [] => Stop OutOfBounds
      | ch' :: bpin' => scan_plain bpin' ch' b'
      end
  end.

(** Lines 512-517: the end marker and the newline. *)
Definition put_newline (s : state) : result state :=
  let* b := (if show_ends o then put 36 (bpout s) else Ok (bpout s)) in
  let* b := put 10 b in
  Ok (set_bpout b s).

(** Lines 476-518, entered when the newline just fetched was a real
    one.  On the squeezing path nothing is stored; every path goes on
    to fetch the next byte. *)
Definition end_of_line (s : state) : result state :=
  let n := newlines s + 1 in
  if 0 <? n then
    let n' := if 2 <=? n then 2 else n in
    if (2 <=? n) && squeeze_blank o then Ok (set_newlines n' s)
    else
      let* s1 :=
        (if number o && negb (number_nonblank o)
         then number_line (set_newlines n' s)
         else Ok (set_newlines n' s)) in
      put_newline s1
  else put_newline (set_newlines n s).

(** From the fetch of the next byte (lines 496 and 519) through the
    test of the do-while, the numbering of a line at its start and
    one of the scanning loops, back to the top of the do-while, which
    is [again]. *)
Definition fetched (again : list Z -> state -> result state)
    (bpin : list Z) (s : state) : result state :=
  match bpin with
  | [] => Stop OutOfBounds
  | ch :: bpin =>
      if ch =? 10 then again bpin s
      else
        let* s :=
          (if (0 <=? newlines s) && number o then number_line s
           else Ok s) in
        let* (bpin', b) :=
          (if show_nonprinting o then scan_quoted bpin ch (bpout s)
           else scan_plain bpin ch (bpout s)) in
        again bpin' (set_newlines (-1) (set_bpout b s))
  end.

(** The top of the do-while (line 387) with the input buffer as
    [bpin], up to the point where another read is needed: [bpin] is
    empty when it has passed [eob]. *)
Fixpoint lines (fuel : nat) (bpin : list Z) (s : state) : result state :=
  match fuel with
  | O => Stop Forever
  | S fuel' =>
      let* s := flush s in
      match bpin with
      | [] => Ok s
      | _ :: _ =>
          let* s := end_of_line s in
          fetched (lines fuel') bpin s
      end
  end.

(** Lines 471-473 and what follows a read of [data]: the sentinel
    newline is stored behind the data.  Every turn of [lines] uses up
    a newline of the buffer, so there are enough turns. *)
Definition chunk (data : list Z) (s : state) : result state :=
  let inbuf := data ++ [10] in
  fetched (lines (length inbuf)) inbuf s.

Definition leave (ok : bool) (s : state) : outcome :=
  Return ok (newlines s) (counter s) (written s).

(** Lines 413-474 for each read in turn.  When the script is used up
    the [ioctl] reports nothing and the read returns zero. *)
Fixpoint reads (script : list read_event) (s : state) : outcome :=
  match script with
  | [] => leave true (write_pending s)
  | ev :: script' =>
      match (if use_fionread s then ev_ioctl ev else Available 0) with
      | IoctlFailed => leave false s
      | io =>
          let s1 :=
            match io with
            | Unsupported =>
                {| newlines := newlines s; counter := counter s;
                   bpout := bpout s; written := written s;
                   use_fionread := false |}
            | _ => s
            end in
          let input_pending :=
            match io with
            | Available n => negb (n =? 0)
            | _ => false
            end in
          let s2 := if input_pending then s1 else write_pending s1 in
          match ev_read ev with
          | ReadFailed => leave false (write_pending s2)
          | ReadOk [] => leave true (write_pending s2)
          | ReadOk data =>
              match chunk data s2 with
              | Ok s3 => reads script' s3
              | Stop f => Halt f
              end
          end
      end
  end.

(** [cat]: [newlines2] and the line counter come in from the process
    and go back to it. *)
Definition cat (script : list read_event) (newlines2 : Z)
    (c : line_counter) : outcome :=
  let s := {| newlines := newlines2; counter := c; bpout := [];
              written := []; use_fionread := true |} in
  match flush s with
  | Ok s' => reads script s'
  | Stop f => Halt f
  end.

End Cat.

(** The size [main] asks for the output buffer (line 860), without the
    [page_size - 1] bytes that [ptr_align] may skip. *)
Definition outbuf_size (insize outsize : nat) : nat :=
  Z.to_nat (Z.of_nat outsize - 1 + Z.of_nat insize * 4
            + Z.of_nat LINE_COUNTER_BUF_LEN).

(** The loop of [main] over its files when a formatting option is set:
    each file comes with its [insize] and the script of its reads. *)
Fixpoint cat_files (outsize : nat) (o : options)
    (files : list (nat * list read_event)) (ok : bool) (newlines2 : Z)
    (c : line_counter) (out : list (list Z)) : outcome :=
  match files with
  | [] => Return ok newlines2 c out
  | (insize, script) :: files' =>
      match cat (outbuf_size insize outsize) outsize o script newlines2 c with
      | Return ok' n' c' out' =>
          cat_files outsize o files' (ok && ok') n' c' (out ++ out')
      | Halt f => Halt f
      end
  end.

(** Two runs of [cat] in a row, the second starting from what the
    first left in [newlines2] and in the line counter: the bytes each
    of them wrote.  Each run has the script of its own reads. *)
Definition cat_twice (outbuf_len outsize : nat) (o : options)
    (script1 script2 : list read_event) (newlines2 : Z) (c : line_counter)
    : option (list Z * list Z) :=
  match cat outbuf_len outsize o script1 newlines2 c with
  | Return _ nl1 c1 out1 =>
      match cat outbuf_len outsize o script2 nl1 c1 with
      | Return _ _ _ out2 => Some (concat out1, concat out2)
      | Halt _ => None
      end
  | Halt _ => None
  end.

(** The end of one read [d1] and the start of the next [d2] meet
    well when the look at the byte behind a carriage return cannot
    tell the sentinel from the next byte. *)
Definition seam (o : options) (d1 d2 : list Z) : Prop :=
  show_nonprinting o = true \/ show_ends o = false \/
  last d1 <> Some 13 \/ hd 10 d2 = 10.

Fixpoint seams (o : options) (chunks : list (list Z)) : Prop :=
  match chunks with
  | [] => True
  | d :: chunks' => seam o d (concat chunks') /\ seams o chunks'
  end.

(** The read that brings [data], if there is any. *)
Definition brought (io : ioctl_result) (data : list Z) : list read_event :=
  match data with
  | [] => []
  | _ :: _ => [{| ev_ioctl := io; ev_read := ReadOk data |}]
  end.

(** All bytes written, in order. *)
Definition output (r : outcome) : option (list Z) :=
  match r with
  | Return _ _ _ out => Some (concat out)
  | Halt _ => None
  end.

(** *** The text of a run, buffers apart

    What the scanning loops store for one byte that is not a newline,
    for a line, at the end of a line, and for the lines of one read.
    The facts below tie each of these to the functions above. *)

Definition quote_text (o : options) (ch : Z) : list Z :=
  if 32 <=? ch then
    if ch <? 127 then [ch]
    else if ch =? 127 then [94; 63]
    else
      77 :: 45 ::
      (if 128 + 32 <=? ch then
         if ch <? 128 + 127 then [ch - 128] else [94; 63]
       else [94; ch - 128 + 64])
  else if (ch =? 9) && negb (show_tabs o) then [9]
  else [94; ch + 64].

Definition plain_text (o : options) (ch next : Z) : list Z :=
  if (ch =? 9) && show_tabs o then [94; ch + 64]
  else if (ch =? 13) && (next =? 10) && show_ends o then [94; 77]
  else [ch].

(** A line without its newline; the byte after its last one is a
    newline, real or sentinel. *)
Fixpoint line_text (o : options) (line : list Z) : list Z :=
  match line with
  | [] => []
  | ch :: rest =>
      (if show_nonprinting o then quote_text o ch
       else plain_text o ch (hd 10 rest))
      ++ line_text o rest
  end.

Definition end_mark (o : options) : list Z :=
  (if show_ends o then [36] else []) ++ [10].

(** The text, the blank-line count and the counter after lines
    476-518. *)
Definition eol_text (o : options) (nl : Z) (c : line_counter)
    : list Z * Z * line_counter :=
  let n := nl + 1 in
  if 0 <? n then
    let n' := if 2 <=? n then 2 else n in
    if (2 <=? n) && squeeze_blank o then ([], n', c)
    else if number o && negb (number_nonblank o)
    then (rendered (next_line_num c) ++ end_mark o, n', next_line_num c)
    else (end_mark o, n', c)
  else (end_mark o, n, c).

(** The same for a line from its first byte to its newline. *)
Definition body_text (o : options) (line : list Z) (nl : Z)
    (c : line_counter) : list Z * Z * line_counter :=
  match line with
  | [] => ([], nl, c)
  | _ :: _ =>
      if (0 <=? nl) && number o
      then (rendered (next_line_num c) ++ line_text o line, -1,
            next_line_num c)
      else (line_text o line, -1, c)
  end.

(** The lines that follow a real newline. *)
Fixpoint lines_text (o : options) (ls : list (list Z)) (nl : Z)
    (c : line_counter) : list Z * Z * line_counter :=
  match ls with
  | [] => ([], nl, c)
  | l :: ls' =>
      let '(t1, nl1, c1) := eol_text o nl c in
      let '(t2, nl2, c2) := body_text o l nl1 c1 in
      let '(t3, nl3, c3) := lines_text o ls' nl2 c2 in
      (t1 ++ t2 ++ t3, nl3, c3)
  end.

(** The bytes of a read cut at the newlines: the last piece is what
    stands before the sentinel. *)
Fixpoint split_lines (data : list Z) : list (list Z) :=
  match data with
  | [] => [[]]
  | ch :: data' =>
      if ch =? 10 then [] :: split_lines data'
      else
        match split_lines data' with
        | l :: ls => (ch :: l) :: ls
        | [] => [[ch]]
        end
  end.

Definition chunk_text (o : options) (data : list Z) (nl : Z)
    (c : line_counter) : list Z * Z * line_counter :=
  match split_lines data with
  | [] => ([], nl, c)
  | l :: ls =>
      let '(t2, nl2, c2) := body_text o l nl c in
      let '(t3, nl3, c3) := lines_text o ls nl2 c2 in
      (t2 ++ t3, nl3, c3)
  end.

(** The reads of one file, one after the other. *)
Fixpoint chunks_text (o : options) (chunks : list (list Z)) (nl : Z)
    (c : line_counter) : list Z * Z * line_counter :=
  match chunks with
  | [] => ([], nl, c)
  | data :: chunks' =>
      let '(t1, nl1, c1) := chunk_text o data nl c in
      let '(t2, nl2, c2) := chunks_text o chunks' nl1 c1 in
      (t1 ++ t2, nl2, c2)
  end.

(** The lines of a list, each with its newline. *)
Definition with_newlines (ls : list (list Z)) : list Z :=
  flat_map (fun l => l ++ [10]) ls.

(** No newline inside. *)
Definition unbroken (l : list Z) : Prop := Forall (fun c => c <> 10) l.

(** A pass through the reading code that brings bytes: the [ioctl]
    does not fail for good, and the read gives between one and
    [insize] bytes. *)
Definition good_event (insize : nat) (ev : read_event) : Prop :=
  ev_ioctl ev <> IoctlFailed /\
  exists data, ev_read ev = ReadOk data /\ data <> [] /\
               (length data <= insize)%nat.

Definition event_data (ev : read_event) : list Z :=
  match ev_read ev with
  | ReadOk data => data
  | ReadFailed => []
  end.

(** The reads of a script, and how many bytes they bring. *)
Definition script_data (script : list read_event) : list (list Z) :=
  map event_data script.

Definition script_length (script : list read_event) : nat :=
  length (concat (script_data script)).

(** How often [next_line_num] is called over the same stretches. *)
Definition eol_calls (o : options) (nl : Z) : nat :=
  if (0 <? nl + 1) && negb ((2 <=? nl + 1) && squeeze_blank o)
     && number o && negb (number_nonblank o)
  then 1 else 0.

Definition body_calls (o : options) (line : list Z) (nl : Z) : nat :=
  match line with
  | [] => 0
  | _ :: _ => if (0 <=? nl) && number o then 1 else 0
  end.

Fixpoint lines_calls (o : options) (ls : list (list Z)) (nl : Z)
    (c : line_counter) : nat :=
  match ls with
  | [] => 0
  | l :: ls' =>
      let '(_, nl1, c1) := eol_text o nl c in
      let '(_, nl2, c2) := body_text o l nl1 c1 in
      eol_calls o nl + (body_calls o l nl1 + lines_calls o ls' nl2 c2)
  end.

Definition chunk_calls (o : options) (data : list Z) (nl : Z)
    (c : line_counter) : nat :=
  match split_lines data with
  | [] => 0
  | l :: ls =>
      let '(_, nl2, c2) := body_text o l nl c in
      body_calls o l nl + lines_calls o ls nl2 c2
  end.

Fixpoint chunks_calls (o : options) (chunks : list (list Z)) (nl : Z)
    (c : line_counter) : nat :=
  match chunks with
  | [] => 0
  | data :: chunks' =>
      let '(_, nl1, c1) := chunk_text o data nl c in
      chunk_calls o data nl c + chunks_calls o chunks' nl1 c1
  end.

(** The first empty line of a run: its number when empty lines are
    numbered, its end mark, and the counter behind it. *)
Definition first_blank (o : options) (c : line_counter)
    : list Z * line_counter :=
  if number o && negb (number_nonblank o)
  then (rendered (next_line_num c) ++ end_mark o, next_line_num c)
  else (end_mark o, c).

(** What [n] empty lines in a row give when blank lines are squeezed,
    the count of blank lines standing at [nl], zero or more, before
    them. *)
Definition run_of_blanks (o : options) (nl : Z) (n : nat)
    (c : line_counter) : list Z * Z * line_counter :=
  if (n =? 0)%nat then ([], nl, c)
  else if nl =? 0
       then ((first_blank o c).1, Z.min 2 (Z.of_nat n), (first_blank o c).2)
       else ([], 2, c).

(** Lines with a number each, counted on from [c]. *)
Fixpoint numbered_lines (o : options) (c : line_counter)
    (ls : list (list Z)) : list Z :=
  match ls with
  | [] => []
  | l :: ls' =>
      rendered (next_line_num c) ++ line_text o l ++ end_mark o
      ++ numbered_lines o (next_line_num c) ls'
  end.

(** With [number] set, the next [m] numbers take eleven places at
    most, the tab included: they have ten digits at most. *)
Definition numbers_fit (o : options) (c : line_counter) (m : nat) : Prop :=
  number o = true -> widths_within 11 c m.

(** All bytes a state has produced. *)
Definition total (s : state) : list Z := concat (written s) ++ bpout s.

(** Stores in a row. *)
Definition puts (outbuf_len : nat) (l : list Z) (b : list Z)
    : result (list Z) :=
  if (length b + length l <=? outbuf_len)%nat then Ok (b ++ l)
  else Stop OutOfBounds.

(** A read that succeeds with [data], the [ioctl] reporting nothing
    further. *)
Definition got (data : list Z) : read_event :=
  {| ev_ioctl := Available 0; ev_read := ReadOk data |}.

End Engine.

(** ** Further notions, for the properties of the code as a whole *)

(** *** The line counter *)

(** The number that a list of digits, least significant first, stands
    for. *)
Fixpoint digits_value (ds : list Z) : Z :=
  match ds with
  | [] => 0
  | d :: ds' => d + 10 * digits_value ds'
  end.

(** What every call of [next_line_num] keeps: the buffer has its
    twenty bytes, of which the last two are the tab and the NUL and the
    others lie between the blank and the overflow marker (which of them
    are blanks and which digits, [places_ok] below tells);
    [line_num_end] stays on the last digit place, and [line_num_print]
    is never to the right of [line_num_start] nor of its first
    position. *)
Definition counter_ok (l : line_counter) : Prop :=
  length (line_buf l) = LINE_COUNTER_BUF_LEN /\
  line_num_end l = 17%nat /\
  (line_num_print l <= line_num_start l)%nat /\
  (line_num_start l <= 17)%nat /\
  (line_num_print l <= 12)%nat /\
  Forall (fun b => 32 <= b <= 62) (take 18 (line_buf l)) /\
  drop 18 (line_buf l) = [9; 0].

(** The text of line number [n] as the engine writes it: the decimal
    numeral, right-justified with blanks in six places, and a tab. *)
Definition line_number (n : Z) : list Z :=
  let ds := to_digits 18 n in
  replicate (6 - length ds) 32 ++ map (fun d => 48 + d) (reverse ds) ++ [9].

(** What stands in the eighteen places before the tab: blanks to the
    left of [line_num_start], digits from there on, and in the first
    place of all the marker that the overflow leaves there. *)
Definition place_ok (start i : nat) (b : Z) : Prop :=
  (i < start)%nat /\ b = 32 \/
  (start <= i)%nat /\ (48 <= b <= 57 \/ i = 0%nat /\ b = 62).

Definition places_ok (start : nat) (buf : list Z) : Prop :=
  forall i b, (i < 18)%nat -> buf !! i = Some b -> place_ok start i b.

(** *** The substituting copy loop *)

(** A byte that [char_size] takes for the start of a character: an
    ASCII byte or one of 0xC0-0xF7. *)
Definition lead (c : Z) : Prop := 0 <= c < 0x80 \/ 0xC0 <= c <= 0xF7.

(** The length such a byte announces. *)
Definition announced (c : Z) : nat :=
  if c <? 0x80 then 1 else if c <? 0xE0 then 2 else if c <? 0xF0 then 3
  else 4.

(** What one turn of the second loop of [simple_cat] copies for the
    byte [c] that is followed in memory by [rest]: the table entry of a
    letter; for any other byte the byte itself and, when it announces
    more than one byte, that many of the bytes behind it. *)
Definition copied (c : Z) (rest : list Z) : list Z :=
  if Simple.is_upper c || Simple.is_lower c then Simple.replacement c
  else take (announced c) (c :: rest).

(** The same for each byte of a block in turn; the bytes behind a byte
    are the later bytes of the block and then [rest], what lies behind
    the block in the buffer. *)
Fixpoint block_text (data rest : list Z) : list Z :=
  match data with
  | [] => []
  | c :: data' => copied c (data' ++ rest) ++ block_text data' rest
  end.

(** A continuation byte of UTF-8. *)
Definition continuation (b : Z) : Prop := 0x80 <= b <= 0xBF.

Definition is_continuation (b : Z) : bool := (0x80 <=? b) && (b <=? 0xBF).

(** One character in well-formed UTF-8, as the Unicode standard lists
    the byte sequences (table 3-7): one to four bytes, no overlong
    form, no surrogate (U+D800 to U+DFFF) and nothing past U+10FFFF. *)
Definition scalar (bs : list Z) : bool :=
  match bs with
  | [a] => (0 <=? a) && (a <=? 0x7F)
  | [a; b] => (0xC2 <=? a) && (a <=? 0xDF) && is_continuation b
  | [a; b; c] =>
      ((a =? 0xE0) && (0xA0 <=? b) && (b <=? 0xBF)
       || (0xE1 <=? a) && (a <=? 0xEC) && is_continuation b
       || (a =? 0xED) && (0x80 <=? b) && (b <=? 0x9F)
       || (0xEE <=? a) && (a <=? 0xEF) && is_continuation b)
      && is_continuation c
  | [a; b; c; d] =>
      ((a =? 0xF0) && (0x90 <=? b) && (b <=? 0xBF)
       || (0xF1 <=? a) && (a <=? 0xF3) && is_continuation b
       || (a =? 0xF4) && (0x80 <=? b) && (b <=? 0x8F))
      && is_continuation c && is_continuation d
  | _ => false
  end.

(** A text that is such characters, one after the other. *)
Inductive well_formed : list Z -> Prop :=
| well_formed_nil : well_formed []
| well_formed_char ch rest :
    scalar ch = true -> well_formed rest -> well_formed (ch ++ rest).

(** *** The line engine, byte by byte and line by line *)

(** What one byte gives when lines are neither numbered nor
    squeezed and the byte behind it plays no part. *)
Definition byte_text (o : Engine.options) (b : Z) : list Z :=
  if b =? 10 then Engine.end_mark o
  else if Engine.show_nonprinting o then Engine.quote_text o b
  else Engine.plain_text o b 0.

Definition is_blank (l : list Z) : bool :=
  match l with
  | [] => true
  | _ :: _ => false
  end.

(** The lines that are left when blank lines are squeezed: an empty
    line behind an empty line is dropped.  [blank] tells whether the
    line before the first one was empty. *)
Fixpoint squeezed (blank : bool) (ls : list (list Z)) : list (list Z) :=
  match ls with
  | [] => []
  | l :: ls' =>
      if is_blank l then
        if blank then squeezed true ls' else l :: squeezed true ls'
      else l :: squeezed false ls'
  end.

(** Whether the last line was empty, after the lines [ls]. *)
Definition blank_after (blank : bool) (ls : list (list Z)) : bool :=
  match last ls with
  | Some l => is_blank l
  | None => blank
  end.

(** Which lines get a number: all of them with [number], but no empty
    one with [number_nonblank]. *)
Definition gets_number (o : Engine.options) (l : list Z) : bool :=
  Engine.number o && negb (is_blank l && Engine.number_nonblank o).

(** Lines written one after the other, each with its number when it
    gets one, its text and its end; and the counter behind them. *)
Fixpoint numbered_text (o : Engine.options) (c : line_counter)
    (ls : list (list Z)) : list Z * line_counter :=
  match ls with
  | [] => ([], c)
  | l :: ls' =>
      let c1 := if gets_number o l then next_line_num c else c in
      let '(t, c2) := numbered_text o c1 ls' in
      ((if gets_number o l then rendered c1 else [])
       ++ Engine.line_text o l ++ Engine.end_mark o ++ t, c2)
  end.

(** The bytes of a line as the scan writes them: each byte by
    [quote_text] or by [plain_text], which sees behind a byte the next
    byte of the line or a newline: the one that ends the line, or the
    sentinel that stands behind the last byte of a read. *)
Inductive shown (o : Engine.options) : list Z -> list Z -> Prop :=
| shown_nil : shown o [] []
| shown_cons b l t next :
    next = hd 10 l \/ next = 10 ->
    shown o l t ->
    shown o (b :: l)
      ((if Engine.show_nonprinting o then Engine.quote_text o b
        else Engine.plain_text o b next) ++ t).

(** The reads are cut where the scan cannot take the sentinel for a
    newline of the input: no read ends in a carriage return, unless
    [show_nonprinting] is set or [show_ends] is not. *)
Definition clean_cuts (o : Engine.options) (chunks : list (list Z)) : Prop :=
  Engine.show_nonprinting o = true \/ Engine.show_ends o = false \/
  Forall (fun d => last d <> Some 13) chunks.

(** One for a count of blank lines that says a line starts. *)
Definition at_start (nl : Z) : nat := if 0 <=? nl then 1 else 0.

(** A byte value; a byte that prints: a tab, a newline or one of the
    visible ASCII characters and the blank. *)
Definition byte (b : Z) : Prop := 0 <= b < 256.

Definition printable (b : Z) : Prop := b = 9 \/ b = 10 \/ 32 <= b <= 126.

(** *** The reads of [cat] and its writes *)

(** The [ioctl] reports input that can be read at once. *)
Definition input_pending (ev : Engine.read_event) : Prop :=
  exists n, Engine.ev_ioctl ev = Engine.Available n /\ n <> 0.

(** The state in which [cat] calls [safe_read] (line 453), when the
    [ioctl] has not failed: [use_fionread] is given up on an
    unsupported [ioctl], and what is in the buffer is written first
    unless input is pending. *)
Definition before_read (ev : Engine.read_event) (s : Engine.state)
    : Engine.state :=
  match (if Engine.use_fionread s then Engine.ev_ioctl ev
         else Engine.Available 0) with
  | Engine.Available n =>
      if n =? 0 then Engine.write_pending s else s
  | _ =>
      Engine.write_pending
        {| Engine.newlines := Engine.newlines s;
           Engine.counter := Engine.counter s;
           Engine.bpout := Engine.bpout s;
           Engine.written := Engine.written s;
           Engine.use_fionread := false |}
  end.

(** From one state of [cat] to a later one only whole blocks of
    [outsize] bytes were written, and [use_fionread] is as it was. *)
Definition flushed_on (outsize : nat) (s s' : Engine.state) : Prop :=
  Engine.use_fionread s' = Engine.use_fionread s /\
  exists blocks,
    Engine.written s' = Engine.written s ++ blocks /\
    Forall (fun b => length b = outsize) blocks.

(** The same reads with other answers of the [ioctl]. *)
Definition same_reads (script script' : list Engine.read_event) : Prop :=
  Forall2 (fun ev ev' => Engine.ev_read ev = Engine.ev_read ev') script script'.

(** ** [main] (cat.c lines 621-886) *)

Module Main.

Import Engine.

(** The option variables as [main] declares them (lines 659-664). *)
Definition no_options : options :=
  {| show_nonprinting := false; show_tabs := false; number := false;
     number_nonblank := false; show_ends := false; squeeze_blank := false |}.

(** The switch of lines 698-751 on a value that [getopt_long] has
    returned.  [None] stands for the cases in which the process leaves
    from inside the switch: the help, the version, and [usage] for any
    other value. *)
Definition set_option (c : Z) (o : options) : option options :=
  match c with
  | 98 (* b *) =>
      Some {| show_nonprinting := show_nonprinting o;
              show_tabs := show_tabs o; number := true;
              number_nonblank := true; show_ends := show_ends o;
              squeeze_blank := squeeze_blank o |}
  | 101 (* e *) =>
      Some {| show_nonprinting := true; show_tabs := show_tabs o;
              number := number o; number_nonblank := number_nonblank o;
              show_ends := true; squeeze_blank := squeeze_blank o |}
  | 110 (* n *) =>
      Some {| show_nonprinting := show_nonprinting o;
              show_tabs := show_tabs o; number := true;
              number_nonblank := number_nonblank o;
              show_ends := show_ends o; squeeze_blank := squeeze_blank o |}
  | 115 (* s *) =>
      Some {| show_nonprinting := show_nonprinting o;
              show_tabs := show_tabs o; number := number o;
              number_nonblank := number_nonblank o;
              show_ends := show_ends o; squeeze_blank := true |}
  | 116 (* t *) =>
      Some {| show_nonprinting := true; show_tabs := true;
              number := number o; number_nonblank := number_nonblank o;
              show_ends := show_ends o; squeeze_blank := squeeze_blank o |}
  | 117 (* u *) => Some o
  | 118 (* v *) =>
      Some {| show_nonprinting := true; show_tabs := show_tabs o;
              number := number o; number_nonblank := number_nonblank o;
              show_ends := show_ends o; squeeze_blank := squeeze_blank o |}
  | 65 (* A *) =>
      Some {| show_nonprinting := true; show_tabs := true;
              number := number o; number_nonblank := number_nonblank o;
              show_ends := true; squeeze_blank := squeeze_blank o |}
  | 69 (* E *) =>
      Some {| show_nonprinting := show_nonprinting o;
              show_tabs := show_tabs o; number := number o;
              number_nonblank := number_nonblank o;
              show_ends := true; squeeze_blank := squeeze_blank o |}
  | 84 (* T *) =>
      Some {| show_nonprinting := show_nonprinting o; show_tabs := true;
              number := number o; number_nonblank := number_nonblank o;
              show_ends := show_ends o; squeeze_blank := squeeze_blank o |}
  | _ => None
  end.

(** The loop of lines 695-752 over the values that [getopt_long]
    returns one after the other, up to its -1. *)
Fixpoint parse_options (cs : list Z) (o : options) : option options :=
  match cs with
  | [] => Some o
  | c :: cs' =>
      match set_option c o with
      | Some o' => parse_options cs' o'
      | None => None
      end
  end.

(** The test of lines 826-827: with any of these set [cat] is used,
    otherwise [simple_cat]. *)
Definition formatting (o : options) : bool :=
  number o || show_ends o || show_nonprinting o || show_tabs o
  || squeeze_blank o.

(** One turn of the loop of lines 777-880, as the system answers it:
    whether the operand is [-]; whether [open], [fstat] and [close]
    succeed; the block size that [io_blksize] gives; whether the test
    of lines 814-816 finds the input to be the output file; what the
    fresh input buffer holds; and the reads.  Diagnostics go to the
    standard error and are left out. *)
Record operand := Operand {
  is_stdin : bool;
  opens : bool;
  stats : bool;
  blksize : nat;
  is_output : bool;
  memory : list Z;
  script : list read_event;
  closes : bool
}.

(** The variables of [main] and of the file that live across the
    operands, and the writes made so far. *)
Record process := Process {
  ok : bool;
  newlines2 : Z;
  line_counter_now : line_counter;
  out : list (list Z)
}.

Definition failed (p : process) : process :=
  {| ok := false; newlines2 := newlines2 p;
     line_counter_now := line_counter_now p; out := out p |}.

(** How the process ends: it returns from [main] with a status, it
    leaves through [die], or it has left what the language defines. *)
Inductive ended :=
| Exited (success : bool) (out : list (list Z))
| Died (out : list (list Z))
| Undefined.

(** The label [contin] (lines 873-878). *)
Definition contin (f : operand) (p : process) : process :=
  if negb (is_stdin f) && negb (closes f) then failed p else p.

(** One operand (lines 779-878): [inl] when the loop goes on. *)
Definition one_operand (o : options) (outsize : nat) (f : operand)
    (p : process) : process + ended :=
  if negb (is_stdin f) && negb (opens f) then inl (failed p)
  else if negb (stats f) then inl (contin f (failed p))
  else if is_output f then inl (contin f (failed p))
  else if negb (formatting o) then
    match Simple.simple_cat (map ev_read (script f)) (memory f) (out p) with
    | (written, Simple.Returned ok') =>
        inl (contin f {| ok := ok p && ok'; newlines2 := newlines2 p;
                         line_counter_now := line_counter_now p;
                         out := written |})
    | (written, Simple.Stopped UnexpectedUtf8) => inr (Died written)
    | (_, Simple.Stopped _) => inr Undefined
    end
  else
    match cat (outbuf_size (blksize f) outsize) outsize o (script f)
            (newlines2 p) (line_counter_now p) with
    | Return ok' nl c written =>
        inl (contin f {| ok := ok p && ok'; newlines2 := nl;
                         line_counter_now := c; out := out p ++ written |})
    | Halt _ => inr Undefined
    end.

(** The loop over the operands; with no file operand it makes its one
    turn for the standard input, so [ops] is never empty. *)
Fixpoint operands (o : options) (outsize : nat) (ops : list operand)
    (p : process) : process + ended :=
  match ops with
  | [] => inl p
  | f :: ops' =>
      match one_operand o outsize f p with
      | inl p' => operands o outsize ops' p'
      | inr e => inr e
      end
  end.

(** [main] from the parsing of the options on: [optchars] are the
    values [getopt_long] returns, [stdout_stats] and [stdin_closes] tell
    whether the [fstat] of the standard output and the final [close] of
    the standard input succeed.  [None] is an exit from the option
    switch. *)
Definition main (optchars : list Z) (stdout_stats : bool) (outsize : nat)
    (ops : list operand) (stdin_closes : bool) : option ended :=
  match parse_options optchars no_options with
  | None => None
  | Some o =>
      if negb stdout_stats then Some (Died [])
      else
        match operands o outsize ops
                {| ok := true; newlines2 := 0; line_counter_now := initial;
                   out := [] |} with
        | inl p =>
            if existsb is_stdin ops && negb stdin_closes
            then Some (Died (out p))
            else Some (Exited (ok p) (out p))
        | inr e => Some e
        end
  end.

(** *** Notions for the properties of [main] *)

(** The option letters of the switch: b e n s t u v A E T. *)
Definition option_letters : list Z :=
  [98; 101; 110; 115; 116; 117; 118; 65; 69; 84].

(** Whether the option [c] is among those given. *)
Definition given (c : Z) (cs : list Z) : bool := existsb (Z.eqb c) cs.

(** An operand that reaches the copying: it is opened, [fstat]
    succeeds on it, and it is not the output file. *)
Definition usable (f : operand) : bool :=
  (is_stdin f || opens f) && stats f && negb (is_output f).

(** The [close] at [contin] does not fail. *)
Definition closed_well (f : operand) : bool := is_stdin f || closes f.

(** The bytes that the reads of an operand bring. *)
Definition contents (f : operand) : list Z :=
  concat (script_data (script f)).

End Main.

(** * Properties *)

(** ** The line counter *)

Section LineNumFacts.

Example rendered_initial : rendered initial = [32;32;32;32;32;48;9].
Proof. reflexivity. Qed.

Example rendered_after_10 :
  rendered (after 10 initial) = [32;32;32;32;49;48;9].
Proof. reflexivity. Qed.

Example initial_showing : initial = showing 0.
Proof. reflexivity. Qed.

Lemma inc_length ds : (length ds <= length (inc ds) <= S (length ds))%nat.
Proof.
  induction ds as [|d ds IH]; simpl; [lia|].
  destruct (d <? 9); simpl; lia.
Qed.

Lemma to_digits_digits fuel v : 0 <= v -> Forall digit (to_digits fuel v).
Proof.
  revert v; induction fuel as [|fuel IH]; intros v Hv; simpl; [constructor|].
  destruct (Z.ltb_spec v 10).
  - repeat constructor; unfold digit; lia.
  - constructor.
    + unfold digit. pose proof (Z.mod_pos_bound v 10). lia.
    + apply IH. apply Z.div_pos; lia.
Qed.

Lemma to_digits_length fuel k v :
  (1 <= k)%nat -> 0 <= v < 10 ^ Z.of_nat k ->
  (length (to_digits fuel v) <= k)%nat.
Proof.
  revert k v; induction fuel as [|fuel IH]; intros k v Hk Hv; simpl; [lia|].
  destruct (Z.ltb_spec v 10); simpl; [lia|].
  destruct k as [|k]; [lia|].
  destruct k as [|k]; [simpl in Hv; lia|].
  apply le_n_S, IH; [lia|].
  replace (Z.of_nat (S (S k))) with (Z.succ (Z.of_nat (S k))) in Hv by lia.
  rewrite Z.pow_succ_r in Hv by lia.
  split; [apply Z.div_pos; lia|].
  apply Z.div_lt_upper_bound; lia.
Qed.

Lemma to_digits_nonempty fuel v : to_digits (S fuel) v <> [].
Proof. simpl. destruct (v <? 10); discriminate. Qed.

(** Adding one to the value adds one to its digits. *)
Lemma inc_to_digits fuel v :
  0 <= v -> v + 1 < 10 ^ Z.of_nat fuel ->
  inc (to_digits fuel v) = to_digits fuel (v + 1).
Proof.
  revert v; induction fuel as [|fuel IH]; intros v Hv Hlt.
  { simpl in Hlt. lia. }
  replace (Z.of_nat (S fuel)) with (Z.succ (Z.of_nat fuel)) in Hlt by lia.
  rewrite Z.pow_succ_r in Hlt by lia.
  cbn [to_digits].
  assert (Hp : 0 < 10 ^ Z.of_nat fuel) by (apply Z.pow_pos_nonneg; lia).
  destruct (Z.ltb_spec v 10) as [Hs|Hb].
  - cbn [inc]. destruct (Z.ltb_spec v 9) as [H9|H9].
    + destruct (Z.ltb_spec (v + 1) 10); [reflexivity|lia].
    + assert (v = 9) by lia; subst v.
      destruct fuel as [|fuel]; [simpl in Hlt; lia|].
      reflexivity.
  - assert (Hdm := Z.div_mod v 10 ltac:(lia)).
    assert (Hm := Z.mod_pos_bound v 10 ltac:(lia)).
    destruct (Z.ltb_spec (v + 1) 10); [lia|].
    cbn [inc]. destruct (Z.ltb_spec (v mod 10) 9) as [H9|H9].
    + f_equal.
      * apply (Z.mod_unique _ _ (v / 10)); lia.
      * f_equal. apply (Z.div_unique _ _ _ (v mod 10 + 1)); lia.
    + rewrite IH; [|apply Z.div_pos; lia|].
      2:{ set (P := 10 ^ Z.of_nat fuel) in *. lia. }
      f_equal.
      * apply (Z.mod_unique _ _ (v / 10 + 1)); lia.
      * f_equal. apply (Z.div_unique _ _ _ 0); lia.
Qed.

Lemma carry_loop_unfold start buf endp :
  carry_loop start buf endp =
  let c := default 0 (buf !! endp) in
  let buf1 := <[endp := c + 1]> buf in
  if c <? 57 then Incremented buf1
  else
    let buf2 := <[endp := 48]> buf1 in
    match endp with
    | O => CarriedOut buf2
    | S endp' =>
        if (start <=? endp')%nat then carry_loop start buf2 endp'
        else CarriedOut buf2
    end.
Proof. destruct endp; reflexivity. Qed.

Lemma insert_middle (l1 l2 : list Z) x y n :
  n = length l1 -> <[n := y]> (l1 ++ x :: l2) = l1 ++ y :: l2.
Proof.
  intros ->. rewrite insert_app_r_alt by lia.
  replace (length l1 - length l1)%nat with 0%nat by lia. reflexivity.
Qed.

Lemma map_replicate {A B} (f : A -> B) n x :
  map f (replicate n x) = replicate n (f x).
Proof. induction n; simpl; congruence. Qed.

Lemma inc_all_nines ds :
  all_nines ds = true -> inc ds = replicate (length ds) 0 ++ [1].
Proof.
  induction ds as [|d ds IH]; simpl; [reflexivity|].
  intros [Hd Hds]%andb_prop. apply Z.eqb_eq in Hd; subst d.
  simpl. rewrite IH by assumption. reflexivity.
Qed.

Lemma inc_not_all_nines ds :
  Forall digit ds -> all_nines ds = false -> length (inc ds) = length ds.
Proof.
  induction 1 as [|d ds Hd Hds IH]; simpl; [discriminate|].
  destruct (Z.ltb_spec d 9); [reflexivity|].
  assert (d = 9) by (unfold digit in Hd; lia); subst d.
  simpl. intros Hn. rewrite IH by assumption. reflexivity.
Qed.

(** The loop of [next_line_num] on a field of digits between [pre]
    and [post]: either one digit takes the carry, or all were nine and
    all are reset. *)
Lemma carry_loop_digits ds : forall pre post,
  Forall digit ds -> ds <> [] ->
  carry_loop (length pre)
    (pre ++ map (fun d => 48 + d) (reverse ds) ++ post)
    (length pre + length ds - 1) =
  if all_nines ds
  then CarriedOut (pre ++ replicate (length ds) 48 ++ post)
  else Incremented (pre ++ map (fun d => 48 + d) (reverse (inc ds)) ++ post).
Proof.
  induction ds as [|d ds IH]; intros pre post Hds Hne; [congruence|].
  apply Forall_cons in Hds as [Hd Hds].
  rewrite carry_loop_unfold.
  rewrite reverse_cons, map_app, <- !app_assoc. cbn [map app].
  rewrite (app_assoc pre).
  set (L := pre ++ map (fun d => 48 + d) (reverse ds)).
  assert (HL : (length pre + length (d :: ds) - 1)%nat = length L).
  { subst L. rewrite length_app, length_map, length_reverse. simpl. lia. }
  rewrite HL. rewrite list_lookup_middle by reflexivity.
  change (default 0 (Some (48 + d))) with (48 + d). cbv zeta.
  rewrite insert_middle by reflexivity.
  cbn [inc all_nines forallb].
  destruct (Z.ltb_spec d 9) as [H9|H9].
  - destruct (Z.ltb_spec (48 + d) 57); [|lia].
    destruct (Z.eqb_spec d 9); [lia|]. cbn [andb].
    rewrite reverse_cons, map_app, <- !app_assoc. cbn [map app].
    subst L. rewrite <- app_assoc.
    replace (48 + d + 1) with (48 + (d + 1)) by lia. reflexivity.
  - assert (d = 9) by (unfold digit in Hd; lia); subst d.
    change (48 + 9 <? 57) with false. cbv iota.
    rewrite insert_middle by reflexivity.
    change (9 =? 9) with true. cbn [andb].
    destruct ds as [|d' ds'].
    + subst L. simpl. rewrite app_nil_r in *.
      destruct (length pre) as [|p] eqn:Hp.
      * reflexivity.
      * destruct (Nat.leb_spec (S p) p); [lia|]. reflexivity.
    + assert (Hlen : length L = S (length pre + length (d' :: ds') - 1)).
      { subst L. rewrite length_app, length_map, length_reverse. simpl. lia. }
      rewrite Hlen.
      destruct (Nat.leb_spec (length pre) (length pre + length (d' :: ds') - 1));
        [|simpl in *; lia].
      subst L. rewrite <- app_assoc.
      rewrite (IH pre (48 :: post)) by (assumption || discriminate).
      fold (all_nines (d' :: ds')).
      destruct (all_nines (d' :: ds')).
      * f_equal. f_equal. change (48 :: post) with ([48] ++ post).
        rewrite app_assoc. f_equal.
        change [48] with (replicate 1 48). rewrite <- replicate_add.
        f_equal. simpl. lia.
      * f_equal. rewrite reverse_cons, map_app, <- !app_assoc. reflexivity.
Qed.

Lemma next_line_num_of_digits ds :
  Forall digit ds -> ds <> [] -> (length (inc ds) <= 18)%nat ->
  next_line_num (of_digits ds) = of_digits (inc ds).
Proof.
  intros Hds Hne Hlen.
  pose proof (inc_length ds) as Hil.
  assert (Hpos : (1 <= length ds)%nat) by (destruct ds; [congruence|simpl; lia]).
  unfold next_line_num, of_digits.
  cbn [line_buf line_num_start line_num_end line_num_print].
  set (start := (18 - length ds)%nat).
  pose proof (carry_loop_digits ds (replicate start 32) [9; 0] Hds Hne) as HC.
  rewrite length_replicate in HC.
  replace (start + length ds - 1)%nat with 17%nat in HC by lia.
  rewrite HC; clear HC.
  destruct (all_nines ds) eqn:Hall.
  - rewrite (inc_all_nines ds Hall) in *.
    rewrite length_app, length_replicate in *. simpl in Hlen.
    rewrite reverse_app, reverse_replicate. cbn [reverse rev_append app map].
    change (length [1]) with 1%nat.
    assert (Hs : (18 - (length ds + 1) = start - 1)%nat) by lia.
    rewrite !Hs.
    destruct (Nat.ltb_spec 0 start) as [_|]; [|lia].
    f_equal.
    + replace (replicate start 32) with (replicate (start - 1) 32 ++ [32]).
      2:{ change [32] with (replicate 1 32). rewrite <- replicate_add.
          f_equal. lia. }
      rewrite <- app_assoc. cbn [app].
      rewrite insert_middle by (rewrite length_replicate; reflexivity).
      f_equal. f_equal. f_equal.
      rewrite map_replicate. reflexivity.
    + destruct (Nat.ltb_spec (start - 1) (start `min` 12)); lia.
  - rewrite (inc_not_all_nines ds Hds Hall). reflexivity.
Qed.

(** Calling [next_line_num] [n] times adds [n] to the count shown,
    below eighteen digits. *)
Lemma after_showing n v :
  0 <= v -> v + Z.of_nat n < 10 ^ 18 ->
  after n (showing v) = showing (v + Z.of_nat n).
Proof.
  intros Hv. induction n as [|n IH]; intros Hlt.
  - simpl. f_equal. lia.
  - cbn [after]. rewrite IH by lia. unfold showing.
    replace (v + Z.of_nat (S n)) with (v + Z.of_nat n + 1) by lia.
    rewrite <- inc_to_digits by (change (Z.of_nat 18) with 18; lia).
    apply next_line_num_of_digits.
    + apply to_digits_digits. lia.
    + apply to_digits_nonempty.
    + rewrite inc_to_digits by (change (Z.of_nat 18) with 18; lia).
      apply to_digits_length; [lia|]. change (Z.of_nat 18) with 18. lia.
Qed.

(** The saturated counter is what [10 ^ 18 - 1] increments of the
    initial counter give. *)
Lemma saturated_reached :
  after (Z.to_nat (10 ^ 18 - 1)) initial = saturated.
Proof.
  rewrite initial_showing, after_showing; [|lia|].
  - rewrite Z2Nat.id by lia. reflexivity.
  - rewrite Z2Nat.id by lia. reflexivity.
Qed.

Lemma carry_loop_length start endp : forall buf,
  length (carry_buf (carry_loop start buf endp)) = length buf.
Proof.
  induction endp as [|e IH]; intros buf; rewrite carry_loop_unfold; cbv zeta.
  - destruct (_ <? 57); simpl; rewrite ?length_insert; reflexivity.
  - destruct (_ <? 57); simpl; rewrite ?length_insert; [reflexivity|].
    destruct (start <=? e)%nat; simpl; rewrite ?IH, ?length_insert; reflexivity.
Qed.

(** The loop leaves the places to the right of [endp] alone. *)
Lemma carry_loop_above start endp : forall buf i,
  (endp < i)%nat ->
  carry_buf (carry_loop start buf endp) !! i = buf !! i.
Proof.
  induction endp as [|e IH]; intros buf i Hi; rewrite carry_loop_unfold;
    cbv zeta.
  - destruct (_ <? 57); simpl; rewrite !list_lookup_insert_ne by lia;
      reflexivity.
  - destruct (_ <? 57); simpl.
    + rewrite !list_lookup_insert_ne by lia; reflexivity.
    + destruct (start <=? e)%nat; simpl.
      * rewrite IH by lia. rewrite !list_lookup_insert_ne by lia; reflexivity.
      * rewrite !list_lookup_insert_ne by lia; reflexivity.
Qed.

(** Every call changes the last digit. *)
Lemma next_line_num_changes l :
  line_num_end l = 17%nat -> (line_num_start l <= 17)%nat ->
  length (line_buf l) = 20%nat ->
  line_buf (next_line_num l) !! 17%nat <> line_buf l !! 17%nat.
Proof.
  intros He Hs Hlen.
  assert (Hin : is_Some (line_buf l !! 17%nat))
    by (apply lookup_lt_is_Some; lia).
  destruct Hin as [c Hc].
  assert (Hloop :
    carry_buf (carry_loop (line_num_start l) (line_buf l) 17) !! 17%nat
    <> Some c).
  { rewrite carry_loop_unfold. cbv zeta. rewrite Hc.
    change (default 0 (Some c)) with c.
    destruct (Z.ltb_spec c 57).
    - simpl. rewrite list_lookup_insert_eq by lia. intros [=]; lia.
    - destruct (line_num_start l <=? 16)%nat.
      + rewrite carry_loop_above by lia.
        rewrite list_lookup_insert_eq by (rewrite length_insert; lia).
        intros [=]; lia.
      + simpl.
        rewrite list_lookup_insert_eq by (rewrite length_insert; lia).
        intros [=]; lia. }
  unfold next_line_num. rewrite He, Hc.
  destruct (carry_loop (line_num_start l) (line_buf l) 17) as [b|b];
    simpl in *; [assumption|].
  destruct (0 <? line_num_start l)%nat;
    rewrite list_lookup_insert_ne by lia; assumption.
Qed.

Lemma carry_loop_marker endp : forall buf,
  buf !! 0%nat = Some 62 ->
  match carry_loop 0 buf endp with
  | Incremented b => b !! 0%nat = Some 62
  | CarriedOut _ => True
  end.
Proof.
  induction endp as [|e IH]; intros buf H0; rewrite carry_loop_unfold;
    cbv zeta.
  - rewrite H0. reflexivity.
  - destruct (_ <? 57).
    + rewrite list_lookup_insert_ne by lia. assumption.
    + change (0 <=? e)%nat with true. cbv iota. apply IH.
      rewrite !list_lookup_insert_ne by lia. assumption.
Qed.

Lemma overflowed_next l : overflowed l -> overflowed (next_line_num l).
Proof.
  intros (Hs & He & Hlen & H0). unfold overflowed, next_line_num.
  rewrite Hs, He.
  pose proof (carry_loop_marker 17 (line_buf l) H0) as Hm.
  pose proof (carry_loop_length 0 17 (line_buf l)) as Hl.
  destruct (carry_loop 0 (line_buf l) 17) as [b|b]; simpl in *.
  - repeat split; assumption || lia.
  - repeat split; try assumption; rewrite ?length_insert; try lia.
    apply list_lookup_insert_eq. lia.
Qed.

Lemma overflowed_after n l : overflowed l -> overflowed (after n l).
Proof. intros H. induction n; simpl; auto using overflowed_next. Qed.

Lemma overflowed_saturated : overflowed (next_line_num saturated).
Proof. repeat split. Qed.

(** C8, as the code has it: at the saturated counter the next call
    writes the marker character over the leftmost place only, the other
    seventeen places having turned to zero, so that the rendered field
    is the marker, seventeen zeros and the tab; the counter does not
    freeze: the marker keeps the first place and every later call
    changes the last digit again. *)
Theorem C8_saturated_counter_marks_and_counts_on :
  rendered (next_line_num saturated) = 62 :: replicate 17 48 ++ [9] /\
  (forall n, line_buf (after n (next_line_num saturated)) !! 0%nat = Some 62) /\
  (forall n,
     line_buf (after (S n) (next_line_num saturated)) !! 17%nat
     <> line_buf (after n (next_line_num saturated)) !! 17%nat).
Proof.
  split; [reflexivity|]. split; intros n.
  - apply (overflowed_after n _ overflowed_saturated).
  - destruct (overflowed_after n _ overflowed_saturated) as (Hs & He & Hl & _).
    cbn [after]. apply next_line_num_changes; lia.
Qed.

(** C8 as stated fails at the saturated counter: the rendered field is
    not one marker character, and the next call changes the counter. *)
Lemma C8_counterexample :
  length (rendered (next_line_num saturated)) = 19%nat /\
  next_line_num (next_line_num saturated) <> next_line_num saturated.
Proof.
  split; [reflexivity|]. intros H.
  apply (f_equal (fun l => line_buf l !! 17%nat)) in H.
  vm_compute in H. discriminate.
Qed.

Lemma c_string_nul ys :
  Forall (fun y => y <> 0) ys -> c_string (ys ++ [0]) = ys.
Proof.
  induction 1 as [|y ys Hy Hys IH]; [reflexivity|].
  cbn [app c_string]. destruct (Z.eqb_spec y 0); [contradiction|].
  rewrite IH. reflexivity.
Qed.

(** What a counter of digits shows: the blanks from [line_num_print]
    on, the digits and the tab. *)
Lemma rendered_of_digits ds :
  Forall digit ds -> (1 <= length ds <= 18)%nat ->
  rendered (of_digits ds) =
  replicate ((18 - length ds) - (18 - length ds) `min` 12) 32
  ++ map (fun d => 48 + d) (reverse ds) ++ [9].
Proof.
  intros Hds Hlen. unfold rendered, of_digits.
  cbn [line_buf line_num_print].
  set (start := (18 - length ds)%nat).
  replace (replicate start 32 ++ map (fun d => 48 + d) (reverse ds) ++ [9; 0])
    with ((replicate start 32 ++ map (fun d => 48 + d) (reverse ds) ++ [9])
          ++ [0]) by (rewrite <- !app_assoc; reflexivity).
  rewrite drop_app_le by (rewrite length_app, length_replicate; lia).
  rewrite drop_app_le by (rewrite length_replicate; lia).
  rewrite drop_replicate.
  rewrite c_string_nul; [reflexivity|].
  apply Forall_app. split; [apply Forall_replicate; lia|].
  apply Forall_app. split; [|repeat constructor; lia].
  apply List.Forall_map, Forall_reverse.
  eapply Forall_impl; [exact Hds|]. unfold digit. intros d Hd. cbv beta. lia.
Qed.

(** Below ten digits a number takes eleven places at most, the tab
    included. *)
Lemma widths_within_showing v m :
  0 <= v -> v + Z.of_nat m < 10 ^ 10 ->
  widths_within 11 (showing v) m.
Proof.
  intros Hv Hm k Hk.
  rewrite after_showing by lia. unfold showing.
  assert (Hlen : (length (to_digits 18 (v + Z.of_nat k)) <= 10)%nat)
    by (apply to_digits_length; [lia|change (Z.of_nat 10) with 10; lia]).
  assert (Hpos : (1 <= length (to_digits 18 (v + Z.of_nat k)))%nat).
  { pose proof (to_digits_nonempty 17 (v + Z.of_nat k)).
    destruct (to_digits 18 (v + Z.of_nat k)); [congruence|simpl; lia]. }
  rewrite rendered_of_digits by (try apply to_digits_digits; lia).
  rewrite !length_app, length_replicate, length_map, length_reverse.
  change (length [9]) with 1%nat. lia.
Qed.

End LineNumFacts.

(** ** The substituting copy loop *)

Section SimpleFacts.

Import Simple.

Example block_Ab : block [65; 98; 10] 3 = Ok [0xe2; 0x88; 0x80; 0x71; 10].
Proof. reflexivity. Qed.

(** A property checked on each of the 256 byte values holds of every
    byte. *)
Lemma byte_cases (P : Z -> bool) :
  forallb P (map Z.of_nat (seq 0 256)) = true ->
  forall c, 0 <= c < 256 -> P c = true.
Proof.
  intros H c Hc. rewrite forallb_forall in H. apply H.
  apply in_map_iff. exists (Z.to_nat c). split; [lia|].
  apply in_seq. lia.
Qed.

Lemma select_pointed (pre rest : list Z) c :
  select (pre ++ c :: rest) (length pre) = Ok (pointed c rest).
Proof.
  unfold select, pointed. rewrite list_lookup_middle by reflexivity.
  destruct (is_upper c); [reflexivity|]. destruct (is_lower c); [reflexivity|].
  rewrite drop_app_length. reflexivity.
Qed.

Lemma pointed_plain c rest :
  plain c ->
  char_size (pointed c rest) = Ok (length (replacement c)) /\
  take (length (replacement c)) (pointed c rest) = replacement c /\
  (length (replacement c) <= length (pointed c rest))%nat /\
  declared_length c = length (replacement c).
Proof.
  intros Hc.
  set (check := fun c =>
    if c <? 128 then
      if is_upper c || is_lower c then
        match char_size (pointed c []) with
        | Ok n =>
            (n =? length (replacement c))%nat &&
            (n <=? length (pointed c []))%nat &&
            bool_decide (take n (pointed c []) = replacement c) &&
            (declared_length c =? n)%nat
        | Stop _ => false
        end
      else Z.land c 0x80 =? 0
    else true).
  assert (Hall : check c = true).
  { apply byte_cases; [vm_compute; reflexivity|unfold plain in Hc; lia]. }
  subst check. cbv beta in Hall.
  destruct (Z.ltb_spec c 128); [|unfold plain in Hc; lia].
  unfold pointed, replacement, declared_length in *.
  destruct (is_upper c) eqn:Hu; [|destruct (is_lower c) eqn:Hl]; cbn [orb] in Hall.
  - destruct (char_size _) as [n|]; [|discriminate].
    apply andb_prop in Hall as [Hall H4]. apply andb_prop in Hall as [Hall H3].
    apply andb_prop in Hall as [H1 H2].
    apply Nat.eqb_eq in H1, H4. apply Nat.leb_le in H2.
    apply bool_decide_eq_true in H3. subst n. auto.
  - destruct (char_size _) as [n|]; [|discriminate].
    apply andb_prop in Hall as [Hall H4]. apply andb_prop in Hall as [Hall H3].
    apply andb_prop in Hall as [H1 H2].
    apply Nat.eqb_eq in H1, H4. apply Nat.leb_le in H2.
    apply bool_decide_eq_true in H3. subst n. auto.
  - cbn [char_size length take]. rewrite Hall. repeat split. simpl. lia.
Qed.

Lemma copy_char_take uclen : forall clen puc unibuf,
  (clen <= length puc)%nat -> (length unibuf + clen <= uclen)%nat ->
  copy_char uclen puc clen unibuf = Ok (unibuf ++ take clen puc).
Proof.
  induction clen as [|n IH]; intros puc unibuf Hp Hu; simpl.
  - rewrite app_nil_r. reflexivity.
  - destruct puc as [|b puc]; [simpl in Hp; lia|].
    destruct (Nat.ltb_spec (length unibuf) uclen); [|lia].
    rewrite IH by (simpl in *; rewrite ?length_app; simpl; lia).
    rewrite <- app_assoc. reflexivity.
Qed.

(** The first loop adds up the lengths of the replacements. *)
Lemma count_loop_plain data : forall pre rest uclen,
  Forall plain data ->
  count_loop (pre ++ data ++ rest) (length data) (length pre) uclen =
  Ok (uclen + length (flat_map replacement data))%nat.
Proof.
  induction data as [|c data IH]; intros pre rest uclen Hd.
  - simpl. f_equal. lia.
  - apply Forall_cons in Hd as [Hc Hd].
    cbn [length count_loop app].
    rewrite select_pointed. cbn [bind].
    destruct (pointed_plain c (data ++ rest) Hc) as (-> & _).
    cbn [bind].
    replace (pre ++ c :: data ++ rest) with ((pre ++ [c]) ++ data ++ rest)
      by (rewrite <- app_assoc; reflexivity).
    replace (S (length pre)) with (length (pre ++ [c]))
      by (rewrite length_app; simpl; lia).
    rewrite IH by assumption. cbn [flat_map]. rewrite length_app.
    f_equal. lia.
Qed.

(** The second loop lays the replacements end to end. *)
Lemma copy_loop_plain uclen data : forall pre rest unibuf,
  Forall plain data ->
  (length unibuf + length (flat_map replacement data) <= uclen)%nat ->
  copy_loop uclen (pre ++ data ++ rest) (length data) (length pre) unibuf =
  Ok (unibuf ++ flat_map replacement data).
Proof.
  induction data as [|c data IH]; intros pre rest unibuf Hd Hlen.
  - simpl. rewrite app_nil_r. reflexivity.
  - apply Forall_cons in Hd as [Hc Hd].
    cbn [flat_map] in *. rewrite length_app in Hlen.
    cbn [length copy_loop app].
    rewrite select_pointed. cbn [bind].
    destruct (pointed_plain c (data ++ rest) Hc) as (-> & Ht & Hl & _).
    cbn [bind].
    rewrite copy_char_take by lia. cbn [bind]. rewrite Ht.
    replace (pre ++ c :: data ++ rest) with ((pre ++ [c]) ++ data ++ rest)
      by (rewrite <- app_assoc; reflexivity).
    replace (S (length pre)) with (length (pre ++ [c]))
      by (rewrite length_app; simpl; lia).
    rewrite IH by (rewrite ?length_app; assumption || lia).
    rewrite <- app_assoc. reflexivity.
Qed.

Lemma declared_lengths data :
  Forall plain data ->
  length (flat_map replacement data) =
  foldr Nat.add 0%nat (map declared_length data).
Proof.
  induction 1 as [|c data Hc Hd IH]; [reflexivity|].
  cbn [flat_map map foldr]. rewrite length_app, IH.
  destruct (pointed_plain c [] Hc) as (_ & _ & _ & ->). reflexivity.
Qed.

(** C1, as the code has it: for a block all of whose bytes are below
    128, whatever lies behind it in the buffer, the one write holds the
    replacement of each byte in turn, a letter giving its table entry
    and any other byte itself, and its length is the sum of the
    declared lengths. *)
Theorem C1_ascii_block_substituted (data rest : list Z) :
  Forall Simple.plain data ->
  Simple.block (data ++ rest) (length data) =
    Ok (flat_map Simple.replacement data) /\
  length (flat_map Simple.replacement data) =
    foldr Nat.add 0%nat (map Simple.declared_length data).
Proof.
  intros Hd. split; [|apply declared_lengths; assumption].
  unfold block.
  pose proof (count_loop_plain data [] rest 0 Hd) as H1.
  cbn [app length] in H1. rewrite H1. cbn [bind].
  pose proof (copy_loop_plain (0 + length (flat_map replacement data)) data
                [] rest [] Hd ltac:(simpl; lia)) as H2.
  cbn [app length] in H2. rewrite H2. cbn [bind].
  rewrite Nat.eqb_refl. reflexivity.
Qed.

Lemma C1_ascii_block_substituted_witness :
  Forall Simple.plain [72; 105; 33] /\
  Simple.block ([72; 105; 33] ++ [0]) 3 = Ok [0x48; 0xc4; 0xb1; 33].
Proof.
  split.
  - repeat constructor; unfold plain; lia.
  - apply (C1_ascii_block_substituted [72; 105; 33] [0]).
    repeat constructor; unfold plain; lia.
Defined.

(** C1 as stated fails for a block with a byte from 0xC0 on: the byte
    0xC3 is followed in the output by a copy of the byte behind it, so
    that the two input bytes give five output bytes, not the four of
    their declared lengths. *)
Lemma C1_counterexample :
  Simple.simple_cat [ReadOk [0xC3; 65]] [0; 0] [] =
    ([[0xC3; 65; 0xe2; 0x88; 0x80]], Simple.Returned true) /\
  flat_map Simple.replacement [0xC3; 65] = [0xC3; 0xe2; 0x88; 0x80] /\
  foldr Nat.add 0%nat (map Simple.declared_length [0xC3; 65]) = 4%nat.
Proof. repeat split. Qed.

(** The first loop stops at a stray byte. *)
Lemma count_loop_stray data : forall pre rest uclen,
  Exists stray data ->
  count_loop (pre ++ data ++ rest) (length data) (length pre) uclen =
  Stop UnexpectedUtf8.
Proof.
  induction data as [|c data IH]; intros pre rest uclen Hd.
  - inversion Hd.
  - cbn [length count_loop app].
    rewrite select_pointed. cbn [bind].
    assert (Hsize : char_size (pointed c (data ++ rest)) = Stop UnexpectedUtf8
                    \/ (exists n, char_size (pointed c (data ++ rest)) = Ok n)
                       /\ ~ stray c).
    { set (check := fun c =>
        if (0x80 <=? c) && (c <=? 0xBF) || (0xF8 <=? c) && (c <=? 0xFF)
        then match char_size (pointed c []) with
             | Stop UnexpectedUtf8 => negb (is_upper c || is_lower c)
             | _ => false
             end
        else match char_size (pointed c []) with
             | Ok _ => true
             | Stop _ => false
             end).
      destruct (decide (0 <= c < 256)) as [Hb|Hb].
      - assert (Hall : check c = true)
          by (apply byte_cases; [vm_compute; reflexivity|assumption]).
        subst check. cbv beta in Hall.
        assert (Heq : char_size (pointed c (data ++ rest))
                      = char_size (pointed c [])).
        { unfold pointed. destruct (is_upper c), (is_lower c); reflexivity. }
        rewrite Heq.
        destruct ((0x80 <=? c) && (c <=? 0xBF) || (0xF8 <=? c) && (c <=? 0xFF))
          eqn:Hs.
        + destruct (char_size (pointed c [])) as [n|[]]; try discriminate.
          left; reflexivity.
        + destruct (char_size (pointed c [])) as [n|]; try discriminate.
          right. split; [eauto|]. unfold stray. lia.
      - assert (Hn : is_upper c = false /\ is_lower c = false)
          by (unfold is_upper, is_lower; lia).
        destruct Hn as [Hu Hl]. unfold pointed. rewrite Hu, Hl.
        cbn [char_size].
        repeat match goal with |- context [if ?b then _ else _] =>
          destruct b end; try (left; reflexivity);
        (right; split; [eauto|unfold stray; lia]). }
    destruct Hsize as [->|[[n ->] Hns]]; [reflexivity|].
    cbn [bind].
    apply Exists_cons in Hd as [Hc|Hd]; [contradiction|].
    replace (pre ++ c :: data ++ rest) with ((pre ++ [c]) ++ data ++ rest)
      by (rewrite <- app_assoc; reflexivity).
    replace (S (length pre)) with (length (pre ++ [c]))
      by (rewrite length_app; simpl; lia).
    apply IH. assumption.
Qed.

(** C9: a block that holds a stray byte, one of 0x80-0xBF or 0xF8-0xFF,
    stops the process with the UTF-8 diagnostic; nothing is written for
    that block, and the earlier writes are all there is. *)
Theorem C9_stray_byte_is_fatal (data : list Z) (later : list read_result)
    (buf : list Z) (written : list (list Z)) :
  Exists Simple.stray data ->
  Simple.simple_cat (ReadOk data :: later) buf written =
    (written, Simple.Stopped UnexpectedUtf8).
Proof.
  intros Hd. destruct data as [|c data]; [inversion Hd|].
  cbn [simple_cat]. unfold block.
  set (d := c :: data) in *.
  pose proof (count_loop_stray d [] (drop (length d) buf) 0 Hd) as H1.
  cbn [app length] in H1. cbn [length]. rewrite H1.
  reflexivity.
Qed.

Lemma C9_stray_byte_is_fatal_witness :
  Exists Simple.stray [97; 0x80] /\
  Simple.simple_cat [ReadOk [65]; ReadOk [97; 0x80]; ReadOk [98]] [0; 0] [] =
    ([[0xe2; 0x88; 0x80]], Simple.Stopped UnexpectedUtf8).
Proof.
  split.
  - apply Exists_cons_tl, Exists_cons_hd. unfold stray. lia.
  - change (Simple.simple_cat [ReadOk [65]; ReadOk [97; 0x80]; ReadOk [98]]
              [0; 0] [])
      with (Simple.simple_cat [ReadOk [97; 0x80]; ReadOk [98]] [65; 0]
              ([] ++ [[0xe2; 0x88; 0x80]])).
    apply (C9_stray_byte_is_fatal [97; 0x80] [ReadOk [98]] [65; 0]).
    apply Exists_cons_tl, Exists_cons_hd. unfold stray. lia.
Defined.

End SimpleFacts.

(** ** The annotated line engine *)

Section EngineExamples.

Import Engine.

(** C2 fails on the code.  With only [show_ends] set, a carriage return
    that is the last byte of a read is shown as a caret and an M
    whatever follows it in the next read, because the byte under
    [bpin] is then the sentinel newline: the bytes a, CR, b give four
    output bytes when read as a, CR and then b, and the same three
    bytes when read at once. *)
Theorem C2_chunk_boundary_after_cr :
  let o := {| show_nonprinting := false; show_tabs := false; number := false;
              number_nonblank := false; show_ends := true;
              squeeze_blank := false |} in
  output (cat (outbuf_size 4 4) 4 o [got [97; 13]; got [98]] 0 initial)
    = Some [97; 94; 77; 98] /\
  output (cat (outbuf_size 4 4) 4 o [got [97; 13; 98]] 0 initial)
    = Some [97; 13; 98].
Proof. split; reflexivity. Qed.

(** C3 fails on the code once line numbers have eleven digits.  With
    [number] and [show_nonprinting] set and both sizes 16, the counter
    stands at 9999999999.  The first read gives a, b and a newline:
    with the number that is 15 bytes, one less than [outsize].  The
    [ioctl] announces more input, so nothing is written before the
    second read, which gives a newline and fifteen bytes 0x80.  The
    empty line takes a number and its newline, the line after it takes
    a number, and its bytes take four places each: 15 + 13 + 12 + 60
    is one more than the 99 bytes of the buffer. *)
Theorem C3_output_buffer_overrun :
  let o := {| show_nonprinting := true; show_tabs := false; number := true;
              number_nonblank := false; show_ends := false;
              squeeze_blank := false |} in
  outbuf_size 16 16 = 99%nat /\
  cat (outbuf_size 16 16) 16 o
    [ {| ev_ioctl := Available 3; ev_read := ReadOk [97; 98; 10] |};
      {| ev_ioctl := Available 16;
         ev_read := ReadOk (10 :: replicate 15 128) |} ]
    0 (after (Z.to_nat (10 ^ 10 - 1)) initial)
  = Halt OutOfBounds.
Proof.
  split; [reflexivity|].
  rewrite initial_showing, after_showing by (rewrite ?Z2Nat.id; lia).
  rewrite Z2Nat.id by lia. vm_compute. reflexivity.
Qed.

(** C10 fails on the code where the input ends in a carriage return.
    With only [show_ends] set, the bytes b and CR, which no newline
    follows, are written as b, caret and M: behind the last byte of the
    read the test for a newline finds the sentinel, as in C2.  Where a
    byte of the input follows it in the same read, such a carriage
    return is written as it is. *)
Theorem C10_final_carriage_return :
  let o := {| show_nonprinting := false; show_tabs := false; number := false;
              number_nonblank := false; show_ends := true;
              squeeze_blank := false |} in
  output (cat (outbuf_size 4 4) 4 o [got [98; 13]] 0 initial)
    = Some [98; 94; 77] /\
  output (cat (outbuf_size 4 4) 4 o [got [98; 13; 99]] 0 initial)
    = Some [98; 13; 99].
Proof. split; reflexivity. Qed.

End EngineExamples.

(** Stores one after the other against stores in a row: the tests on
    the room left are decided one by one. *)
Ltac stores :=
  unfold Engine.put, Engine.puts; cbn [bind];
  repeat (match goal with
          | |- context [Nat.ltb ?a ?b] => destruct (Nat.ltb_spec a b)
          | |- context [Nat.leb ?a ?b] => destruct (Nat.leb_spec a b)
          end;
          cbn [bind]; rewrite ?length_app in *; cbn [length] in *);
  try lia; rewrite <- ?app_assoc; try reflexivity.

Section EngineFacts.

Import Engine.

Variable outbuf_len : nat.
Variable outsize : nat.
Variable o : options.

Local Abbreviation put := (put outbuf_len).
Local Abbreviation puts := (puts outbuf_len).
Local Abbreviation numbers_fit := (numbers_fit o).

Lemma puts_bind {A} l1 l2 b (k : list Z -> result A) :
  bind (puts l1 b) (fun b1 => bind (puts l2 b1) k) = bind (puts (l1 ++ l2) b) k.
Proof.
  unfold Engine.puts. rewrite length_app.
  destruct (Nat.leb_spec (length b + length l1) outbuf_len); cbn [bind].
  - rewrite length_app, app_assoc.
    destruct (Nat.leb_spec (length b + length l1 + length l2) outbuf_len);
      destruct (Nat.leb_spec (length b + (length l1 + length l2)) outbuf_len);
      lia || reflexivity.
  - destruct (Nat.leb_spec (length b + (length l1 + length l2)) outbuf_len);
      lia || reflexivity.
Qed.

Lemma puts_ok l b :
  (length b + length l <= outbuf_len)%nat -> puts l b = Ok (b ++ l).
Proof.
  intros H. unfold Engine.puts.
  destruct (Nat.leb_spec (length b + length l) outbuf_len); [reflexivity|lia].
Qed.

(** One turn of either scanning loop stores the text of its byte. *)
Lemma quote_step_text ch b :
  ch <> 10 ->
  quote_step outbuf_len o ch b =
  bind (puts (quote_text o ch) b) (fun b' => Ok (Some b')).
Proof.
  intros Hch. unfold quote_step, quote_text.
  repeat match goal with
  | |- context [if ?c then _ else _] => destruct c eqn:?
  end; try lia; stores.
Qed.

Lemma plain_step_text ch bpin b :
  ch <> 10 ->
  plain_step outbuf_len o ch bpin b =
  bind (puts (plain_text o ch (default 0 (head bpin))) b)
       (fun b' => Ok (Some b')).
Proof.
  intros Hch. unfold plain_step, plain_text.
  destruct (Z.eqb_spec ch 10); [contradiction|]. cbn [negb].
  repeat match goal with
  | |- context [if ?c then _ else _] => destruct c eqn:?
  end; stores.
Qed.

Lemma bind_assoc {A B C} (r : result A) (f : A -> result B)
    (g : B -> result C) :
  bind (bind r f) g = bind r (fun a => bind (f a) g).
Proof. destruct r; reflexivity. Qed.

Lemma bind_ext {A B} (r : result A) (f g : A -> result B) :
  (forall a, f a = g a) -> bind r f = bind r g.
Proof. intros H. destruct r; simpl; auto. Qed.

Lemma scan_quoted_newline bpin b :
  scan_quoted outbuf_len o bpin 10 b = Ok (bpin, b).
Proof. destruct bpin; reflexivity. Qed.

Lemma scan_plain_newline bpin b :
  scan_plain outbuf_len o bpin 10 b = Ok (bpin, b).
Proof.
  destruct bpin; cbn [scan_plain]; unfold plain_step;
    change (10 =? 9) with false; change (10 =? 10) with true; reflexivity.
Qed.

(** A scanning loop run on a line: every byte up to the newline is
    turned into its text, and [bpin] ends behind the newline. *)
Lemma scan_quoted_line line : forall ch rest b,
  show_nonprinting o = true -> ch <> 10 -> Forall (fun c => c <> 10) line ->
  scan_quoted outbuf_len o (line ++ 10 :: rest) ch b =
  bind (puts (line_text o (ch :: line)) b) (fun b' => Ok (rest, b')).
Proof.
  induction line as [|c line IH]; intros ch rest b Hv Hch Hl.
  - cbn [app scan_quoted line_text]. rewrite Hv, app_nil_r.
    rewrite quote_step_text, bind_assoc by assumption.
    apply bind_ext. intros b'. cbn [bind]. apply scan_quoted_newline.
  - apply Forall_cons in Hl as [Hc Hl].
    cbn [app scan_quoted].
    rewrite quote_step_text, bind_assoc by assumption. cbn [bind].
    erewrite bind_ext by (intros b'; apply IH; assumption).
    rewrite puts_bind. cbn [line_text]. rewrite Hv. reflexivity.
Qed.

Lemma scan_plain_line line : forall ch rest b,
  show_nonprinting o = false -> ch <> 10 -> Forall (fun c => c <> 10) line ->
  scan_plain outbuf_len o (line ++ 10 :: rest) ch b =
  bind (puts (line_text o (ch :: line)) b) (fun b' => Ok (rest, b')).
Proof.
  induction line as [|c line IH]; intros ch rest b Hv Hch Hl.
  - cbn [app scan_plain line_text]. rewrite Hv, app_nil_r.
    rewrite plain_step_text, bind_assoc by assumption.
    apply bind_ext. intros b'. cbn [bind]. apply scan_plain_newline.
  - apply Forall_cons in Hl as [Hc Hl].
    cbn [app scan_plain].
    rewrite plain_step_text, bind_assoc by assumption. cbn [bind].
    erewrite bind_ext by (intros b'; apply IH; assumption).
    rewrite puts_bind. cbn [line_text]. rewrite Hv. reflexivity.
Qed.

Lemma scan_line line ch rest b :
  ch <> 10 -> Forall (fun c => c <> 10) line ->
  (if show_nonprinting o
   then scan_quoted outbuf_len o (line ++ 10 :: rest) ch b
   else scan_plain outbuf_len o (line ++ 10 :: rest) ch b) =
  bind (puts (line_text o (ch :: line)) b) (fun b' => Ok (rest, b')).
Proof.
  intros. destruct (show_nonprinting o) eqn:Hv;
    auto using scan_quoted_line, scan_plain_line.
Qed.

(** A byte takes at least one place and at most four. *)
Lemma line_text_length line :
  (length line <= length (line_text o line) <= 4 * length line)%nat.
Proof.
  induction line as [|c line IH]; [simpl; lia|].
  cbn [line_text length]. rewrite length_app.
  assert (1 <= length (if show_nonprinting o then quote_text o c
                       else plain_text o c (hd 10%Z line)) <= 4)%nat.
  { unfold quote_text, plain_text.
    repeat match goal with
    | |- context [if ?c then _ else _] => destruct c
    end; simpl; lia. }
  lia.
Qed.

(** *** The flush *)

Lemma write_blocks_blocks : forall fuel wp out,
  (1 <= outsize)%nat -> (length wp < fuel)%nat -> (outsize <= length wp)%nat ->
  exists blocks rest,
    write_blocks outsize fuel wp out = Ok (rest, out ++ blocks) /\
    concat blocks ++ rest = wp /\
    Forall (fun blk => length blk = outsize) blocks /\
    blocks <> [] /\ (length rest < outsize)%nat.
Proof.
  induction fuel as [|fuel IH]; intros wp out Hpos Hfuel Hfull; [lia|].
  cbn [write_blocks].
  assert (Htake : length (take outsize wp) = outsize)
    by (rewrite length_take; lia).
  destruct (Nat.leb_spec outsize (length (drop outsize wp))) as [Hmore|Hless].
  - destruct (IH (drop outsize wp) (out ++ [take outsize wp]))
      as (blocks & rest & Heq & Hcat & Hall & _ & Hrest);
      [assumption|rewrite length_drop; lia|assumption|].
    exists (take outsize wp :: blocks), rest. repeat split.
    + rewrite Heq, <- app_assoc. reflexivity.
    + cbn [concat]. rewrite <- app_assoc, Hcat. apply take_drop.
    + constructor; assumption.
    + discriminate.
    + assumption.
  - exists [take outsize wp], (drop outsize wp). repeat split.
    + cbn [concat]. rewrite app_nil_r. apply take_drop.
    + constructor; [assumption|constructor].
    + discriminate.
    + assumption.
Qed.

(** C3, second half: when the filled part has reached [outsize], the
    flush writes blocks of [outsize] bytes each, at least one, and
    keeps what is left, fewer than [outsize] bytes, as the new filled
    part. *)
Lemma flush_full s :
  (1 <= outsize)%nat -> (outsize <= length (bpout s))%nat ->
  exists blocks rest,
    flush outsize s =
      Ok {| newlines := newlines s; counter := counter s; bpout := rest;
            written := written s ++ blocks;
            use_fionread := use_fionread s |} /\
    concat blocks ++ rest = bpout s /\
    Forall (fun blk => length blk = outsize) blocks /\
    blocks <> [] /\ (length rest < outsize)%nat.
Proof.
  intros Hpos Hfull. unfold flush.
  destruct (Nat.leb_spec outsize (length (bpout s))); [|lia].
  destruct (write_blocks_blocks (S (length (bpout s))) (bpout s) (written s))
    as (blocks & rest & Heq & Hrest); [lia..|].
  exists blocks, rest. rewrite Heq. cbn [bind]. auto.
Qed.

(** In all cases the flush keeps the bytes produced and leaves fewer
    than [outsize] in the buffer. *)
Lemma flush_total s :
  (1 <= outsize)%nat ->
  exists s',
    flush outsize s = Ok s' /\ total s' = total s /\
    (length (bpout s') < outsize)%nat /\
    newlines s' = newlines s /\ counter s' = counter s /\
    use_fionread s' = use_fionread s.
Proof.
  intros Hpos.
  destruct (Nat.leb_spec outsize (length (bpout s))) as [Hfull|Hroom].
  - destruct (flush_full s Hpos Hfull)
      as (blocks & rest & -> & Hcat & _ & _ & Hrest).
    eexists. split; [reflexivity|]. unfold total. cbn.
    rewrite concat_app, <- app_assoc, Hcat. repeat split. assumption.
  - exists s. unfold flush.
    destruct (Nat.leb_spec outsize (length (bpout s))); [lia|].
    repeat split. assumption.
Qed.

Lemma write_pending_total s :
  total (write_pending s) = total s /\
  (length (bpout (write_pending s)) <= length (bpout s))%nat /\
  newlines (write_pending s) = newlines s /\
  counter (write_pending s) = counter s /\
  use_fionread (write_pending s) = use_fionread s.
Proof.
  unfold write_pending, total.
  destruct (0 <? length (bpout s))%nat; cbn; [|auto].
  rewrite concat_app. cbn. rewrite !app_nil_r. repeat split. lia.
Qed.

(** *** Line numbers and ends of lines *)

Lemma after_next k c : after k (next_line_num c) = after (S k) c.
Proof. induction k as [|k IH]; [reflexivity|]. cbn [after]. rewrite IH. reflexivity. Qed.

Lemma numbers_fit_le c m m' :
  numbers_fit c m -> (m' <= m)%nat -> numbers_fit c m'.
Proof. intros H Hm Hn k Hk. apply (H Hn). lia. Qed.

Lemma numbers_fit_next c m :
  numbers_fit c m -> numbers_fit (next_line_num c) (m - 1).
Proof.
  intros H Hn k Hk. rewrite after_next. apply (H Hn). lia.
Qed.

Lemma numbers_fit_now c m :
  numbers_fit c m -> (1 <= m)%nat -> number o = true ->
  (length (rendered (next_line_num c)) <= 11)%nat.
Proof. intros H Hm Hn. apply (H Hn 1%nat). lia. Qed.

Lemma number_line_ok s :
  (length (bpout s) + length (rendered (next_line_num (counter s)))
   < outbuf_len)%nat ->
  number_line outbuf_len s =
  Ok {| newlines := newlines s; counter := next_line_num (counter s);
        bpout := bpout s ++ rendered (next_line_num (counter s));
        written := written s; use_fionread := use_fionread s |}.
Proof.
  intros H. unfold number_line, stpcpy.
  fold (rendered (next_line_num (counter s))).
  destruct (Nat.ltb_spec
    (length (bpout s) + length (rendered (next_line_num (counter s))))
    outbuf_len); [reflexivity|lia].
Qed.

Lemma end_mark_length : (1 <= length (end_mark o) <= 2)%nat.
Proof. unfold end_mark. destruct (show_ends o); simpl; lia. Qed.

Lemma put_newline_ok s :
  (length (bpout s) + length (end_mark o) <= outbuf_len)%nat ->
  put_newline outbuf_len o s = Ok (set_bpout (bpout s ++ end_mark o) s).
Proof.
  unfold put_newline, end_mark. intros H.
  destruct (show_ends o); cbn [app length] in *; stores.
Qed.

Lemma end_of_line_ok s t nl' c' :
  eol_text o (newlines s) (counter s) = (t, nl', c') ->
  (length (bpout s) + length t <= outbuf_len)%nat ->
  end_of_line outbuf_len o s =
  Ok {| newlines := nl'; counter := c'; bpout := bpout s ++ t;
        written := written s; use_fionread := use_fionread s |}.
Proof.
  unfold eol_text, end_of_line. intros Ht Hroom.
  pose proof end_mark_length as Hm.
  destruct (0 <? newlines s + 1).
  - destruct ((2 <=? newlines s + 1) && squeeze_blank o).
    + injection Ht as <- <- <-. rewrite app_nil_r. reflexivity.
    + destruct (number o && negb (number_nonblank o)).
      * injection Ht as <- <- <-. rewrite length_app in Hroom.
        change (counter (set_newlines ?n s)) with (counter s).
        rewrite number_line_ok by (cbn; lia). cbn [bind].
        rewrite put_newline_ok by (cbn; rewrite length_app; lia).
        cbn. rewrite <- app_assoc. reflexivity.
      * injection Ht as <- <- <-. cbn [bind].
        rewrite put_newline_ok by (cbn; lia). reflexivity.
  - injection Ht as <- <- <-.
    rewrite put_newline_ok by (cbn; lia). reflexivity.
Qed.

Lemma eol_text_bound nl c m t nl' c' :
  eol_text o nl c = (t, nl', c') ->
  numbers_fit c (eol_calls o nl + m) ->
  (length t <= 13)%nat /\ numbers_fit c' m.
Proof.
  unfold eol_text, eol_calls. intros Ht Hfit.
  pose proof end_mark_length as Hmk.
  destruct (0 <? nl + 1); cbn [andb] in Hfit.
  - destruct ((2 <=? nl + 1) && squeeze_blank o); cbn [andb negb] in Hfit.
    + injection Ht as <- <- <-. split; [simpl; lia|assumption].
    + destruct (number o && negb (number_nonblank o)) eqn:Hn.
      * injection Ht as <- <- <-. apply andb_prop in Hn as [Hn Hb].
        pose proof (numbers_fit_now c _ Hfit ltac:(lia) Hn).
        rewrite length_app. split; [lia|].
        apply (numbers_fit_le _ (1 + m - 1)); [|lia].
        apply numbers_fit_next; assumption.
      * injection Ht as <- <- <-. split; [lia|assumption].
  - injection Ht as <- <- <-. split; [lia|assumption].
Qed.

Lemma eol_text_nonneg nl c t nl' c' :
  eol_text o nl c = (t, nl', c') -> -1 <= nl -> 0 <= nl'.
Proof.
  unfold eol_text. intros Ht Hnl.
  destruct (Z.ltb_spec 0 (nl + 1)).
  - destruct (Z.leb_spec 2 (nl + 1)); cbn [andb] in Ht.
    + destruct (squeeze_blank o); [injection Ht as <- <- <-; lia|].
      destruct (number o && negb (number_nonblank o));
        injection Ht as <- <- <-; lia.
    + destruct (number o && negb (number_nonblank o));
        injection Ht as <- <- <-; lia.
  - injection Ht as <- <- <-. lia.
Qed.

(** *** A line, from its first byte to its newline *)

Lemma fetched_line again l rest s t nl' c' :
  unbroken l ->
  body_text o l (newlines s) (counter s) = (t, nl', c') ->
  (length (bpout s) + length t <= outbuf_len)%nat ->
  fetched outbuf_len o again (l ++ 10 :: rest) s =
  again rest {| newlines := nl'; counter := c'; bpout := bpout s ++ t;
                written := written s; use_fionread := use_fionread s |}.
Proof.
  intros Hl Ht Hroom. destruct l as [|ch l].
  - cbn in Ht. injection Ht as <- <- <-. cbn. rewrite app_nil_r.
    destruct s; reflexivity.
  - apply Forall_cons in Hl as [Hch Hl].
    cbn [app fetched]. destruct (Z.eqb_spec ch 10); [contradiction|].
    unfold body_text in Ht.
    pose proof (line_text_length (ch :: l)) as Hlen. cbn [length] in Hlen.
    set (text := line_text o (ch :: l)) in *.
    destruct ((0 <=? newlines s) && number o).
    + injection Ht as <- <- <-. rewrite length_app in Hroom.
      rewrite number_line_ok by lia. cbn [bind bpout].
      rewrite scan_line by assumption. fold text.
      rewrite puts_ok by (rewrite length_app; lia). cbn [bind].
      rewrite <- app_assoc. reflexivity.
    + injection Ht as <- <- <-. cbn [bind].
      rewrite scan_line by assumption. fold text.
      rewrite puts_ok by lia. cbn [bind]. reflexivity.
Qed.

Lemma body_text_bound l nl c m t nl' c' :
  body_text o l nl c = (t, nl', c') ->
  numbers_fit c (body_calls o l nl + m) ->
  (length t <= 11 + 4 * length l)%nat /\ numbers_fit c' m.
Proof.
  intros Ht Hfit. destruct l as [|ch l].
  - cbn in Ht. injection Ht as <- <- <-. split; [simpl; lia|assumption].
  - unfold body_text in Ht. unfold body_calls in Hfit.
    pose proof (line_text_length (ch :: l)) as Hlen.
    set (text := line_text o (ch :: l)) in *.
    destruct ((0 <=? nl) && number o) eqn:Hn.
    + injection Ht as <- <- <-. apply andb_prop in Hn as [_ Hn].
      pose proof (numbers_fit_now c _ Hfit ltac:(lia) Hn).
      rewrite length_app. split; [lia|].
      apply (numbers_fit_le _ (1 + m - 1)); [|lia].
      apply numbers_fit_next; assumption.
    + injection Ht as <- <- <-. split; [lia|assumption].
Qed.

(** *** The lines of one read *)

Lemma lines_unfold fuel bpin s :
  bpin <> [] ->
  lines outbuf_len outsize o (S fuel) bpin s =
  bind (flush outsize s) (fun s1 =>
  bind (end_of_line outbuf_len o s1)
       (fetched outbuf_len o (lines outbuf_len outsize o fuel) bpin)).
Proof. destruct bpin; [congruence|reflexivity]. Qed.

Lemma with_newlines_cons l ls :
  with_newlines (l :: ls) = l ++ 10 :: with_newlines ls.
Proof. unfold with_newlines. cbn [flat_map]. rewrite <- app_assoc. reflexivity. Qed.

Lemma split_lines_cons data : exists l ls, split_lines data = l :: ls.
Proof.
  destruct data as [|ch data]; cbn [split_lines]; [eauto|].
  destruct (ch =? 10); [eauto|]. destruct (split_lines data); eauto.
Qed.

Lemma split_lines_newlines data :
  with_newlines (split_lines data) = data ++ [10].
Proof.
  induction data as [|ch data IH]; [reflexivity|].
  cbn [split_lines]. destruct (Z.eqb_spec ch 10) as [->|Hch].
  - rewrite with_newlines_cons, IH. reflexivity.
  - destruct (split_lines_cons data) as (l & ls & Hs). rewrite Hs in *.
    rewrite with_newlines_cons in *. cbn [app]. rewrite IH. reflexivity.
Qed.

Lemma split_lines_unbroken data : Forall unbroken (split_lines data).
Proof.
  induction data as [|ch data IH]; cbn [split_lines].
  - repeat constructor.
  - destruct (Z.eqb_spec ch 10) as [->|Hch].
    + constructor; [constructor|assumption].
    + destruct (split_lines data) as [|l ls].
      * repeat constructor. assumption.
      * apply Forall_cons in IH as [Hl Hls].
        constructor; [constructor; assumption|assumption].
Qed.

(** What is left of the numbers that fit after a stretch. *)
Lemma lines_text_fit ls : forall nl c m t nl' c',
  lines_text o ls nl c = (t, nl', c') ->
  numbers_fit c (lines_calls o ls nl c + m) ->
  numbers_fit c' m.
Proof.
  induction ls as [|l ls IH]; intros nl c m t nl' c' Ht Hfit.
  - cbn in Ht. injection Ht as <- <- <-. exact Hfit.
  - cbn [lines_text lines_calls] in Ht, Hfit.
    destruct (eol_text o nl c) as [[t1 nl1] c1] eqn:He.
    destruct (body_text o l nl1 c1) as [[t2 nl2] c2] eqn:Hbody.
    destruct (lines_text o ls nl2 c2) as [[t3 nl3] c3] eqn:Hrest.
    injection Ht as <- <- <-.
    rewrite <- !Nat.add_assoc in Hfit.
    destruct (eol_text_bound _ _ _ _ _ _ He Hfit) as [_ Hfit1].
    destruct (body_text_bound _ _ _ _ _ _ _ Hbody Hfit1) as [_ Hfit2].
    apply (IH _ _ _ _ _ _ Hrest Hfit2).
Qed.

Lemma chunk_text_fit data nl c m t nl' c' :
  chunk_text o data nl c = (t, nl', c') ->
  numbers_fit c (chunk_calls o data nl c + m) ->
  numbers_fit c' m.
Proof.
  unfold chunk_text, chunk_calls. intros Ht Hfit.
  destruct (split_lines_cons data) as (l & ls & Hs). rewrite Hs in *.
  destruct (body_text o l nl c) as [[t2 nl2] c2] eqn:Hbody.
  destruct (lines_text o ls nl2 c2) as [[t3 nl3] c3] eqn:Hrest.
  injection Ht as <- <- <-.
  rewrite <- !Nat.add_assoc in Hfit.
  destruct (body_text_bound _ _ _ _ _ _ _ Hbody Hfit) as [_ Hfit2].
  apply (lines_text_fit _ _ _ _ _ _ _ Hrest Hfit2).
Qed.

Section Sized.

(** The buffer holds what [main] asks for, for reads of [insize]
    bytes at most. *)
Variable insize : nat.
Hypothesis outsize_pos : (1 <= outsize)%nat.
Hypothesis outbuf_room : (outsize + 4 * insize + 19 <= outbuf_len)%nat.

(** From the top of the do-while, behind a real newline, to the end
    of the input buffer: no store leaves the output buffer, and the
    bytes produced are those of [lines_text]. *)
Lemma lines_ok ls : forall fuel s t nl' c',
  Forall unbroken ls ->
  (length (with_newlines ls) < fuel)%nat ->
  (length (with_newlines ls) <= insize)%nat ->
  numbers_fit (counter s) (lines_calls o ls (newlines s) (counter s)) ->
  lines_text o ls (newlines s) (counter s) = (t, nl', c') ->
  exists s',
    lines outbuf_len outsize o fuel (with_newlines ls) s = Ok s' /\
    total s' = total s ++ t /\ newlines s' = nl' /\ counter s' = c' /\
    (length (bpout s') < outsize)%nat /\
    use_fionread s' = use_fionread s.
Proof.
  induction ls as [|l ls IH]; intros fuel s t nl' c' Hls Hfuel Hin Hfit Ht.
  - destruct fuel as [|fuel]; [simpl in Hfuel; lia|].
    cbn in Ht. injection Ht as <- <- <-.
    cbn [with_newlines flat_map lines].
    destruct (flush_total s outsize_pos) as (s1 & -> & Htot & Hb & Hn & Hc & Hu).
    cbn [bind]. exists s1. rewrite app_nil_r. repeat split; assumption.
  - destruct fuel as [|fuel]; [lia|].
    apply Forall_cons in Hls as [Hl Hls].
    rewrite with_newlines_cons in *. rewrite length_app in *.
    cbn [length] in *.
    rewrite lines_unfold by (destruct l; discriminate).
    destruct (flush_total s outsize_pos) as (s1 & -> & Htot & Hb & Hn & Hc & Hu).
    cbn [bind]. cbn [lines_text lines_calls] in Ht, Hfit.
    rewrite <- Hn, <- Hc in Ht, Hfit.
    destruct (eol_text o (newlines s1) (counter s1)) as [[t1 nl1] c1] eqn:He.
    destruct (body_text o l nl1 c1) as [[t2 nl2] c2] eqn:Hbody.
    destruct (lines_text o ls nl2 c2) as [[t3 nl3] c3] eqn:Hrest.
    injection Ht as <- <- <-.
    destruct (eol_text_bound _ _ _ _ _ _ He Hfit) as [Ht1 Hfit1].
    destruct (body_text_bound _ _ _ _ _ _ _ Hbody Hfit1) as [Ht2 Hfit2].
    rewrite (end_of_line_ok s1 t1 nl1 c1 He) by lia. cbn [bind].
    erewrite fetched_line; [|assumption|cbn; eassumption|cbn; rewrite length_app; lia].
    cbn [bpout written use_fionread].
    edestruct (IH fuel) as (s' & -> & Htot' & Hn' & Hc' & Hb' & Hu');
      [exact Hls|lia|lia|cbn; exact Hfit2|cbn; exact Hrest|].
    exists s'. split; [reflexivity|]. cbn in Hu'.
    rewrite Htot'. unfold total in Htot |- *. cbn.
    rewrite <- Htot. rewrite <- !app_assoc.
    repeat split; try assumption; congruence.
Qed.

(** One read: the same from the fetch of its first byte. *)
Lemma chunk_ok data s t nl' c' :
  (length data <= insize)%nat ->
  (length (bpout s) < outsize)%nat ->
  numbers_fit (counter s) (chunk_calls o data (newlines s) (counter s)) ->
  chunk_text o data (newlines s) (counter s) = (t, nl', c') ->
  exists s',
    chunk outbuf_len outsize o data s = Ok s' /\
    total s' = total s ++ t /\ newlines s' = nl' /\ counter s' = c' /\
    (length (bpout s') < outsize)%nat /\
    use_fionread s' = use_fionread s.
Proof.
  intros Hin Hb Hfit Ht. unfold chunk, chunk_text, chunk_calls in *.
  pose proof (split_lines_newlines data) as Hsplit.
  pose proof (split_lines_unbroken data) as Hunb.
  destruct (split_lines_cons data) as (l & ls & Hs). rewrite Hs in *.
  apply Forall_cons in Hunb as [Hl Hls].
  rewrite with_newlines_cons in Hsplit.
  assert (Hlen : (length l + S (length (with_newlines ls)) = S (length data))%nat).
  { apply (f_equal length) in Hsplit. rewrite !length_app in Hsplit.
    cbn [length] in Hsplit. lia. }
  destruct (body_text o l (newlines s) (counter s)) as [[t2 nl2] c2] eqn:Hbody.
  destruct (lines_text o ls nl2 c2) as [[t3 nl3] c3] eqn:Hrest.
  injection Ht as <- <- <-.
  destruct (body_text_bound _ _ _ _ _ _ _ Hbody Hfit) as [Ht2 Hfit2].
  rewrite <- Hsplit.
  erewrite fetched_line; [|assumption|eassumption|lia].
  edestruct (lines_ok ls (length (l ++ 10 :: with_newlines ls)))
    as (s' & -> & Htot' & Hn' & Hc' & Hb' & Hu');
    [exact Hls|rewrite length_app; cbn [length]; lia|lia
    |cbn; exact Hfit2|cbn; exact Hrest|].
  exists s'. split; [reflexivity|]. cbn in Hu'.
  rewrite Htot'. unfold total. cbn. rewrite <- !app_assoc.
  repeat split; try assumption; congruence.
Qed.

Lemma write_pending_concat s :
  concat (written (write_pending s)) = total s.
Proof.
  unfold write_pending, total. destruct s as [nl c [|x b] w u]; cbn.
  - rewrite app_nil_r. reflexivity.
  - rewrite concat_app. cbn. rewrite !app_nil_r. reflexivity.
Qed.

(** A pass that brings bytes: whatever the [ioctl] answers, the state
    goes into the read with the same bytes produced and no more of
    them in the buffer. *)
Lemma reads_good ev script s :
  good_event insize ev ->
  exists s2,
    reads outbuf_len outsize o (ev :: script) s =
      match chunk outbuf_len outsize o (event_data ev) s2 with
      | Ok s3 => reads outbuf_len outsize o script s3
      | Stop f => Halt f
      end /\
    total s2 = total s /\ newlines s2 = newlines s /\
    counter s2 = counter s /\
    (length (bpout s2) <= length (bpout s))%nat /\
    (length (event_data ev) <= insize)%nat.
Proof.
  intros [Hio (data & Hrd & Hne & Hlen)].
  destruct ev as [io rd]. cbn in Hio, Hrd. subst rd.
  unfold event_data. cbn [ev_read ev_ioctl].
  destruct data as [|x data]; [congruence|].
  cbn [reads ev_ioctl ev_read].
  set (asked := if use_fionread s then io else Available 0).
  assert (Hasked : asked <> IoctlFailed)
    by (subst asked; destruct (use_fionread s); congruence).
  destruct asked as [n| |] eqn:Ha; [| |congruence].
  - destruct (negb (n =? 0)).
    + exists s. repeat split; auto.
    + exists (write_pending s).
      destruct (write_pending_total s) as (? & ? & ? & ? & ?).
      repeat split; auto.
  - eexists. split; [reflexivity|].
    match goal with |- context [write_pending ?s1] =>
      destruct (write_pending_total s1) as (H1 & H2 & H3 & H4 & H5)
    end.
    rewrite H1, H3, H4. repeat split; auto.
Qed.

(** The reads of a file, when all of them bring bytes: [cat] returns
    with success, having written the bytes of [chunks_text]. *)
Lemma reads_ok script : forall s t nl' c',
  Forall (good_event insize) script ->
  (length (bpout s) < outsize)%nat ->
  numbers_fit (counter s)
    (chunks_calls o (script_data script) (newlines s) (counter s)) ->
  chunks_text o (script_data script) (newlines s) (counter s) = (t, nl', c') ->
  exists out,
    reads outbuf_len outsize o script s = Return true nl' c' out /\
    concat out = total s ++ t.
Proof.
  induction script as [|ev script IH]; intros s t nl' c' Hgood Hb Hfit Ht.
  - cbn in Ht. injection Ht as <- <- <-. cbn [reads]. unfold leave.
    destruct (write_pending_total s) as (_ & _ & -> & -> & _).
    eexists. split; [reflexivity|].
    rewrite write_pending_concat, app_nil_r. reflexivity.
  - apply Forall_cons in Hgood as [Hev Hgood].
    destruct (reads_good ev script s Hev)
      as (s2 & -> & Htot & Hn & Hc & Hb2 & Hlen).
    cbn [script_data map chunks_text chunks_calls] in Ht, Hfit.
    rewrite <- Hn, <- Hc in Ht, Hfit.
    destruct (chunk_text o (event_data ev) (newlines s2) (counter s2))
      as [[t1 nl1] c1] eqn:Hchunk.
    destruct (chunks_text o (map event_data script) nl1 c1)
      as [[t2 nl2] c2] eqn:Hrest.
    injection Ht as <- <- <-.
    destruct (chunk_ok (event_data ev) s2 t1 nl1 c1)
      as (s3 & -> & Htot3 & Hn3 & Hc3 & Hb3 & _);
      [assumption|lia|apply (numbers_fit_le _ _ _ Hfit); lia|assumption|].
    destruct (IH s3 t2 nl2 c2) as (out & -> & Hout);
      [assumption|assumption| |rewrite Hn3, Hc3; exact Hrest|].
    + rewrite Hn3, Hc3. apply (chunk_text_fit _ _ _ _ _ _ _ Hchunk Hfit).
    + exists out. split; [reflexivity|].
      rewrite Hout, Htot3, Htot, <- app_assoc. reflexivity.
Qed.

(** [cat] on a file all of whose reads bring bytes. *)
Lemma cat_ok script nl c t nl' c' :
  Forall (good_event insize) script ->
  numbers_fit c (chunks_calls o (script_data script) nl c) ->
  chunks_text o (script_data script) nl c = (t, nl', c') ->
  exists out,
    cat outbuf_len outsize o script nl c = Return true nl' c' out /\
    concat out = t.
Proof.
  intros Hgood Hfit Ht. unfold cat, flush. cbn [bpout length].
  destruct (Nat.leb_spec outsize 0); [lia|].
  edestruct reads_ok as (out & -> & Hout);
    [exact Hgood| | |cbn; exact Ht|]; [cbn; lia|cbn; exact Hfit|].
  exists out. split; [reflexivity|]. rewrite Hout. reflexivity.
Qed.

End Sized.

End EngineFacts.

(** ** The engine with the buffer of [main] *)

Section EngineTheorems.

Import Engine.

Lemma outbuf_size_room insize outsize :
  (1 <= outsize)%nat ->
  (outsize + 4 * insize + 19 <= outbuf_size insize outsize)%nat.
Proof. unfold outbuf_size, LINE_COUNTER_BUF_LEN. lia. Qed.

(** With the buffer of [main], reads of [insize] bytes at most and
    numbers of ten digits at most, no store leaves the output buffer:
    [cat] returns with success and has written the text of its
    reads. *)
Lemma cat_main insize outsize o script nl c t nl' c' :
  (1 <= outsize)%nat ->
  Forall (good_event insize) script ->
  numbers_fit o c (chunks_calls o (script_data script) nl c) ->
  chunks_text o (script_data script) nl c = (t, nl', c') ->
  exists out,
    cat (outbuf_size insize outsize) outsize o script nl c
      = Return true nl' c' out /\
    concat out = t.
Proof.
  intros Hpos. apply (cat_ok _ _ _ insize Hpos).
  apply outbuf_size_room. assumption.
Qed.

(** The same with the numbers, the count and the counter at the end
    read off [chunks_text]. *)
Lemma cat_main_text insize outsize o script nl c :
  (1 <= outsize)%nat ->
  Forall (good_event insize) script ->
  numbers_fit o c (chunks_calls o (script_data script) nl c) ->
  exists out,
    cat (outbuf_size insize outsize) outsize o script nl c
      = Return true (chunks_text o (script_data script) nl c).1.2
                    (chunks_text o (script_data script) nl c).2 out /\
    concat out = (chunks_text o (script_data script) nl c).1.1.
Proof.
  intros Hpos Hgood Hfit.
  destruct (chunks_text o (script_data script) nl c) as [[t nl'] c'] eqn:Ht.
  apply (cat_main insize outsize o script nl c t nl' c'); assumption.
Qed.

Lemma numbers_fit_unnumbered o c m : number o = false -> numbers_fit o c m.
Proof. intros H Hn. congruence. Qed.

(** *** Runs of empty lines *)

Lemma numbers_fit_initial o m :
  Z.of_nat m < 10 ^ 10 -> numbers_fit o initial m.
Proof.
  intros Hm _. rewrite initial_showing. apply widths_within_showing; lia.
Qed.

Lemma eol_blank o nl c :
  squeeze_blank o = true -> 0 <= nl ->
  eol_text o nl c =
  if nl =? 0 then ((first_blank o c).1, 1, (first_blank o c).2)
  else ([], 2, c).
Proof.
  intros Hs Hnl. unfold eol_text, first_blank. rewrite Hs.
  destruct (Z.ltb_spec 0 (nl + 1)); [|lia].
  destruct (Z.leb_spec 2 (nl + 1)); cbn [andb].
  - destruct (Z.eqb_spec nl 0); [lia|]. reflexivity.
  - destruct (Z.eqb_spec nl 0); [|lia]. subst nl. cbn.
    destruct (number o && negb (number_nonblank o)); reflexivity.
Qed.

Lemma eol_calls_blank o nl :
  squeeze_blank o = true -> 0 <= nl ->
  (eol_calls o nl <= (if (nl =? 0)%Z then 1 else 0))%nat.
Proof.
  intros Hs Hnl. unfold eol_calls. rewrite Hs.
  destruct (Z.eqb_spec nl 0).
  - destruct (_ && _); lia.
  - destruct (Z.leb_spec 2 (nl + 1)); [|lia].
    rewrite andb_true_r. cbn [negb]. rewrite andb_false_r. cbn. lia.
Qed.

Lemma lines_blank o m : forall nl c,
  squeeze_blank o = true -> 0 <= nl ->
  lines_text o (replicate m []) nl c = run_of_blanks o nl m c /\
  (lines_calls o (replicate m []) nl c <= (if (nl =? 0)%Z then 1 else 0))%nat.
Proof.
  unfold run_of_blanks.
  induction m as [|m IH]; intros nl c Hs Hnl.
  - cbn. split; [reflexivity|]. destruct (nl =? 0); lia.
  - cbn [replicate lines_text lines_calls body_text body_calls].
    pose proof (eol_calls_blank o nl Hs Hnl) as Hcalls.
    rewrite eol_blank by assumption.
    change (S m =? 0)%nat with false. cbv iota.
    destruct (Z.eqb_spec nl 0) as [->|Hnz].
    + destruct (IH 1 (first_blank o c).2 Hs ltac:(lia)) as [-> Hc].
      change (1 =? 0) with false in *. cbv iota in *.
      split; [|lia].
      destruct (Nat.eqb_spec m 0) as [Hm|Hm];
        rewrite ?app_nil_r; f_equal; f_equal; lia.
    + destruct (IH 2 c Hs ltac:(lia)) as [-> Hc].
      change (2 =? 0) with false in *. cbv iota in *.
      split; [|lia].
      destruct (m =? 0)%nat; reflexivity.
Qed.

Lemma split_lines_blank j : split_lines (replicate j 10) = replicate (S j) [].
Proof.
  induction j as [|j IH]; [reflexivity|].
  cbn [replicate split_lines]. change (10 =? 10) with true. cbv iota.
  rewrite IH. reflexivity.
Qed.

Lemma run_of_blanks_floor o nl n c :
  0 <= nl -> 0 <= (run_of_blanks o nl n c).1.2.
Proof.
  intros Hnl. unfold run_of_blanks.
  destruct (n =? 0)%nat; [assumption|]. destruct (nl =? 0); cbn; lia.
Qed.

Lemma chunks_blank o chunks : forall nl c,
  squeeze_blank o = true -> 0 <= nl ->
  Forall (fun d => d = replicate (length d) 10) chunks ->
  chunks_text o chunks nl c
    = run_of_blanks o nl (length (concat chunks)) c /\
  (chunks_calls o chunks nl c <= (if (nl =? 0)%Z then 1 else 0))%nat.
Proof.
  induction chunks as [|d chunks IH]; intros nl c Hs Hnl Hall.
  - unfold run_of_blanks. cbn. split; [reflexivity|]. destruct (nl =? 0); lia.
  - apply Forall_cons in Hall as [Hd Hall].
    cbn [chunks_text chunks_calls concat]. rewrite length_app.
    unfold chunk_text, chunk_calls.
    rewrite Hd, split_lines_blank, length_replicate.
    cbn [replicate body_text body_calls].
    destruct (lines_blank o (length d) nl c Hs Hnl) as [-> Hcalls].
    set (j := length d) in *. set (n := length (concat chunks)) in *.
    pose proof (run_of_blanks_floor o nl j c Hnl) as Hnl1.
    destruct (run_of_blanks o nl j c) as [[t1 nl1] c1] eqn:Hrun.
    cbn [fst snd] in Hnl1.
    destruct (IH nl1 c1 Hs Hnl1 Hall) as [-> Hcalls2]. fold n.
    unfold run_of_blanks in *.
    destruct (Nat.eqb_spec j 0) as [Hj|Hj].
    + injection Hrun as <- <- <-. rewrite Hj. cbn [Nat.add app].
      split; [destruct (n =? 0)%nat; [|destruct (nl =? 0)]; reflexivity|].
      cbn [replicate lines_calls]. lia.
    + destruct (Nat.eqb_spec (j + n) 0); [lia|].
      destruct (Z.eqb_spec nl 0) as [->|Hnz].
      * injection Hrun as <- <- <-.
        destruct (Z.eqb_spec (Z.min 2 (Z.of_nat j)) 0); [lia|].
        split; [|lia].
        destruct (Nat.eqb_spec n 0) as [Hn|Hn];
          rewrite ?app_nil_r; f_equal; f_equal; lia.
      * injection Hrun as <- <- <-. change (2 =? 0) with false in *.
        cbv iota in *. split; [|lia].
        destruct (n =? 0)%nat; reflexivity.
Qed.

Lemma concat_replicate {A} (x : A) ls : forall k,
  concat ls = replicate k x ->
  Forall (fun d => d = replicate (length d) x) ls.
Proof.
  induction ls as [|d ls IH]; intros k Hk; [constructor|].
  cbn [concat] in Hk.
  assert (Hlen : (length d <= k)%nat).
  { apply (f_equal length) in Hk.
    rewrite length_app, length_replicate in Hk. lia. }
  constructor.
  - apply (f_equal (take (length d))) in Hk.
    rewrite take_app_length, take_replicate in Hk.
    replace (length d `min` k)%nat with (length d) in Hk by lia. exact Hk.
  - apply (IH (k - length d)%nat).
    apply (f_equal (drop (length d))) in Hk.
    rewrite drop_app_length, drop_replicate in Hk. exact Hk.
Qed.

(** A file of newlines only, with squeezing. *)
Lemma blank_file insize outsize o script nl c :
  (1 <= outsize)%nat -> squeeze_blank o = true -> 0 <= nl ->
  numbers_fit o c 1 ->
  Forall (good_event insize) script ->
  Forall (fun d => d = replicate (length d) 10) (script_data script) ->
  exists out,
    cat (outbuf_size insize outsize) outsize o script nl c
      = Return true (run_of_blanks o nl (script_length script) c).1.2
                    (run_of_blanks o nl (script_length script) c).2 out /\
    concat out = (run_of_blanks o nl (script_length script) c).1.1.
Proof.
  intros Hpos Hs Hnl Hfit Hgood Hall.
  destruct (chunks_blank o (script_data script) nl c Hs Hnl Hall)
    as [Htext Hcalls].
  destruct (cat_main_text insize outsize o script nl c)
    as (out & Hcat & Hout); [assumption|assumption| |].
  { apply (numbers_fit_le _ _ _ _ Hfit). destruct (nl =? 0); lia. }
  rewrite Htext in Hcat, Hout. exists out. split; assumption.
Qed.

(** C4: with [squeeze_blank] set, a file of [k] newlines and nothing
    else, three or more, read in any pieces at the start of the
    process, is written as one empty line: the end marker when
    [show_ends] is set and a newline, behind the number 1 when empty
    lines are numbered.  The same holds when the [k] newlines come in
    two files one after the other, either of which may be empty:
    [newlines2] carries the count of blank lines from the first to the
    second. *)
Theorem C4_blank_run_squeezed insize1 insize2 outsize o :
  (1 <= outsize)%nat -> squeeze_blank o = true ->
  let line :=
    (if number o && negb (number_nonblank o)
     then [32; 32; 32; 32; 32; 49; 9] else [])
    ++ (if show_ends o then [36] else []) ++ [10] in
  (forall k script,
     (3 <= k)%nat -> Forall (good_event insize1) script ->
     concat (script_data script) = replicate k 10 ->
     output (cat (outbuf_size insize1 outsize) outsize o script 0 initial)
     = Some line) /\
  (forall k script1 script2,
     (3 <= k)%nat ->
     Forall (good_event insize1) script1 ->
     Forall (good_event insize2) script2 ->
     concat (script_data script1) ++ concat (script_data script2)
       = replicate k 10 ->
     output (cat_files outsize o [(insize1, script1); (insize2, script2)]
               true 0 initial [])
     = Some line).
Proof.
  intros Hpos Hs line.
  assert (Hline : line = (first_blank o initial).1).
  { subst line. unfold first_blank.
    destruct (number o && negb (number_nonblank o)); reflexivity. }
  assert (Hfit : forall c, c = initial \/ c = (first_blank o initial).2 ->
            numbers_fit o c 1).
  { intros c [->| ->]; [apply numbers_fit_initial; lia|].
    unfold first_blank. destruct (_ && _); cbn [snd].
    - intros _. replace (next_line_num initial) with (showing 1)
        by (vm_compute; reflexivity).
      apply widths_within_showing; lia.
    - apply numbers_fit_initial; lia. }
  rewrite Hline. clear Hline line. split.
  - intros k script Hk Hgood Hdata.
    destruct (blank_file insize1 outsize o script 0 initial)
      as (out & -> & Hout); try assumption; [lia|auto| |].
    { apply (concat_replicate _ _ k). assumption. }
    cbn [output]. rewrite Hout. unfold script_length. rewrite Hdata.
    rewrite length_replicate. unfold run_of_blanks.
    destruct (Nat.eqb_spec k 0); [lia|]. reflexivity.
  - intros k script1 script2 Hk Hgood1 Hgood2 Hdata.
    rewrite <- concat_app in Hdata.
    pose proof (concat_replicate _ _ _ Hdata) as Hall.
    apply Forall_app in Hall as [Hall1 Hall2].
    apply (f_equal length) in Hdata.
    rewrite concat_app, length_app, length_replicate in Hdata.
    fold (script_length script1) (script_length script2) in Hdata.
    cbn [cat_files].
    destruct (blank_file insize1 outsize o script1 0 initial)
      as (out1 & -> & Hout1); try assumption; [lia|auto|].
    pose proof (run_of_blanks_floor o 0 (script_length script1) initial
                  ltac:(lia)) as Hnl1.
    assert (Hc1 : (run_of_blanks o 0 (script_length script1) initial).2
                  = initial \/
                  (run_of_blanks o 0 (script_length script1) initial).2
                  = (first_blank o initial).2).
    { unfold run_of_blanks. destruct (_ =? 0)%nat; cbn; auto. }
    destruct (blank_file insize2 outsize o script2
                (run_of_blanks o 0 (script_length script1) initial).1.2
                (run_of_blanks o 0 (script_length script1) initial).2)
      as (out2 & -> & Hout2); try assumption; [auto|].
    cbn [output app]. rewrite concat_app, Hout1, Hout2.
    unfold run_of_blanks.
    destruct (Nat.eqb_spec (script_length script1) 0) as [H1|H1].
    + cbn [fst snd app]. change (0 =? 0) with true. cbv iota.
      destruct (Nat.eqb_spec (script_length script2) 0); [lia|]. reflexivity.
    + change (0 =? 0) with true. cbv iota. cbn [fst snd].
      destruct (Z.eqb_spec (Z.min 2 (Z.of_nat (script_length script1))) 0);
        [lia|].
      destruct (script_length script2 =? 0)%nat; cbn [fst];
        rewrite app_nil_r; reflexivity.
Qed.

Lemma C4_blank_run_squeezed_witness :
  output (cat_files 4
            {| show_nonprinting := false; show_tabs := false; number := false;
               number_nonblank := false; show_ends := false;
               squeeze_blank := true |}
            [(4%nat, [got [10; 10]]); (4%nat, [got [10]; got [10; 10]])]
            true 0 initial [])
  = Some [10].
Proof.
  refine (proj2
    (C4_blank_run_squeezed 4 4 4
       {| show_nonprinting := false; show_tabs := false; number := false;
          number_nonblank := false; show_ends := false;
          squeeze_blank := true |} _ _)
    5%nat [got [10; 10]] [got [10]; got [10; 10]] _ _ _ _);
    try reflexivity; try lia.
  - repeat constructor; try discriminate;
      eexists; repeat split; simpl; try discriminate; lia.
  - repeat constructor; try discriminate;
      eexists; repeat split; simpl; try discriminate; lia.
Defined.

(** *** Without numbers and without squeezing *)

Lemma lines_text_plain o ls : forall nl c,
  number o = false -> squeeze_blank o = false ->
  (lines_text o ls nl c).1.1 =
  flat_map (fun l => end_mark o ++ line_text o l) ls.
Proof.
  induction ls as [|l ls IH]; intros nl c Hn Hs; [reflexivity|].
  cbn [lines_text flat_map].
  destruct (eol_text o nl c) as [[t1 nl1] c1] eqn:He.
  destruct (body_text o l nl1 c1) as [[t2 nl2] c2] eqn:Hbody.
  specialize (IH nl2 c2 Hn Hs).
  destruct (lines_text o ls nl2 c2) as [[t3 nl3] c3].
  cbn [fst] in *. rewrite IH, <- app_assoc.
  assert (t1 = end_mark o) as ->.
  { unfold eol_text in He. rewrite Hn, Hs, andb_false_r in He.
    cbn [andb] in He. destruct (0 <? nl + 1); congruence. }
  assert (t2 = line_text o l) as ->.
  { unfold body_text in Hbody. rewrite Hn, andb_false_r in Hbody.
    destruct l; injection Hbody as <- _ _; reflexivity. }
  reflexivity.
Qed.

Lemma chunks_text_plain o chunks : forall nl c nl' c',
  number o = false -> squeeze_blank o = false ->
  (chunks_text o chunks nl c).1.1 = (chunks_text o chunks nl' c').1.1.
Proof.
  induction chunks as [|d chunks IH]; intros nl c nl' c' Hn Hs; [reflexivity|].
  cbn [chunks_text]. unfold chunk_text.
  destruct (split_lines_cons d) as (l & ls & ->).
  assert (Hbody : forall nl c, (body_text o l nl c).1.1 = line_text o l).
  { intros nl0 c0. unfold body_text. rewrite Hn, andb_false_r.
    destruct l; reflexivity. }
  pose proof (Hbody nl c) as H1. pose proof (Hbody nl' c') as H2.
  destruct (body_text o l nl c) as [[t1 nl1] c1].
  destruct (body_text o l nl' c') as [[t1' nl1'] c1'].
  pose proof (lines_text_plain o ls nl1 c1 Hn Hs) as H3.
  pose proof (lines_text_plain o ls nl1' c1' Hn Hs) as H4.
  destruct (lines_text o ls nl1 c1) as [[t2 nl2] c2].
  destruct (lines_text o ls nl1' c1') as [[t2' nl2'] c2'].
  specialize (IH nl2 c2 nl2' c2' Hn Hs).
  destruct (chunks_text o chunks nl2 c2) as [[t3 nl3] c3].
  destruct (chunks_text o chunks nl2' c2') as [[t3' nl3'] c3'].
  cbn [fst] in *. congruence.
Qed.

(** *** Numbered lines *)

Lemma split_lines_app l rest :
  unbroken l -> split_lines (l ++ 10 :: rest) = l :: split_lines rest.
Proof.
  induction 1 as [|ch l Hch Hl IH]; cbn [app split_lines].
  - reflexivity.
  - destruct (Z.eqb_spec ch 10); [contradiction|]. rewrite IH. reflexivity.
Qed.

Lemma split_lines_with_newlines ls :
  Forall unbroken ls -> split_lines (with_newlines ls) = ls ++ [[]].
Proof.
  induction 1 as [|l ls Hl Hls IH]; [reflexivity|].
  rewrite with_newlines_cons, split_lines_app, IH by assumption. reflexivity.
Qed.

Lemma split_lines_unbroken_line l : unbroken l -> split_lines l = [l].
Proof.
  induction 1 as [|ch l Hch Hl IH]; cbn [split_lines]; [reflexivity|].
  destruct (Z.eqb_spec ch 10); [contradiction|]. rewrite IH. reflexivity.
Qed.

Lemma lines_calls_le o ls : forall nl c,
  (lines_calls o ls nl c <= 2 * length ls)%nat.
Proof.
  induction ls as [|l ls IH]; intros nl c; cbn [lines_calls length]; [lia|].
  destruct (eol_text o nl c) as [[t1 nl1] c1].
  destruct (body_text o l nl1 c1) as [[t2 nl2] c2].
  specialize (IH nl2 c2).
  assert (eol_calls o nl <= 1)%nat
    by (unfold eol_calls; destruct (_ && _); lia).
  assert (body_calls o l nl1 <= 1)%nat
    by (unfold body_calls; destruct l; [lia|]; destruct (_ && _); lia).
  lia.
Qed.

Lemma chunk_calls_le o data nl c :
  (chunk_calls o data nl c <= 2 * length (split_lines data))%nat.
Proof.
  unfold chunk_calls. destruct (split_lines data) as [|l ls]; [lia|].
  destruct (body_text o l nl c) as [[t2 nl2] c2].
  pose proof (lines_calls_le o ls nl2 c2).
  assert (body_calls o l nl <= 1)%nat
    by (unfold body_calls; destruct l; [lia|]; destruct (_ && _); lia).
  cbn [length]. lia.
Qed.

(** A line and its newline, when every line is numbered. *)
Lemma numbered_line o l nl c t nl' c' t1 nl1 c1 :
  number o = true -> number_nonblank o = false -> squeeze_blank o = false ->
  0 <= nl ->
  body_text o l nl c = (t, nl', c') ->
  eol_text o nl' c' = (t1, nl1, c1) ->
  t ++ t1 = rendered (next_line_num c) ++ line_text o l ++ end_mark o /\
  c1 = next_line_num c /\ 0 <= nl1.
Proof.
  intros Hn Hb Hs Hnl Hbody He.
  unfold body_text in Hbody. unfold eol_text in He.
  rewrite Hn, Hb, Hs, ?andb_false_r, ?andb_true_r in *. cbn [negb andb] in *.
  destruct l as [|ch l].
  - injection Hbody as <- <- <-.
    destruct (Z.ltb_spec 0 (nl + 1)); [|lia].
    injection He as <- <- <-. repeat split.
    destruct (2 <=? nl + 1); lia.
  - destruct (Z.leb_spec 0 nl); [|lia].
    injection Hbody as <- <- <-. cbn in He. injection He as <- <- <-.
    rewrite <- app_assoc. repeat split. lia.
Qed.

Lemma numbered_lines_text o ls : forall l nl c,
  number o = true -> number_nonblank o = false -> squeeze_blank o = false ->
  0 <= nl ->
  ((body_text o l nl c).1.1
   ++ (lines_text o (ls ++ [[]]) (body_text o l nl c).1.2
         (body_text o l nl c).2).1.1)
  = numbered_lines o c (l :: ls).
Proof.
  induction ls as [|l' ls IH]; intros l nl c Hn Hb Hs Hnl.
  - destruct (body_text o l nl c) as [[t nl'] c'] eqn:Hbody.
    cbn [app lines_text fst snd].
    destruct (eol_text o nl' c') as [[t1 nl1] c1] eqn:He.
    destruct (numbered_line o l nl c _ _ _ _ _ _ Hn Hb Hs Hnl Hbody He)
      as (Ht & _ & _).
    cbn [body_text fst numbered_lines]. rewrite !app_nil_r. exact Ht.
  - destruct (body_text o l nl c) as [[t nl'] c'] eqn:Hbody.
    cbn [app lines_text fst snd].
    destruct (eol_text o nl' c') as [[t1 nl1] c1] eqn:He.
    destruct (numbered_line o l nl c _ _ _ _ _ _ Hn Hb Hs Hnl Hbody He)
      as (Ht & -> & Hnl1).
    specialize (IH l' nl1 (next_line_num c) Hn Hb Hs Hnl1).
    destruct (body_text o l' nl1 (next_line_num c)) as [[t2 nl2] c2].
    cbn [fst snd] in IH.
    destruct (lines_text o (ls ++ [[]]) nl2 c2) as [[t3 nl3] c3].
    cbn [fst snd] in *. cbn [numbered_lines].
    rewrite app_assoc, Ht, IH, <- !app_assoc. reflexivity.
Qed.

Lemma chunk_text_lines o data nl c l ls :
  split_lines data = l :: ls ->
  (chunk_text o data nl c).1.1 =
  (body_text o l nl c).1.1
  ++ (lines_text o ls (body_text o l nl c).1.2 (body_text o l nl c).2).1.1.
Proof.
  intros Hs. unfold chunk_text. rewrite Hs.
  destruct (body_text o l nl c) as [[t2 nl2] c2]. cbn [fst snd].
  destruct (lines_text o ls nl2 c2) as [[t3 nl3] c3]. reflexivity.
Qed.

(** A file that comes in one read. *)
Lemma one_read insize outsize o io data nl c :
  (1 <= outsize)%nat -> io <> IoctlFailed ->
  data <> [] -> (length data <= insize)%nat ->
  numbers_fit o c (chunk_calls o data nl c) ->
  output (cat (outbuf_size insize outsize) outsize o
            [{| ev_ioctl := io; ev_read := ReadOk data |}] nl c)
  = Some (chunk_text o data nl c).1.1.
Proof.
  intros Hpos Hio Hne Hlen Hfit.
  destruct (cat_main_text insize outsize o
              [{| ev_ioctl := io; ev_read := ReadOk data |}] nl c)
    as (out & -> & Hout); [assumption| | |].
  - repeat constructor; [assumption|]. exists data. auto.
  - unfold script_data, event_data. cbn [map ev_read chunks_calls].
    destruct (chunk_text o data nl c) as [[t1 nl1] c1].
    rewrite Nat.add_0_r. assumption.
  - cbn [output]. rewrite Hout. unfold script_data, event_data.
    cbn [map ev_read chunks_text].
    destruct (chunk_text o data nl c) as [[t1 nl1] c1].
    cbn [fst]. rewrite app_nil_r. reflexivity.
Qed.

Lemma body_numbered o l nl c :
  number o = true -> 0 <= nl -> l <> [] ->
  body_text o l nl c =
  (rendered (next_line_num c) ++ line_text o l, -1, next_line_num c).
Proof.
  intros Hn Hnl Hl. destruct l as [|ch l]; [congruence|].
  unfold body_text. rewrite Hn.
  destruct (Z.leb_spec 0 nl); [reflexivity|lia].
Qed.

Lemma eol_unnumbered_blank o c :
  number_nonblank o = true -> eol_text o 0 c = (end_mark o, 1, c).
Proof.
  intros Hb. unfold eol_text. cbn. rewrite Hb, andb_false_r. reflexivity.
Qed.

(** *** The last line of a file that does not end in a newline *)

Lemma split_lines_newline a b :
  split_lines (a ++ 10 :: b) = split_lines a ++ split_lines b.
Proof.
  induction a as [|ch a IH]; [reflexivity|].
  cbn [app split_lines]. rewrite IH.
  destruct (ch =? 10); [reflexivity|].
  destruct (split_lines_cons a) as (l & ls & ->). reflexivity.
Qed.

Lemma lines_text_app o A : forall B nl c,
  lines_text o (A ++ B) nl c =
  let '(t1, nl1, c1) := lines_text o A nl c in
  let '(t2, nl2, c2) := lines_text o B nl1 c1 in
  (t1 ++ t2, nl2, c2).
Proof.
  induction A as [|l A IH]; intros B nl c.
  - cbn. destruct (lines_text o B nl c) as [[t2 nl2] c2]. reflexivity.
  - cbn [app lines_text].
    destruct (eol_text o nl c) as [[t1 nl1] c1].
    destruct (body_text o l nl1 c1) as [[t2 nl2] c2].
    rewrite IH.
    destruct (lines_text o A nl2 c2) as [[t3 nl3] c3].
    destruct (lines_text o B nl3 c3) as [[t4 nl4] c4].
    rewrite <- !app_assoc. reflexivity.
Qed.

Lemma chunks_text_app o A : forall B nl c,
  chunks_text o (A ++ B) nl c =
  let '(t1, nl1, c1) := chunks_text o A nl c in
  let '(t2, nl2, c2) := chunks_text o B nl1 c1 in
  (t1 ++ t2, nl2, c2).
Proof.
  induction A as [|d A IH]; intros B nl c.
  - cbn. destruct (chunks_text o B nl c) as [[t2 nl2] c2]. reflexivity.
  - cbn [app chunks_text].
    destruct (chunk_text o d nl c) as [[t1 nl1] c1].
    rewrite IH.
    destruct (chunks_text o A nl1 c1) as [[t3 nl3] c3].
    destruct (chunks_text o B nl3 c3) as [[t4 nl4] c4].
    rewrite <- !app_assoc. reflexivity.
Qed.

(** The counter is called once per byte at most. *)
Lemma lines_calls_bytes o ls : forall nl c,
  (lines_calls o ls nl c <= length (with_newlines ls))%nat.
Proof.
  induction ls as [|l ls IH]; intros nl c; cbn [lines_calls]; [lia|].
  rewrite with_newlines_cons, length_app. cbn [length].
  destruct (eol_text o nl c) as [[t1 nl1] c1].
  destruct (body_text o l nl1 c1) as [[t2 nl2] c2].
  specialize (IH nl2 c2).
  assert (eol_calls o nl <= 1)%nat
    by (unfold eol_calls; destruct (_ && _); lia).
  assert (body_calls o l nl1 <= length l)%nat
    by (unfold body_calls; destruct l; [lia|];
        destruct (_ && _); cbn [length]; lia).
  lia.
Qed.

Lemma chunk_calls_bytes o data nl c :
  (chunk_calls o data nl c <= length data)%nat.
Proof.
  unfold chunk_calls.
  pose proof (split_lines_newlines data) as Hsplit.
  destruct (split_lines_cons data) as (l & ls & Hs). rewrite Hs in *.
  rewrite with_newlines_cons in Hsplit.
  apply (f_equal length) in Hsplit. rewrite !length_app in Hsplit.
  cbn [length] in Hsplit.
  destruct (body_text o l nl c) as [[t2 nl2] c2].
  pose proof (lines_calls_bytes o ls nl2 c2).
  assert (body_calls o l nl <= length l)%nat
    by (unfold body_calls; destruct l; [lia|];
        destruct (_ && _); cbn [length]; lia).
  lia.
Qed.

Lemma chunks_calls_bytes o chunks : forall nl c,
  (chunks_calls o chunks nl c <= length (concat chunks))%nat.
Proof.
  induction chunks as [|d chunks IH]; intros nl c;
    cbn [chunks_calls concat]; [lia|].
  rewrite length_app.
  pose proof (chunk_calls_bytes o d nl c).
  destruct (chunk_text o d nl c) as [[t1 nl1] c1].
  specialize (IH nl1 c1). lia.
Qed.

(** The blank-line count never falls below -1. *)
Lemma body_text_floor o l nl c :
  -1 <= nl -> -1 <= (body_text o l nl c).1.2.
Proof.
  intros Hnl. unfold body_text. destruct l; [assumption|].
  destruct (_ && _); cbn; lia.
Qed.

Lemma lines_text_floor o ls : forall nl c,
  -1 <= nl -> -1 <= (lines_text o ls nl c).1.2.
Proof.
  induction ls as [|l ls IH]; intros nl c Hnl; [assumption|].
  cbn [lines_text].
  destruct (eol_text o nl c) as [[t1 nl1] c1] eqn:He.
  pose proof (eol_text_nonneg _ _ _ _ _ _ He Hnl) as Hnl1.
  pose proof (body_text_floor o l nl1 c1 ltac:(lia)) as Hb.
  destruct (body_text o l nl1 c1) as [[t2 nl2] c2]. cbn [fst snd] in Hb.
  specialize (IH nl2 c2 Hb).
  destruct (lines_text o ls nl2 c2) as [[t3 nl3] c3]. exact IH.
Qed.

Lemma chunk_text_floor o data nl c :
  -1 <= nl -> -1 <= (chunk_text o data nl c).1.2.
Proof.
  intros Hnl. unfold chunk_text.
  destruct (split_lines data) as [|l ls]; [assumption|].
  pose proof (body_text_floor o l nl c Hnl) as Hb.
  destruct (body_text o l nl c) as [[t2 nl2] c2]. cbn [fst snd] in Hb.
  pose proof (lines_text_floor o ls nl2 c2 Hb) as Hl.
  destruct (lines_text o ls nl2 c2) as [[t3 nl3] c3]. exact Hl.
Qed.

Lemma chunks_text_floor o chunks : forall nl c,
  -1 <= nl -> -1 <= (chunks_text o chunks nl c).1.2.
Proof.
  induction chunks as [|d chunks IH]; intros nl c Hnl; [assumption|].
  cbn [chunks_text].
  pose proof (chunk_text_floor o d nl c Hnl) as Hd.
  destruct (chunk_text o d nl c) as [[t1 nl1] c1]. cbn [fst snd] in Hd.
  specialize (IH nl1 c1 Hd).
  destruct (chunks_text o chunks nl1 c1) as [[t2 nl2] c2]. exact IH.
Qed.

(** A read that is one line without its newline. *)
Lemma chunk_text_unbroken o last nl c :
  unbroken last ->
  chunk_text o last nl c =
  ((body_text o last nl c).1.1, (body_text o last nl c).1.2,
   (body_text o last nl c).2).
Proof.
  intros Hl. unfold chunk_text. rewrite split_lines_unbroken_line by assumption.
  destruct (body_text o last nl c) as [[t2 nl2] c2].
  cbn. rewrite app_nil_r. reflexivity.
Qed.

(** A read that ends in a line without its newline, behind complete
    lines: the complete lines give what they give alone, and the count
    of blank lines stands at zero or more when the last line starts. *)
Lemma chunk_text_partial o p last nl c t1 nl1 c1 :
  unbroken last -> -1 <= nl ->
  chunk_text o (p ++ [10]) nl c = (t1, nl1, c1) ->
  chunk_text o (p ++ 10 :: last) nl c =
    (t1 ++ (body_text o last nl1 c1).1.1, (body_text o last nl1 c1).1.2,
     (body_text o last nl1 c1).2) /\
  0 <= nl1.
Proof.
  intros Hl Hnl. unfold chunk_text.
  rewrite !split_lines_newline.
  rewrite (split_lines_unbroken_line last) by assumption.
  cbn [split_lines].
  destruct (split_lines_cons p) as (l & ls & ->). cbn [app].
  pose proof (body_text_floor o l nl c Hnl) as Hb.
  destruct (body_text o l nl c) as [[t2 nl2] c2]. cbn [fst snd] in Hb.
  rewrite !lines_text_app.
  pose proof (lines_text_floor o ls nl2 c2 Hb) as Hls.
  destruct (lines_text o ls nl2 c2) as [[t3 nl3] c3]. cbn [fst snd] in Hls.
  cbn [lines_text body_text].
  destruct (eol_text o nl3 c3) as [[t4 nl4] c4] eqn:He.
  pose proof (eol_text_nonneg _ _ _ _ _ _ He Hls) as Hnl4.
  intros Heq. injection Heq as <- <- <-.
  split; [|assumption].
  destruct (body_text o last nl4 c4) as [[t5 nl5] c5]. cbn [fst snd].
  rewrite !app_nil_r, <- !app_assoc. reflexivity.
Qed.

Lemma body_text_line o last nl c :
  last <> [] ->
  body_text o last nl c =
  ((if (0 <=? nl) && number o then rendered (next_line_num c) else [])
   ++ line_text o last,
   -1,
   if (0 <=? nl) && number o then next_line_num c else c).
Proof.
  intros Hl. destruct last as [|ch l]; [congruence|].
  unfold body_text. destruct (_ && _); reflexivity.
Qed.

Lemma script_data_app s1 s2 :
  script_data (s1 ++ s2) = script_data s1 ++ script_data s2.
Proof. apply map_app. Qed.

Lemma script_data_brought io data :
  data <> [] -> script_data (brought io data) = [data].
Proof. destruct data; [congruence|reflexivity]. Qed.

Lemma good_brought insize io data :
  io <> IoctlFailed -> (length data <= insize)%nat ->
  Forall (good_event insize) (brought io data).
Proof.
  intros Hio Hlen. destruct data as [|x data]; [constructor|].
  repeat constructor; [assumption|]. eexists. repeat split; [discriminate|assumption].
Qed.

(** The text of a file whose last read ends in a line without its
    newline, against the text of the file without that line. *)
Lemma chunks_text_partial o io A pre last nl c :
  unbroken last -> last <> [] ->
  (pre = [] \/ exists p, pre = p ++ [10]) -> -1 <= nl ->
  let before := chunks_text o (A ++ script_data (brought io pre)) nl c in
  let numbered := (0 <=? before.1.2) && number o in
  chunks_text o (A ++ script_data (brought io (pre ++ last))) nl c =
    (before.1.1
     ++ (if numbered then rendered (next_line_num before.2) else [])
     ++ line_text o last,
     -1,
     if numbered then next_line_num before.2 else before.2) /\
  (pre <> [] -> 0 <= before.1.2).
Proof.
  intros Hl Hne Hpre Hnl before numbered. subst before numbered.
  rewrite !chunks_text_app.
  pose proof (chunks_text_floor o A nl c Hnl) as HA.
  destruct (chunks_text o A nl c) as [[tA nlA] cA]. cbn [fst snd] in HA.
  rewrite (script_data_brought io (pre ++ last))
    by (destruct pre, last; cbn; congruence).
  cbn [chunks_text].
  destruct Hpre as [->|[p ->]].
  - cbn [app brought script_data map chunks_text fst snd].
    rewrite chunk_text_unbroken, body_text_line by assumption.
    cbn [fst snd]. rewrite !app_nil_r. split; [reflexivity|congruence].
  - rewrite script_data_brought by (destruct p; discriminate).
    cbn [chunks_text].
    destruct (chunk_text o (p ++ [10]) nlA cA) as [[t1 nl1] c1] eqn:Hpre.
    rewrite <- app_assoc. cbn [app].
    destruct (chunk_text_partial o p last nlA cA t1 nl1 c1 Hl HA Hpre)
      as [-> Hnl1].
    rewrite body_text_line by assumption.
    cbn [fst snd]. rewrite !app_nil_r, <- !app_assoc.
    split; [reflexivity|intros _; assumption].
Qed.

(** *** Reads against one read *)

Lemma chunk_text_newline o rest nl c :
  chunk_text o (10 :: rest) nl c =
  let '(t1, nl1, c1) := eol_text o nl c in
  let '(t2, nl2, c2) := chunk_text o rest nl1 c1 in
  (t1 ++ t2, nl2, c2).
Proof.
  unfold chunk_text. cbn [split_lines]. change (10 =? 10) with true.
  cbv iota. destruct (split_lines_cons rest) as (l & ls & ->).
  cbn [body_text lines_text app].
  destruct (eol_text o nl c) as [[t1 nl1] c1].
  destruct (body_text o l nl1 c1) as [[t2 nl2] c2].
  destruct (lines_text o ls nl2 c2) as [[t3 nl3] c3].
  reflexivity.
Qed.

Lemma hd_split_lines rest l ls :
  split_lines rest = l :: ls -> hd 10 l = hd 10 rest.
Proof.
  destruct rest as [|x rest]; cbn [split_lines].
  - intros [= <- <-]. reflexivity.
  - destruct (Z.eqb_spec x 10) as [->|Hx].
    + intros [= <- <-]. reflexivity.
    + destruct (split_lines rest); intros [= <- <-]; reflexivity.
Qed.

Lemma chunk_text_byte o ch rest nl c :
  ch <> 10 ->
  chunk_text o (ch :: rest) nl c =
  let numbered := (0 <=? nl) && number o in
  let '(t2, nl2, c2) :=
    chunk_text o rest (-1) (if numbered then next_line_num c else c) in
  ((if numbered then rendered (next_line_num c) else [])
   ++ (if show_nonprinting o then quote_text o ch
       else plain_text o ch (hd 10 rest))
   ++ t2, nl2, c2).
Proof.
  intros Hch. unfold chunk_text. cbn [split_lines].
  destruct (Z.eqb_spec ch 10); [contradiction|].
  destruct (split_lines rest) as [|l ls] eqn:Hs.
  { destruct (split_lines_cons rest) as (? & ? & ?). congruence. }
  rewrite <- (hd_split_lines rest l ls Hs).
  cbn [body_text line_text]. cbv zeta.
  assert (Hl : forall c', body_text o l (-1) c' = (line_text o l, -1, c'))
    by (intros c'; destruct l; reflexivity).
  destruct ((0 <=? nl) && number o); rewrite Hl;
    match goal with |- context [lines_text o ls (-1) ?c'] =>
      destruct (lines_text o ls (-1) c') as [[t3 nl3] c3]
    end; rewrite <- !app_assoc; reflexivity.
Qed.

(** Two reads against one read of the same bytes. *)
Lemma chunk_text_app o d1 : forall d2 nl c,
  seam o d1 d2 ->
  chunk_text o (d1 ++ d2) nl c =
  let '(t1, nl1, c1) := chunk_text o d1 nl c in
  let '(t2, nl2, c2) := chunk_text o d2 nl1 c1 in
  (t1 ++ t2, nl2, c2).
Proof.
  induction d1 as [|ch d1 IH]; intros d2 nl c Hseam.
  - cbn. destruct (chunk_text o d2 nl c) as [[t2 nl2] c2]. reflexivity.
  - cbn [app]. destruct (Z.eqb_spec ch 10) as [->|Hch].
    + rewrite !chunk_text_newline.
      destruct (eol_text o nl c) as [[t0 nl0] c0].
      rewrite IH.
      * destruct (chunk_text o d1 nl0 c0) as [[t1 nl1] c1].
        destruct (chunk_text o d2 nl1 c1) as [[t2 nl2] c2].
        rewrite <- app_assoc. reflexivity.
      * destruct d1 as [|x d1]; [|exact Hseam].
        unfold seam in *. cbn in *. intuition congruence.
    + rewrite !chunk_text_byte by assumption. cbv zeta.
      set (c' := if (0 <=? nl) && number o then next_line_num c else c).
      assert (Hbyte :
        (if show_nonprinting o then quote_text o ch
         else plain_text o ch (hd 10 (d1 ++ d2))) =
        (if show_nonprinting o then quote_text o ch
         else plain_text o ch (hd 10 d1))).
      { destruct d1 as [|x d1]; [|reflexivity]. cbn [app hd].
        destruct Hseam as [Hv|[He|[Hl|Hd]]].
        - rewrite Hv. reflexivity.
        - unfold plain_text. rewrite He, !andb_false_r. reflexivity.
        - cbn in Hl. unfold plain_text.
          destruct (Z.eqb_spec ch 13); [congruence|]. reflexivity.
        - rewrite Hd. reflexivity. }
      rewrite Hbyte, IH.
      * destruct (chunk_text o d1 (-1) c') as [[t1 nl1] c1].
        destruct (chunk_text o d2 nl1 c1) as [[t2 nl2] c2].
        rewrite <- !app_assoc. reflexivity.
      * destruct d1 as [|x d1]; [|exact Hseam].
        unfold seam. cbn. intuition congruence.
Qed.

Lemma chunks_text_concat o chunks : forall nl c,
  seams o chunks ->
  chunks_text o chunks nl c = chunk_text o (concat chunks) nl c.
Proof.
  induction chunks as [|d chunks IH]; intros nl c Hs; [reflexivity|].
  destruct Hs as [Hseam Hs]. cbn [chunks_text concat].
  rewrite chunk_text_app by assumption.
  destruct (chunk_text o d nl c) as [[t1 nl1] c1].
  rewrite IH by assumption. reflexivity.
Qed.

Lemma seams_options o chunks :
  show_nonprinting o = true \/ show_ends o = false \/
  Forall (fun d => last d <> Some 13) chunks ->
  seams o chunks.
Proof.
  intros H. induction chunks as [|d chunks IH]; [exact I|].
  split.
  - unfold seam. destruct H as [H|[H|H]]; auto.
    apply Forall_cons in H as [H _]. auto.
  - apply IH. destruct H as [H|[H|H]]; auto.
    apply Forall_cons in H as [_ H]. auto.
Qed.

(** Where C2 does hold: with [show_nonprinting] set, or [show_ends]
    not set, or when no read ends in a carriage return, the reads of a
    file give the bytes that the same input gives when it comes in one
    read, and leave the same count of blank lines and the same line
    counter. *)
Lemma chunks_as_one_read insize insize' outsize outsize' o script io nl c :
  (1 <= outsize)%nat -> (1 <= outsize')%nat ->
  Forall (good_event insize) script -> script <> [] ->
  io <> IoctlFailed -> (script_length script <= insize')%nat ->
  numbers_fit o c (script_length script) ->
  show_nonprinting o = true \/ show_ends o = false \/
  Forall (fun d => last d <> Some 13) (script_data script) ->
  exists nl' c' out out',
    cat (outbuf_size insize outsize) outsize o script nl c
      = Return true nl' c' out /\
    cat (outbuf_size insize' outsize') outsize' o
      [{| ev_ioctl := io; ev_read := ReadOk (concat (script_data script)) |}]
      nl c
      = Return true nl' c' out' /\
    concat out = concat out'.
Proof.
  intros Hpos Hpos' Hgood Hne Hio Hlen Hfit Hcond.
  destruct (cat_main_text insize outsize o script nl c)
    as (out & Hcat & Hout); [assumption|assumption| |].
  { apply (numbers_fit_le _ _ _ _ Hfit). apply chunks_calls_bytes. }
  set (whole := concat (script_data script)) in *.
  assert (Hwhole : whole <> []).
  { destruct script as [|ev script]; [congruence|].
    apply Forall_cons in Hgood as [(_ & data & Hrd & Hdata & _) _].
    subst whole. unfold script_data, event_data. cbn [map concat].
    rewrite Hrd. destruct data; [congruence|discriminate]. }
  destruct (cat_main_text insize' outsize' o
              [{| ev_ioctl := io; ev_read := ReadOk whole |}] nl c)
    as (out' & Hcat' & Hout'); [assumption| | |].
  { repeat constructor; [assumption|]. exists whole. auto. }
  { apply (numbers_fit_le _ _ _ _ Hfit).
    etransitivity; [apply chunks_calls_bytes|].
    unfold script_data, event_data. cbn [map ev_read concat].
    rewrite app_nil_r. reflexivity. }
  pose proof (chunks_text_concat o (script_data script) nl c
                (seams_options o _ Hcond)) as Hsame.
  fold whole in Hsame.
  assert (Hone : chunks_text o
             (script_data [{| ev_ioctl := io; ev_read := ReadOk whole |}]) nl c
           = chunk_text o whole nl c).
  { unfold script_data, event_data. cbn [map ev_read chunks_text].
    destruct (chunk_text o whole nl c) as [[t1 nl1] c1].
    rewrite app_nil_r. reflexivity. }
  rewrite Hone in Hcat', Hout'. rewrite Hsame in Hcat, Hout.
  eexists _, _, out, out'. split; [exact Hcat|]. split; [exact Hcat'|].
  congruence.
Qed.

(** *** The same input twice *)

Lemma chunk_text_plain o data nl c nl' c' :
  number o = false -> squeeze_blank o = false ->
  (chunk_text o data nl c).1.1 = (chunk_text o data nl' c').1.1.
Proof.
  intros Hn Hs.
  pose proof (chunks_text_plain o [data] nl c nl' c' Hn Hs) as H.
  cbn [chunks_text] in H.
  destruct (chunk_text o data nl c) as [[t1 nl1] c1].
  destruct (chunk_text o data nl' c') as [[t1' nl1'] c1'].
  cbn [fst] in *. rewrite !app_nil_r in H. exact H.
Qed.

(** C5, as the code has it: with neither [number] nor [squeeze_blank]
    set, two runs of the engine in a row on the same bytes, the second
    starting from the blank-line count and the line counter the first
    has left, write the same bytes: when both runs get the bytes in the
    same reads, and also when the reads are cut differently, unless
    [show_ends] is set without [show_nonprinting] and a read of one of
    the runs ends in a carriage return. *)
Theorem C5_same_output_twice insize outsize o script1 script2 nl c :
  (1 <= outsize)%nat ->
  Forall (good_event insize) script1 ->
  Forall (good_event insize) script2 ->
  number o = false -> squeeze_blank o = false ->
  script_data script1 = script_data script2 \/
  concat (script_data script1) = concat (script_data script2) /\
  (show_nonprinting o = true \/ show_ends o = false \/
   Forall (fun d => last d <> Some 13)
     (script_data script1 ++ script_data script2)) ->
  exists t,
    cat_twice (outbuf_size insize outsize) outsize o script1 script2 nl c
    = Some (t, t).
Proof.
  intros Hpos Hgood1 Hgood2 Hn Hs Hsame. unfold cat_twice.
  destruct (cat_main_text insize outsize o script1 nl c)
    as (out1 & -> & Hout1);
    [assumption|assumption|apply numbers_fit_unnumbered; assumption|].
  match goal with |- context [cat _ _ _ script2 ?nl1 ?c1] =>
    destruct (cat_main_text insize outsize o script2 nl1 c1)
      as (out2 & -> & Hout2);
      [assumption|assumption|apply numbers_fit_unnumbered; assumption|]
  end.
  exists (concat out1). rewrite Hout1, Hout2. do 2 f_equal.
  destruct Hsame as [Hsame|[Hsame Hcr]].
  - rewrite Hsame. apply chunks_text_plain; assumption.
  - assert (Hs1 : seams o (script_data script1)).
    { apply seams_options. destruct Hcr as [H|[H|H]]; auto.
      apply Forall_app in H as [H _]. auto. }
    assert (Hs2 : seams o (script_data script2)).
    { apply seams_options. destruct Hcr as [H|[H|H]]; auto.
      apply Forall_app in H as [_ H]. auto. }
    rewrite !chunks_text_concat by assumption.
    rewrite Hsame. apply chunk_text_plain; assumption.
Qed.

Lemma C5_same_output_twice_witness :
  exists t,
    cat_twice (outbuf_size 4 4) 4
      {| show_nonprinting := false; show_tabs := false; number := false;
         number_nonblank := false; show_ends := true;
         squeeze_blank := false |}
      [got [97; 13; 10]; got [98]] [got [97]; got [13; 10; 98]] 0 initial
    = Some (t, t).
Proof.
  apply (C5_same_output_twice 4 4); try reflexivity; try lia.
  - repeat constructor; try discriminate;
      eexists; repeat split; simpl; try discriminate; lia.
  - repeat constructor; try discriminate;
      eexists; repeat split; simpl; try discriminate; lia.
  - right. split; [reflexivity|]. right. right.
    repeat constructor; discriminate.
Defined.

(** C5 as stated fails with [number] set: the second run goes on
    counting where the first stopped.  It also fails, by the defect of
    C2, with [show_ends] alone when the first run gets a carriage
    return as the last byte of a read and the second does not. *)
Lemma C5_counterexample :
  cat_twice (outbuf_size 4 4) 4
    {| show_nonprinting := false; show_tabs := false; number := true;
       number_nonblank := false; show_ends := false;
       squeeze_blank := false |}
    [got [97; 10]] [got [97; 10]] 0 initial
  = Some ([32; 32; 32; 32; 32; 49; 9; 97; 10],
          [32; 32; 32; 32; 32; 50; 9; 97; 10]) /\
  cat_twice (outbuf_size 4 4) 4
    {| show_nonprinting := false; show_tabs := false; number := false;
       number_nonblank := false; show_ends := true;
       squeeze_blank := false |}
    [got [97; 13]; got [98]] [got [97; 13; 98]] 0 initial
  = Some ([97; 94; 77; 98], [97; 13; 98]).
Proof. split; reflexivity. Qed.

(** *** Bytes that do not print *)

(** The counter after [k] calls shows [k]; the next number is written
    as [line_number] has it. *)
Lemma after_initial k :
  Z.of_nat k < 10 ^ 18 -> after k initial = showing (Z.of_nat k).
Proof.
  intros Hk. rewrite initial_showing, after_showing by lia.
  f_equal.
Qed.

Lemma rendered_showing n :
  1 <= n < 10 ^ 18 -> rendered (showing n) = line_number n.
Proof.
  intros Hn. unfold showing, line_number. cbv zeta.
  pose proof (to_digits_digits 18 n ltac:(lia)) as Hds.
  pose proof (to_digits_length 18 18 n ltac:(lia) ltac:(lia)) as Hlen.
  pose proof (to_digits_nonempty 17 n) as Hne.
  assert (Hpos : (1 <= length (to_digits 18 n))%nat).
  { destruct (to_digits 18 n); [congruence|simpl; lia]. }
  rewrite rendered_of_digits by (assumption || lia).
  f_equal. f_equal. lia.
Qed.

Lemma rendered_next k :
  Z.of_nat k + 1 < 10 ^ 18 ->
  rendered (next_line_num (after k initial)) = line_number (Z.of_nat k + 1).
Proof.
  intros Hk. change (next_line_num (after k initial)) with (after (S k) initial).
  rewrite after_initial by lia. rewrite rendered_showing by lia.
  f_equal. lia.
Qed.

Lemma numbers_fit_after o k m :
  (number o = true -> Z.of_nat k + Z.of_nat m < 10 ^ 10) ->
  numbers_fit o (after k initial) m.
Proof.
  intros Hk Hn. specialize (Hk Hn).
  rewrite after_initial by lia. apply widths_within_showing; lia.
Qed.





End EngineTheorems.

(** * Further properties *)

(** ** The line counter, whatever the count *)

Section CounterFacts.

Lemma digits_value_to_digits fuel : forall v,
  0 <= v < 10 ^ Z.of_nat fuel ->
  digits_value (to_digits fuel v) = v.
Proof.
  induction fuel as [|fuel IH]; intros v Hv.
  - change (10 ^ Z.of_nat 0) with 1 in Hv. cbn. lia.
  - cbn [to_digits]. destruct (Z.ltb_spec v 10); cbn [digits_value]; [lia|].
    rewrite IH.
    + pose proof (Z.div_mod v 10). lia.
    + rewrite Nat2Z.inj_succ, Z.pow_succ_r in Hv by lia.
      split; [apply Z.div_pos; lia|].
      apply Z.div_lt_upper_bound; lia.
Qed.

Lemma to_digits_last fuel : forall v,
  1 <= v < 10 ^ Z.of_nat fuel ->
  exists d, last (to_digits fuel v) = Some d /\ 1 <= d.
Proof.
  induction fuel as [|fuel IH]; intros v Hv.
  - change (10 ^ Z.of_nat 0) with 1 in Hv. lia.
  - cbn [to_digits]. destruct (Z.ltb_spec v 10).
    + exists v. split; [reflexivity|lia].
    + rewrite Nat2Z.inj_succ, Z.pow_succ_r in Hv by lia.
      destruct (IH (v / 10)) as (d & Hd & Hpos).
      { split; [|apply Z.div_lt_upper_bound; lia].
        apply Z.div_le_lower_bound; lia. }
      exists d. split; [|assumption].
      destruct (to_digits fuel (v / 10)); [discriminate|exact Hd].
Qed.

(** X1: the text that stands before line number [n], for every [n]
    from 1 to below [10 ^ 18], is the decimal numeral of [n], without
    leading zeros, right-justified with blanks in six places (and wider
    only from seven digits on), followed by a tab. *)
Theorem X1_line_number_is_decimal (n : Z) :
  1 <= n < 10 ^ 18 ->
  exists ds,
    rendered (after (Z.to_nat n) initial) =
      replicate (6 - length ds) 32 ++ map (fun d => 48 + d) (reverse ds)
      ++ [9] /\
    Forall digit ds /\ digits_value ds = n /\
    (exists d, last ds = Some d /\ 1 <= d).
Proof.
  intros Hn. exists (to_digits 18 n).
  pose proof (to_digits_digits 18 n ltac:(lia)) as Hds.
  pose proof (to_digits_length 18 18 n ltac:(lia) ltac:(lia)) as Hlen.
  pose proof (to_digits_nonempty 17 n) as Hne.
  assert (Hpos : (1 <= length (to_digits 18 n))%nat).
  { destruct (to_digits 18 n); [congruence|simpl; lia]. }
  repeat split.
  - rewrite initial_showing, after_showing by (rewrite ?Z2Nat.id; lia).
    rewrite Z2Nat.id by lia. rewrite Z.add_0_l. unfold showing.
    rewrite rendered_of_digits by (assumption || lia).
    f_equal. f_equal. lia.
  - assumption.
  - apply digits_value_to_digits. change (Z.of_nat 18) with 18. lia.
  - apply to_digits_last. change (Z.of_nat 18) with 18. lia.
Qed.

Lemma X1_line_number_is_decimal_witness :
  exists ds,
    rendered (after (Z.to_nat 1234567) initial) =
      replicate (6 - length ds) 32 ++ map (fun d => 48 + d) (reverse ds)
      ++ [9] /\
    Forall digit ds /\ digits_value ds = 1234567 /\
    (exists d, last ds = Some d /\ 1 <= d).
Proof. apply (X1_line_number_is_decimal 1234567). lia. Defined.

End CounterFacts.

Section CounterKept.

Lemma lookup_kept buf i :
  (i <= 17)%nat -> length buf = 20%nat ->
  Forall (fun b => 32 <= b <= 62) (take 18 buf) ->
  32 <= default 0 (buf !! i) <= 62.
Proof.
  intros Hi Hlen Hall.
  destruct (lookup_lt_is_Some_2 (take 18 buf) i) as [c Hc];
    [rewrite length_take; lia|].
  pose proof (proj1 (Forall_lookup _ _) Hall _ _ Hc) as Hr.
  rewrite lookup_take_lt in Hc by lia. rewrite Hc. exact Hr.
Qed.

Lemma insert_kept buf i x :
  (i <= 17)%nat -> 32 <= x <= 62 ->
  length buf = 20%nat /\
  Forall (fun b => 32 <= b <= 62) (take 18 buf) /\
  drop 18 buf = [9; 0] ->
  length (<[i:=x]> buf) = 20%nat /\
  Forall (fun b => 32 <= b <= 62) (take 18 (<[i:=x]> buf)) /\
  drop 18 (<[i:=x]> buf) = [9; 0].
Proof.
  intros Hi Hx (Hlen & Hall & Htail).
  rewrite length_insert, take_insert_lt, drop_insert_lt by lia.
  repeat split; [assumption| |assumption].
  apply Forall_insert; assumption.
Qed.

Lemma carry_loop_kept start endp : forall buf,
  (endp <= 17)%nat ->
  length buf = 20%nat /\
  Forall (fun b => 32 <= b <= 62) (take 18 buf) /\
  drop 18 buf = [9; 0] ->
  let buf' := carry_buf (carry_loop start buf endp) in
  length buf' = 20%nat /\
  Forall (fun b => 32 <= b <= 62) (take 18 buf') /\
  drop 18 buf' = [9; 0].
Proof.
  induction endp as [|e IH]; intros buf He Hbuf;
    rewrite carry_loop_unfold; cbv zeta.
  - pose proof (lookup_kept buf 0 He (proj1 Hbuf) (proj1 (proj2 Hbuf))) as Hc.
    destruct (Z.ltb_spec (default 0 (buf !! 0%nat)) 57); cbn [carry_buf].
    + apply insert_kept; [lia|lia|assumption].
    + rewrite list_insert_insert_eq. apply insert_kept; [lia|lia|assumption].
  - pose proof (lookup_kept buf (S e) He (proj1 Hbuf) (proj1 (proj2 Hbuf)))
      as Hc.
    destruct (Z.ltb_spec (default 0 (buf !! S e)) 57); cbn [carry_buf].
    + apply insert_kept; [lia|lia|assumption].
    + rewrite list_insert_insert_eq.
      pose proof (insert_kept buf (S e) 48 He ltac:(lia) Hbuf) as Hkept.
      destruct (start <=? e)%nat; cbn [carry_buf]; [|exact Hkept].
      apply IH; [lia|exact Hkept].
Qed.

Lemma next_line_num_kept l : counter_ok l -> counter_ok (next_line_num l).
Proof.
  intros (Hlen & Hend & Hps & Hs & Hp & Hall & Htail).
  pose proof (carry_loop_kept (line_num_start l) (line_num_end l)
                (line_buf l) ltac:(lia) (conj Hlen (conj Hall Htail))) as Hk.
  cbv zeta in Hk. unfold next_line_num, counter_ok.
  destruct (carry_loop (line_num_start l) (line_buf l) (line_num_end l))
    as [buf|buf]; cbn [carry_buf] in Hk; destruct Hk as (H1 & H2 & H3);
    cbn [line_buf line_num_end line_num_start line_num_print].
  - repeat split; assumption.
  - destruct (Nat.ltb_spec 0 (line_num_start l)).
    + destruct (insert_kept buf (line_num_start l - 1) 49 ltac:(lia)
                  ltac:(lia) (conj H1 (conj H2 H3))) as (H4 & H5 & H6).
      destruct (Nat.ltb_spec (line_num_start l - 1) (line_num_print l));
        repeat split; try assumption; lia.
    + destruct (insert_kept buf 0 62 ltac:(lia) ltac:(lia)
                  (conj H1 (conj H2 H3))) as (H4 & H5 & H6).
      destruct (Nat.ltb_spec (line_num_start l) (line_num_print l));
        repeat split; try assumption; lia.
Qed.

Lemma after_kept n l : counter_ok l -> counter_ok (after n l).
Proof.
  intros Hl. induction n as [|n IH]; [exact Hl|].
  cbn [after]. apply next_line_num_kept. exact IH.
Qed.

Lemma counter_ok_initial : counter_ok initial.
Proof.
  unfold counter_ok, initial, LINE_COUNTER_BUF_LEN.
  cbn [line_buf line_num_end line_num_start line_num_print].
  repeat split; try (simpl; lia).
  cbn. repeat constructor; lia.
Qed.

Lemma rendered_kept l :
  counter_ok l ->
  rendered l = drop (line_num_print l) (take 18 (line_buf l)) ++ [9].
Proof.
  intros (Hlen & Hend & Hps & Hs & Hp & Hall & Htail).
  unfold rendered.
  rewrite <- (take_drop 18 (line_buf l)) at 1. rewrite Htail.
  rewrite drop_app_le by (rewrite length_take; unfold LINE_COUNTER_BUF_LEN in *; lia).
  change [9; 0] with ([9] ++ [0]). rewrite app_assoc.
  apply c_string_nul. apply Forall_app. split; [|repeat constructor; lia].
  apply Forall_drop. eapply Forall_impl; [exact Hall|].
  intros b Hb. cbv beta in *. lia.
Qed.

Lemma insert_place start buf i x :
  places_ok start buf -> place_ok start i x ->
  places_ok start (<[i:=x]> buf).
Proof.
  intros Hbuf Hx j b Hj Hb.
  apply list_lookup_insert_Some in Hb as [(-> & -> & _)|(_ & Hb)];
    [exact Hx|exact (Hbuf j b Hj Hb)].
Qed.

Lemma carry_step_places start endp buf :
  (start <= endp <= 17)%nat -> places_ok start buf ->
  let c := default 0 (buf !! endp) in
  (c < 57 -> places_ok start (<[endp:=c + 1]> buf)) /\
  (57 <= c -> places_ok start (<[endp:=48]> buf)).
Proof.
  intros He Hbuf c. subst c. destruct (buf !! endp) as [c|] eqn:E;
    cbn [from_option id].
  - pose proof (Hbuf endp c ltac:(lia) E) as Hc. unfold place_ok in Hc.
    split; intros Hlt; apply insert_place; try assumption;
      unfold place_ok; lia.
  - apply lookup_ge_None in E. rewrite !list_insert_ge by lia.
    split; intros _; assumption.
Qed.

Lemma carry_loop_places start endp : forall buf,
  (start <= endp <= 17)%nat -> places_ok start buf ->
  places_ok start (carry_buf (carry_loop start buf endp)).
Proof.
  induction endp as [|e IH]; intros buf He Hbuf;
    rewrite carry_loop_unfold; cbv zeta;
    destruct (carry_step_places start _ buf He Hbuf) as [Hlow Hhigh];
    cbv zeta in Hlow, Hhigh.
  - destruct (Z.ltb_spec (default 0 (buf !! 0%nat)) 57); cbn [carry_buf].
    + apply Hlow. assumption.
    + rewrite list_insert_insert_eq. apply Hhigh. assumption.
  - destruct (Z.ltb_spec (default 0 (buf !! S e)) 57); cbn [carry_buf].
    + apply Hlow. assumption.
    + rewrite list_insert_insert_eq.
      destruct (Nat.leb_spec start e); cbn [carry_buf].
      * apply IH; [lia|]. apply Hhigh. assumption.
      * apply Hhigh. assumption.
Qed.

Lemma next_line_num_places l :
  line_num_end l = 17%nat -> (line_num_start l <= 17)%nat ->
  places_ok (line_num_start l) (line_buf l) ->
  places_ok (line_num_start (next_line_num l)) (line_buf (next_line_num l)).
Proof.
  intros Hend Hs Hl.
  pose proof (carry_loop_places (line_num_start l) (line_num_end l)
                (line_buf l) ltac:(lia) Hl) as Hk.
  unfold next_line_num.
  destruct (carry_loop (line_num_start l) (line_buf l) (line_num_end l))
    as [buf|buf]; cbn [carry_buf] in Hk; cbn [line_buf line_num_start].
  - exact Hk.
  - destruct (Nat.ltb_spec 0 (line_num_start l)).
    + intros j b Hj Hb.
      apply list_lookup_insert_Some in Hb as [(<- & <- & _)|(Hne & Hb)].
      * unfold place_ok. lia.
      * pose proof (Hk j b Hj Hb) as Hp. unfold place_ok in *. lia.
    + assert (E0 : line_num_start l = 0%nat) by lia. rewrite E0 in *.
      apply insert_place; [exact Hk|unfold place_ok; lia].
Qed.

Lemma after_places n :
  places_ok (line_num_start (after n initial)) (line_buf (after n initial)).
Proof.
  induction n as [|n IH].
  - intros i b Hi Hb. unfold place_ok.
    cbn [after initial line_buf line_num_start] in *.
    unfold LINE_COUNTER_BUF_LEN.
    do 18 (destruct i as [|i]; [injection Hb as <-; simpl; lia|]). lia.
  - cbn [after].
    destruct (after_kept n initial counter_ok_initial)
      as (_ & Hend & _ & Hs & _).
    apply next_line_num_places; assumption.
Qed.

(** X2: whatever the number of calls of [next_line_num], also past
    the overflow, the text copied for a line number is between six and
    eighteen bytes, each a blank, a digit or the overflow marker,
    followed by one tab: with its NUL it never takes more than the
    twenty bytes of [line_buf], and the tab and the NUL behind the
    digit places are never written over. *)
Theorem X2_line_number_text_is_bounded (n : nat) :
  counter_ok (after n initial) /\
  exists t,
    rendered (after n initial) = t ++ [9] /\
    (6 <= length t <= 18)%nat /\
    Forall (fun b => b = 32 \/ 48 <= b <= 57 \/ b = 62) t.
Proof.
  pose proof (after_kept n initial counter_ok_initial) as Hk.
  pose proof (after_places n) as Hplaces.
  split; [exact Hk|].
  exists (drop (line_num_print (after n initial))
            (take 18 (line_buf (after n initial)))).
  split; [apply rendered_kept; exact Hk|].
  destruct Hk as (Hlen & Hend & Hps & Hs & Hp & Hall & Htail).
  unfold LINE_COUNTER_BUF_LEN in Hlen.
  rewrite length_drop, length_take. split; [lia|].
  apply Forall_lookup. intros i b Hb.
  rewrite lookup_drop in Hb. apply lookup_take_Some in Hb as [Hb Hi].
  pose proof (Hplaces _ _ Hi Hb) as Hok. unfold place_ok in Hok. lia.
Qed.

End CounterKept.

(** ** The substituting copy loop on any bytes *)

Section SimpleMore.

Import Simple.

Lemma char_size_ranges c rest :
  0 <= c < 256 ->
  char_size (c :: rest) =
  if (c <? 0x80) || (0xC0 <=? c) && (c <=? 0xF7) then Ok (announced c)
  else Stop UnexpectedUtf8.
Proof.
  intros Hc.
  set (check := fun c =>
    match char_size [c] with
    | Ok n =>
        ((c <? 0x80) || (0xC0 <=? c) && (c <=? 0xF7))
        && (n =? announced c)%nat
    | Stop UnexpectedUtf8 =>
        negb ((c <? 0x80) || (0xC0 <=? c) && (c <=? 0xF7))
    | Stop _ => false
    end).
  assert (Hall : check c = true)
    by (apply byte_cases; [vm_compute; reflexivity|assumption]).
  subst check. cbv beta in Hall.
  change (char_size (c :: rest)) with (char_size [c]).
  destruct (char_size [c]) as [n|[]]; try discriminate.
  - apply andb_prop in Hall as [-> Hn]. apply Nat.eqb_eq in Hn. congruence.
  - apply negb_true_iff in Hall. rewrite Hall. reflexivity.
Qed.

(** X3: [char_size] by value rather than by mask: a byte below 0x80
    gives 1, one of 0xC0-0xDF gives 2, one of 0xE0-0xEF gives 3, one of
    0xF0-0xF7 gives 4, and every other byte value, that is 0x80-0xBF and
    0xF8-0xFF, ends the process with the UTF-8 diagnostic.  Only the
    byte under the pointer is looked at. *)
Theorem X3_char_size_by_value (c : Z) (rest : list Z) :
  0 <= c < 256 ->
  char_size (c :: rest) =
  if c <? 0x80 then Ok 1%nat
  else if c <? 0xC0 then Stop UnexpectedUtf8
  else if c <? 0xE0 then Ok 2%nat
  else if c <? 0xF0 then Ok 3%nat
  else if c <? 0xF8 then Ok 4%nat
  else Stop UnexpectedUtf8.
Proof.
  intros Hc. rewrite char_size_ranges by assumption. unfold announced.
  repeat match goal with |- context [Z.ltb ?a ?b] =>
    destruct (Z.ltb_spec a b) end;
  repeat match goal with |- context [Z.leb ?a ?b] =>
    destruct (Z.leb_spec a b) end;
  cbn [orb andb]; try reflexivity; lia.
Qed.

Lemma X3_char_size_by_value_witness :
  char_size (0xE2 :: [0x88; 0x80]) = Ok 3%nat.
Proof. apply (X3_char_size_by_value 0xE2 [0x88; 0x80]). lia. Defined.

(** The pointer of a lead byte, the length found under it and the
    bytes copied from it. *)
Lemma pointed_lead c rest :
  lead c ->
  exists n,
    char_size (pointed c rest) = Ok n /\
    (1 <= n <= 4)%nat /\
    ((3 <= length rest)%nat ->
     n = length (copied c rest) /\
     take n (pointed c rest) = copied c rest /\
     (n <= length (pointed c rest))%nat).
Proof.
  intros Hc. unfold copied.
  destruct (is_upper c || is_lower c) eqn:Hletter.
  - assert (Hp : plain c) by (unfold plain, is_upper, is_lower in *; lia).
    destruct (pointed_plain c rest Hp) as (H1 & H2 & H3 & _).
    exists (length (replacement c)). split; [exact H1|].
    split; [|auto].
    set (check := fun c =>
      if is_upper c || is_lower c
      then (1 <=? length (replacement c))%nat
           && (length (replacement c) <=? 4)%nat
      else true).
    assert (Hall : check c = true)
      by (apply byte_cases; [vm_compute; reflexivity|unfold plain in Hp; lia]).
    subst check. cbv beta in Hall. rewrite Hletter in Hall.
    apply andb_prop in Hall as [Ha Hb].
    apply Nat.leb_le in Ha, Hb. lia.
  - apply orb_false_elim in Hletter as [Hu Hl].
    unfold pointed. rewrite Hu, Hl.
    assert (Hb : 0 <= c < 256) by (unfold lead in Hc; lia).
    rewrite char_size_ranges by assumption.
    assert (Hn : (1 <= announced c <= 4)%nat).
    { unfold announced.
      repeat match goal with |- context [if ?b then _ else _] =>
        destruct b end; lia. }
    destruct ((c <? 0x80) || (0xC0 <=? c) && (c <=? 0xF7)) eqn:E;
      [|unfold lead in Hc; lia].
    exists (announced c). split; [reflexivity|]. split; [exact Hn|].
    intros Hrest. rewrite length_take. cbn [length]. repeat split; lia.
Qed.

Lemma count_loop_lead data : forall pre rest uclen,
  Forall lead data ->
  exists n,
    count_loop (pre ++ data ++ rest) (length data) (length pre) uclen
      = Ok (uclen + n)%nat /\
    ((3 <= length rest)%nat -> n = length (block_text data rest)).
Proof.
  induction data as [|c data IH]; intros pre rest uclen Hd.
  - exists 0%nat. split; [simpl; f_equal; lia|reflexivity].
  - apply Forall_cons in Hd as [Hc Hd].
    cbn [length count_loop app].
    rewrite select_pointed. cbn [bind].
    destruct (pointed_lead c (data ++ rest) Hc) as (n & -> & _ & Hn).
    cbn [bind].
    replace (pre ++ c :: data ++ rest) with ((pre ++ [c]) ++ data ++ rest)
      by (rewrite <- app_assoc; reflexivity).
    replace (S (length pre)) with (length (pre ++ [c]))
      by (rewrite length_app; simpl; lia).
    destruct (IH (pre ++ [c]) rest (uclen + n)%nat Hd) as (m & -> & Hm).
    exists (n + m)%nat. split; [f_equal; lia|].
    intros Hrest. cbn [block_text]. rewrite length_app.
    destruct Hn as (-> & _); [rewrite length_app; lia|].
    rewrite (Hm Hrest). reflexivity.
Qed.

Lemma copy_loop_lead uclen data : forall pre rest unibuf,
  Forall lead data -> (3 <= length rest)%nat ->
  (length unibuf + length (block_text data rest) <= uclen)%nat ->
  copy_loop uclen (pre ++ data ++ rest) (length data) (length pre) unibuf =
  Ok (unibuf ++ block_text data rest).
Proof.
  induction data as [|c data IH]; intros pre rest unibuf Hd Hrest Hlen.
  - simpl. rewrite app_nil_r. reflexivity.
  - apply Forall_cons in Hd as [Hc Hd].
    cbn [block_text] in *. rewrite length_app in Hlen.
    cbn [length copy_loop app].
    rewrite select_pointed. cbn [bind].
    destruct (pointed_lead c (data ++ rest) Hc) as (n & -> & _ & Hn).
    destruct Hn as (Hn & Ht & Hl); [rewrite length_app; lia|].
    cbn [bind].
    rewrite copy_char_take by lia. cbn [bind]. rewrite Ht.
    replace (pre ++ c :: data ++ rest) with ((pre ++ [c]) ++ data ++ rest)
      by (rewrite <- app_assoc; reflexivity).
    replace (S (length pre)) with (length (pre ++ [c]))
      by (rewrite length_app; simpl; lia).
    rewrite IH by (rewrite ?length_app; assumption || lia).
    rewrite <- app_assoc. reflexivity.
Qed.

(** X4: a block all of whose bytes are lead bytes, with three bytes
    or more of the buffer behind it: the two loops agree on the length,
    no store leaves [unibuf], and the one write holds, for each byte in
    turn, the table entry of a letter and otherwise the byte itself
    followed, when it is one of 0xC0-0xF7, by a copy of the one, two or
    three bytes that lie behind it in the buffer, which are then treated
    again in their own turn. *)
Theorem X4_block_of_lead_bytes (data rest : list Z) :
  Forall lead data -> (3 <= length rest)%nat ->
  block (data ++ rest) (length data) = Ok (block_text data rest).
Proof.
  intros Hd Hrest. unfold block.
  destruct (count_loop_lead data [] rest 0 Hd) as (n & H1 & Hn).
  cbn [app length] in H1. rewrite H1. cbn [bind].
  rewrite (Hn Hrest).
  pose proof (copy_loop_lead (0 + length (block_text data rest)) data
                [] rest [] Hd Hrest ltac:(simpl; lia)) as H2.
  cbn [app length] in H2. rewrite H2. cbn [bind].
  rewrite Nat.eqb_refl. reflexivity.
Qed.

Lemma X4_block_of_lead_bytes_witness :
  block ([0xE2; 65; 0xC3; 33] ++ [7; 8; 9]) (length [0xE2; 65; 0xC3; 33])
  = Ok [0xE2; 65; 0xC3; 0xe2; 0x88; 0x80; 0xC3; 33; 33].
Proof.
  apply (X4_block_of_lead_bytes [0xE2; 65; 0xC3; 33] [7; 8; 9]).
  - repeat constructor; unfold lead; lia.
  - simpl. lia.
Defined.

Lemma block_text_app d1 : forall d2 rest,
  block_text (d1 ++ d2) rest = block_text d1 (d2 ++ rest) ++ block_text d2 rest.
Proof.
  induction d1 as [|c d1 IH]; intros d2 rest; [reflexivity|].
  cbn [app block_text]. rewrite IH, <- !app_assoc. reflexivity.
Qed.

(** X5: a block whose last byte is one of 0xC0-0xF7: the write ends
    with that byte and one, two or three bytes more, which were not
    read with this block but lay behind it in the buffer. *)
Theorem X5_bytes_behind_the_block_are_written (data : list Z) (c : Z)
    (stale : list Z) :
  Forall lead data -> 0xC0 <= c <= 0xF7 -> (3 <= length stale)%nat ->
  block ((data ++ [c]) ++ stale) (length (data ++ [c])) =
    Ok (block_text data (c :: stale)
        ++ c :: take (announced c - 1) stale) /\
  (1 <= announced c - 1 <= 3)%nat.
Proof.
  intros Hd Hc Hs. split.
  - assert (Hall : Forall lead (data ++ [c])).
    { apply Forall_app. split; [assumption|].
      constructor; [unfold lead; lia|constructor]. }
    unfold block.
    destruct (count_loop_lead (data ++ [c]) [] stale 0 Hall) as (n & H1 & Hn).
    cbn [app length] in H1. rewrite H1. cbn [bind]. rewrite (Hn Hs).
    pose proof (copy_loop_lead (0 + length (block_text (data ++ [c]) stale))
                  (data ++ [c]) [] stale [] Hall Hs ltac:(simpl; lia)) as H2.
    cbn [app length] in H2. rewrite H2. cbn [bind]. rewrite Nat.eqb_refl.
    f_equal.
    rewrite block_text_app. cbn [app block_text]. f_equal.
    unfold copied, is_upper, is_lower.
    destruct (Z.leb_spec 65 c); [|lia]. destruct (Z.leb_spec c 90); [lia|].
    destruct (Z.leb_spec 97 c); [|lia]. destruct (Z.leb_spec c 122); [lia|].
    cbn [andb orb]. rewrite app_nil_r.
    assert (Hlen : (2 <= announced c)%nat).
    { unfold announced.
      repeat match goal with |- context [if ?b then _ else _] =>
        destruct b eqn:? end; lia. }
    destruct (announced c) as [|m]; [lia|].
    cbn [take]. f_equal. f_equal. lia.
  - unfold announced.
    repeat match goal with |- context [if ?b then _ else _] =>
      destruct b eqn:? end; lia.
Qed.

Lemma X5_bytes_behind_the_block_are_written_witness :
  block (([97] ++ [0xE1]) ++ [1; 2; 3]) (length ([97] ++ [0xE1])) =
    Ok (block_text [97] (0xE1 :: [1; 2; 3])
        ++ 0xE1 :: take (announced 0xE1 - 1) [1; 2; 3]) /\
  (1 <= announced 0xE1 - 1 <= 3)%nat.
Proof.
  apply (X5_bytes_behind_the_block_are_written [97] 0xE1 [1; 2; 3]).
  - repeat constructor. unfold lead. lia.
  - lia.
  - simpl. lia.
Defined.

Lemma block_plain (data rest : list Z) :
  Forall plain data ->
  block (data ++ rest) (length data) = Ok (flat_map replacement data).
Proof.
  intros Hd. unfold block.
  pose proof (count_loop_plain data [] rest 0 Hd) as H1.
  cbn [app length] in H1. rewrite H1. cbn [bind].
  pose proof (copy_loop_plain (0 + length (flat_map replacement data)) data
                [] rest [] Hd ltac:(simpl; lia)) as H2.
  cbn [app length] in H2. rewrite H2. cbn [bind].
  rewrite Nat.eqb_refl. reflexivity.
Qed.

Lemma forallb_Forall {A} (f : A -> bool) (P : A -> Prop) l :
  (forall x, f x = true -> P x) -> forallb f l = true -> Forall P l.
Proof.
  intros Hf. induction l as [|x l IH]; cbn [forallb]; [constructor|].
  intros H. apply andb_prop in H as [Hx Hl]. constructor; auto.
Qed.

(** The replacement of an ASCII byte is one character: a lead byte,
    the continuation bytes it announces, and no filler. *)
Lemma replacement_shape c :
  plain c ->
  exists h tail,
    replacement c = h :: tail /\ lead h /\
    length tail = pred (announced h) /\ Forall continuation tail /\
    Forall (fun b => b <> 0xff) (h :: tail).
Proof.
  intros Hc.
  set (check := fun c =>
    (128 <=? c) ||
    match replacement c with
    | [] => false
    | h :: tail =>
        ((0 <=? h) && (h <? 0x80) || (0xC0 <=? h) && (h <=? 0xF7))
        && (length tail =? pred (announced h))%nat
        && forallb (fun b => (0x80 <=? b) && (b <=? 0xBF)) tail
        && forallb (fun b => negb (b =? 0xff)) (h :: tail)
    end).
  assert (Hall : check c = true)
    by (apply byte_cases; [vm_compute; reflexivity|unfold plain in Hc; lia]).
  subst check. cbv beta in Hall.
  destruct (Z.leb_spec 128 c); [unfold plain in Hc; lia|].
  cbn [orb] in Hall.
  destruct (replacement c) as [|h tail]; [discriminate|].
  apply andb_prop in Hall as [Hall H4]. apply andb_prop in Hall as [Hall H3].
  apply andb_prop in Hall as [H1 H2].
  exists h, tail. split; [reflexivity|]. repeat split.
  - unfold lead. lia.
  - apply Nat.eqb_eq. exact H2.
  - revert H3. apply forallb_Forall. unfold continuation. intros b Hb. lia.
  - revert H4. apply forallb_Forall. intros b Hb. lia.
Qed.

Lemma replacement_length c :
  plain c -> (1 <= length (replacement c) <= 4)%nat.
Proof.
  intros Hc. destruct (replacement_shape c Hc) as (h & tail & -> & _ & Ht & _).
  cbn [length]. rewrite Ht. unfold announced.
  repeat match goal with |- context [if ?b then _ else _] =>
    destruct b end; simpl; lia.
Qed.

Lemma replacement_scalar c : plain c -> scalar (replacement c) = true.
Proof.
  intros Hc.
  set (check := fun c => (128 <=? c) || scalar (replacement c)).
  assert (Hall : check c = true)
    by (apply byte_cases; [vm_compute; reflexivity|unfold plain in Hc; lia]).
  subst check. cbv beta in Hall.
  destruct (Z.leb_spec 128 c); [unfold plain in Hc; lia|exact Hall].
Qed.

Lemma substitution_utf8 data :
  Forall plain data ->
  well_formed (flat_map replacement data) /\
  Forall (fun b => b <> 0xff) (flat_map replacement data) /\
  (length data <= length (flat_map replacement data) <= 4 * length data)%nat.
Proof.
  induction 1 as [|c data Hc Hd (IH1 & IH2 & IH3)].
  - repeat split; try constructor; simpl; lia.
  - cbn [flat_map]. pose proof (replacement_length c Hc) as Hlen.
    pose proof (replacement_scalar c Hc) as Hsc.
    destruct (replacement_shape c Hc) as (h & tail & Hr & Hh & Ht & Hcont & Hff).
    rewrite Hr in *. repeat split.
    + constructor; assumption.
    + apply Forall_app. split; assumption.
    + rewrite length_app. cbn [length] in *. lia.
    + rewrite length_app. cbn [length] in *. lia.
Qed.

(** X7: for a block of ASCII bytes the write is well-formed UTF-8:
    a sequence of characters, each in one of the byte sequences that
    the Unicode standard admits (no overlong form, no surrogate,
    nothing past U+10FFFF); the filler byte 0xff of the tables is never
    written, and the write has between one and four bytes for each byte
    read. *)
Theorem X7_ascii_block_gives_utf8 (data rest : list Z) :
  Forall plain data ->
  exists out,
    block (data ++ rest) (length data) = Ok out /\
    well_formed out /\
    Forall (fun b => b <> 0xff) out /\
    (length data <= length out <= 4 * length data)%nat.
Proof.
  intros Hd. exists (flat_map replacement data).
  split; [apply block_plain; exact Hd|].
  apply substitution_utf8. exact Hd.
Qed.

Lemma X7_ascii_block_gives_utf8_witness :
  exists out,
    block ([66; 121; 101; 10] ++ [0]) (length [66; 121; 101; 10]) = Ok out /\
    well_formed out /\
    Forall (fun b => b <> 0xff) out /\
    (length [66; 121; 101; 10] <= length out
     <= 4 * length [66; 121; 101; 10])%nat.
Proof.
  apply (X7_ascii_block_gives_utf8 [66; 121; 101; 10] [0]).
  repeat constructor; unfold plain; lia.
Defined.

Lemma replacement_inj c1 c2 :
  plain c1 -> plain c2 -> replacement c1 = replacement c2 -> c1 = c2.
Proof.
  intros H1 H2 Heq.
  set (check := fun c1 =>
    (128 <=? c1) ||
    forallb (fun c2 =>
               negb (bool_decide (replacement c1 = replacement c2))
               || (c1 =? c2))
            (map Z.of_nat (seq 0 128))).
  assert (Hall : check c1 = true)
    by (apply byte_cases; [vm_compute; reflexivity|unfold plain in H1; lia]).
  subst check. cbv beta in Hall.
  destruct (Z.leb_spec 128 c1); [unfold plain in H1; lia|].
  cbn [orb] in Hall. rewrite forallb_forall in Hall.
  specialize (Hall c2).
  rewrite (bool_decide_eq_true_2 _ Heq) in Hall. cbn [negb orb] in Hall.
  apply Z.eqb_eq, Hall.
  apply in_map_iff. exists (Z.to_nat c2). unfold plain in H2.
  split; [lia|]. apply in_seq. lia.
Qed.

Lemma substitution_inj d1 : forall d2,
  Forall plain d1 -> Forall plain d2 ->
  flat_map replacement d1 = flat_map replacement d2 -> d1 = d2.
Proof.
  induction d1 as [|c1 d1 IH]; intros d2 H1 H2 Heq.
  - destruct d2 as [|c2 d2]; [reflexivity|].
    apply Forall_cons in H2 as [Hc2 _].
    destruct (replacement_shape c2 Hc2) as (h & tail & Hr & _).
    cbn [flat_map] in Heq. rewrite Hr in Heq. discriminate.
  - apply Forall_cons in H1 as [Hc1 H1].
    destruct (replacement_shape c1 Hc1) as (h1 & t1 & Hr1 & _ & Ht1 & _).
    destruct d2 as [|c2 d2].
    { cbn [flat_map] in Heq. rewrite Hr1 in Heq. discriminate. }
    apply Forall_cons in H2 as [Hc2 H2].
    destruct (replacement_shape c2 Hc2) as (h2 & t2 & Hr2 & _ & Ht2 & _).
    cbn [flat_map] in Heq. pose proof Heq as Heq'.
    rewrite Hr1, Hr2 in Heq'. cbn [app] in Heq'.
    injection Heq' as Hh Htail. subst h2.
    apply app_inj_1 in Htail as [Ht Hrest]; [|congruence].
    subst t2. f_equal.
    + apply replacement_inj; [assumption..|congruence].
    + apply IH; assumption.
Qed.

(** X8: on ASCII input the substitution loses nothing: two blocks of
    ASCII bytes that give the same write are the same block. *)
Theorem X8_ascii_substitution_is_injective (d1 d2 r1 r2 : list Z) :
  Forall plain d1 -> Forall plain d2 ->
  block (d1 ++ r1) (length d1) = block (d2 ++ r2) (length d2) ->
  d1 = d2.
Proof.
  intros H1 H2. rewrite !block_plain by assumption.
  intros Heq. injection Heq as Heq.
  apply substitution_inj; assumption.
Qed.

Lemma X8_ascii_substitution_is_injective_witness :
  [98; 113] = [98; 113].
Proof.
  apply (X8_ascii_substitution_is_injective [98; 113] [98; 113] [1] [2]).
  - repeat constructor; unfold plain; lia.
  - repeat constructor; unfold plain; lia.
  - reflexivity.
Defined.

(** The reads of a file that bring ASCII bytes: each gives one write,
    and [simple_cat] goes on with what follows. *)
Lemma simple_cat_plain datas : forall tail buf written,
  Forall (fun d => d <> [] /\ Forall plain d) datas ->
  exists buf',
    simple_cat (map ReadOk datas ++ tail) buf written =
    simple_cat tail buf' (written ++ map (flat_map replacement) datas).
Proof.
  induction datas as [|d datas IH]; intros tail buf written Hall.
  - exists buf. cbn [map app]. rewrite app_nil_r. reflexivity.
  - apply Forall_cons in Hall as [[Hne Hd] Hall].
    destruct d as [|x d]; [congruence|].
    cbn [map].
    change ((ReadOk (x :: d) :: map ReadOk datas) ++ tail)
      with (ReadOk (x :: d) :: (map ReadOk datas ++ tail)).
    cbn [simple_cat].
    rewrite block_plain by assumption.
    destruct (IH tail ((x :: d) ++ drop (length (x :: d)) buf)
                (written ++ [flat_map replacement (x :: d)]) Hall)
      as (buf' & ->).
    exists buf'. rewrite <- app_assoc. reflexivity.
Qed.

Lemma flat_map_concat {A B} (f : A -> list B) ls :
  concat (map (flat_map f) ls) = flat_map f (concat ls).
Proof.
  induction ls as [|l ls IH]; [reflexivity|].
  cbn [map concat]. rewrite IH, flat_map_app. reflexivity.
Qed.

(** X9: a file of ASCII bytes, read in any blocks: [simple_cat] makes
    one write for each read, returns true at the end of the file
    without reading further, and the bytes written are the replacements
    of the bytes of the file in order, wherever the blocks were cut. *)
Theorem X9_ascii_file_is_substituted (datas : list (list Z))
    (later : list read_result) (buf : list Z) (written : list (list Z)) :
  Forall (fun d => d <> [] /\ Forall plain d) datas ->
  simple_cat (map ReadOk datas ++ ReadOk [] :: later) buf written
    = (written ++ map (flat_map replacement) datas, Returned true) /\
  concat (map (flat_map replacement) datas)
    = flat_map replacement (concat datas).
Proof.
  intros Hall. split; [|apply flat_map_concat].
  destruct (simple_cat_plain datas (ReadOk [] :: later) buf written Hall)
    as (buf' & ->).
  reflexivity.
Qed.

Lemma X9_ascii_file_is_substituted_witness :
  simple_cat (map ReadOk [[72; 105]; [33]] ++ ReadOk [] :: [ReadOk [65]])
    [0; 0; 0; 0] []
    = ([] ++ map (flat_map replacement) [[72; 105]; [33]], Returned true) /\
  concat (map (flat_map replacement) [[72; 105]; [33]])
    = flat_map replacement (concat [[72; 105]; [33]]).
Proof.
  apply (X9_ascii_file_is_substituted [[72; 105]; [33]] [ReadOk [65]]
           [0; 0; 0; 0] []).
  repeat constructor; try discriminate; unfold plain; lia.
Defined.

(** X10: when a read fails, [simple_cat] returns false at once: the
    writes for the blocks read before stay, nothing more is written and
    no further read is made. *)
Theorem X10_read_error_ends_the_copy (datas : list (list Z))
    (later : list read_result) (buf : list Z) (written : list (list Z)) :
  Forall (fun d => d <> [] /\ Forall plain d) datas ->
  simple_cat (map ReadOk datas ++ ReadFailed :: later) buf written
    = (written ++ map (flat_map replacement) datas, Returned false).
Proof.
  intros Hall.
  destruct (simple_cat_plain datas (ReadFailed :: later) buf written Hall)
    as (buf' & ->).
  reflexivity.
Qed.

Lemma X10_read_error_ends_the_copy_witness :
  simple_cat (map ReadOk [[72; 105]] ++ ReadFailed :: [ReadOk [65]])
    [0; 0; 0; 0] []
    = ([] ++ map (flat_map replacement) [[72; 105]], Returned false).
Proof.
  apply (X10_read_error_ends_the_copy [[72; 105]] [ReadOk [65]]
           [0; 0; 0; 0] []).
  repeat constructor; try discriminate; unfold plain; lia.
Defined.

End SimpleMore.

(** ** The line engine: what it writes for whole lines *)

Section EngineLines.

Import Engine.

Lemma chunk_text_line o l rest nl c :
  unbroken l ->
  chunk_text o (l ++ 10 :: rest) nl c =
  let '(t1, nl1, c1) := body_text o l nl c in
  let '(t2, nl2, c2) := eol_text o nl1 c1 in
  let '(t3, nl3, c3) := chunk_text o rest nl2 c2 in
  (t1 ++ t2 ++ t3, nl3, c3).
Proof.
  intros Hl. unfold chunk_text. rewrite split_lines_app by assumption.
  destruct (split_lines_cons rest) as (l' & ls' & ->).
  cbn [lines_text].
  destruct (body_text o l nl c) as [[t1 nl1] c1].
  destruct (eol_text o nl1 c1) as [[t2 nl2] c2].
  destruct (body_text o l' nl2 c2) as [[t3 nl3] c3].
  destruct (lines_text o ls' nl3 c3) as [[t4 nl4] c4].
  reflexivity.
Qed.

Lemma blank_after_cons b l ls :
  blank_after b (l :: ls) = blank_after (is_blank l) ls.
Proof.
  unfold blank_after. destruct ls as [|l' ls]; [reflexivity|].
  change (last (l :: l' :: ls)) with (last (l' :: ls)).
  destruct (last (l' :: ls)) eqn:E; [reflexivity|].
  apply last_None in E. discriminate.
Qed.

(** The lines of a read that ends with a newline, from the start of a
    line: each line is squeezed, numbered and ended by its own
    rule. *)
Lemma chunk_text_whole_lines o ls : forall nl c,
  0 <= nl -> Forall unbroken ls ->
  let kept := if squeeze_blank o then squeezed (1 <=? nl) ls else ls in
  exists nl',
    chunk_text o (with_newlines ls) nl c =
      ((numbered_text o c kept).1, nl', (numbered_text o c kept).2) /\
    0 <= nl' /\ (1 <=? nl') = blank_after (1 <=? nl) ls.
Proof.
  induction ls as [|l ls IH]; intros nl c Hnl Hls; cbv zeta.
  - exists nl. destruct (squeeze_blank o); cbn; auto.
  - apply Forall_cons in Hls as [Hl Hls].
    rewrite with_newlines_cons, chunk_text_line by assumption.
    rewrite blank_after_cons.
    destruct l as [|ch l].
    + (* an empty line *)
      cbn [body_text]. unfold eol_text.
      destruct (Z.ltb_spec 0 (nl + 1)); [|lia].
      set (n' := if 2 <=? nl + 1 then 2 else nl + 1).
      assert (Hn' : 1 <= n') by (subst n'; destruct (Z.leb_spec 2 (nl + 1)); lia).
      destruct (IH n' c ltac:(lia) Hls) as (nl1 & He1 & Hnl1 & Hb1).
      destruct (IH n' (next_line_num c) ltac:(lia) Hls)
        as (nl2 & He2 & Hnl2 & Hb2).
      cbv zeta in He1, He2.
      assert (Hone : (1 <=? n') = true) by (apply Z.leb_le; lia).
      rewrite Hone in *. cbn [is_blank].
      destruct (squeeze_blank o) eqn:Hs.
      * cbn [squeezed is_blank].
        destruct (Z.leb_spec 2 (nl + 1)); cbn [andb].
        -- destruct (Z.leb_spec 1 nl); [|lia].
           rewrite He1. exists nl1. auto.
        -- destruct (Z.leb_spec 1 nl); [lia|].
           cbn [numbered_text]. unfold gets_number. cbn [is_blank andb].
           destruct (number o && negb (number_nonblank o)) eqn:Hn.
           ++ rewrite He2. exists nl2.
              destruct (numbered_text o (next_line_num c) (squeezed true ls)).
              cbn [fst snd line_text app]. rewrite <- !app_assoc. auto.
           ++ rewrite He1. exists nl1.
              destruct (numbered_text o c (squeezed true ls)).
              cbn [fst snd line_text app]. auto.
      * rewrite andb_false_r.
        cbn [numbered_text]. unfold gets_number. cbn [is_blank andb].
        destruct (number o && negb (number_nonblank o)) eqn:Hn.
        -- rewrite He2. exists nl2.
           destruct (numbered_text o (next_line_num c) ls).
           cbn [fst snd line_text app]. rewrite <- !app_assoc. auto.
        -- rewrite He1. exists nl1.
           destruct (numbered_text o c ls).
           cbn [fst snd line_text app]. auto.
    + (* a line with bytes *)
      rewrite body_text_line by discriminate.
      destruct (Z.leb_spec 0 nl); [|lia]. cbn [andb].
      unfold eol_text. change (0 <? -1 + 1) with false. cbv iota.
      change (-1 + 1) with 0.
      set (c1 := if number o then next_line_num c else c).
      destruct (IH 0 c1 ltac:(lia) Hls) as (nl1 & He1 & Hnl1 & Hb1).
      cbv zeta in He1. change (1 <=? 0) with false in *.
      rewrite He1. exists nl1. cbn [is_blank].
      split; [|auto].
      assert (Hkept :
        (if squeeze_blank o then squeezed (1 <=? nl) ((ch :: l) :: ls)
         else (ch :: l) :: ls)
        = (ch :: l) :: (if squeeze_blank o then squeezed false ls else ls)).
      { destruct (squeeze_blank o); reflexivity. }
      rewrite Hkept. cbn [numbered_text]. unfold gets_number.
      cbn [is_blank andb negb]. rewrite andb_true_r. fold c1.
      destruct (numbered_text o c1
                  (if squeeze_blank o then squeezed false ls else ls)).
      cbn [fst snd]. subst c1. destruct (number o);
        rewrite <- ?app_assoc; reflexivity.
Qed.

(** X11: a file whose bytes are the lines [ls], each ended by its
    newline, read in any pieces from the start of a line: [cat] writes
    the lines in order, leaving out with [squeeze_blank] every empty line
    that follows an empty line, and giving each line that is left its
    number (every line with [number], but no empty line with
    [number_nonblank]), its text and its end; the counter it leaves
    has counted the numbered lines, and [newlines2] tells whether the
    last line was empty. *)
Theorem X11_whole_lines_squeezed_and_numbered insize outsize o script ls
    nl c :
  (1 <= outsize)%nat -> 0 <= nl ->
  Forall (good_event insize) script ->
  Forall unbroken ls -> concat (script_data script) = with_newlines ls ->
  show_nonprinting o = true \/ show_ends o = false \/
    Forall (fun d => last d <> Some 13) (script_data script) ->
  numbers_fit o c (script_length script) ->
  let kept := if squeeze_blank o then squeezed (1 <=? nl) ls else ls in
  exists nl' out,
    cat (outbuf_size insize outsize) outsize o script nl c
      = Return true nl' (numbered_text o c kept).2 out /\
    concat out = (numbered_text o c kept).1 /\
    0 <= nl' /\ (1 <=? nl') = blank_after (1 <=? nl) ls.
Proof.
  intros Hpos Hnl Hgood Hls Hdata Hseams Hfit kept.
  destruct (cat_main_text insize outsize o script nl c)
    as (out & Hcat & Hout); [assumption|assumption| |].
  { apply (numbers_fit_le _ _ _ _ Hfit). apply chunks_calls_bytes. }
  rewrite chunks_text_concat in Hcat, Hout by (apply seams_options; exact Hseams).
  rewrite Hdata in Hcat, Hout.
  destruct (chunk_text_whole_lines o ls nl c Hnl Hls) as (nl' & He & Hnl' & Hb).
  cbv zeta in He. fold kept in He. rewrite He in Hcat, Hout.
  exists nl', out. auto.
Qed.

Lemma X11_whole_lines_squeezed_and_numbered_witness :
  let o := {| show_nonprinting := false; show_tabs := false; number := true;
              number_nonblank := false; show_ends := true;
              squeeze_blank := true |} in
  let ls := [[97]; []; []; [98]] in
  let kept := if squeeze_blank o then squeezed (1 <=? 0) ls else ls in
  exists nl' out,
    cat (outbuf_size 4 4) 4 o [got [97; 10; 10]; got [10; 98; 10]] 0 initial
      = Return true nl' (numbered_text o initial kept).2 out /\
    concat out = (numbered_text o initial kept).1 /\
    0 <= nl' /\ (1 <=? nl') = blank_after (1 <=? 0) ls.
Proof.
  intros o ls.
  apply (X11_whole_lines_squeezed_and_numbered 4 4 o
           [got [97; 10; 10]; got [10; 98; 10]] ls 0 initial).
  - lia.
  - lia.
  - repeat constructor; try discriminate;
      eexists; repeat split; simpl; try discriminate; lia.
  - repeat constructor; lia.
  - reflexivity.
  - right. right. repeat constructor; discriminate.
  - apply numbers_fit_initial. vm_compute. reflexivity.
Defined.

Lemma chunks_text_fit o chunks : forall nl c m,
  numbers_fit o c (chunks_calls o chunks nl c + m) ->
  numbers_fit o (chunks_text o chunks nl c).2 m.
Proof.
  induction chunks as [|d chunks IH]; intros nl c m Hfit; [exact Hfit|].
  cbn [chunks_text chunks_calls] in *.
  destruct (chunk_text o d nl c) as [[t1 nl1] c1] eqn:Hd.
  specialize (IH nl1 c1 m).
  destruct (chunks_text o chunks nl1 c1) as [[t2 nl2] c2].
  cbn [snd] in *. apply IH.
  apply (chunk_text_fit o d nl c _ t1 nl1 c1 Hd).
  rewrite Nat.add_assoc. exact Hfit.
Qed.

Lemma chunks_calls_app o A : forall B nl c,
  chunks_calls o (A ++ B) nl c =
  (chunks_calls o A nl c
   + chunks_calls o B (chunks_text o A nl c).1.2 (chunks_text o A nl c).2)%nat.
Proof.
  induction A as [|d A IH]; intros B nl c; [reflexivity|].
  cbn [app chunks_calls chunks_text].
  destruct (chunk_text o d nl c) as [[t1 nl1] c1].
  rewrite IH.
  destruct (chunks_text o A nl1 c1) as [[t2 nl2] c2].
  cbn [fst snd]. lia.
Qed.

Lemma good_event_le insize insize' ev :
  (insize <= insize')%nat -> good_event insize ev -> good_event insize' ev.
Proof.
  intros Hle [Hio (data & Hrd & Hne & Hlen)].
  split; [assumption|]. exists data. repeat split; (assumption || lia).
Qed.

(** The files of [main] one after the other: the bytes written are
    the text of all the reads in a row. *)
Lemma cat_files_text outsize o files : forall ok nl c acc,
  (1 <= outsize)%nat ->
  Forall (fun f => Forall (good_event f.1) f.2) files ->
  numbers_fit o c
    (chunks_calls o (script_data (concat (map snd files))) nl c) ->
  let all := chunks_text o (script_data (concat (map snd files))) nl c in
  exists out,
    cat_files outsize o files ok nl c acc
      = Return ok all.1.2 all.2 (acc ++ out) /\
    concat out = all.1.1.
Proof.
  induction files as [|[insize script] files IH];
    intros ok nl c acc Hpos Hgood Hfit; cbv zeta.
  - exists []. cbn. rewrite app_nil_r. auto.
  - apply Forall_cons in Hgood as [Hg Hgood]. cbn [fst snd] in Hg.
    cbn [map concat snd] in *.
    rewrite script_data_app in *.
    rewrite chunks_calls_app in Hfit. rewrite chunks_text_app.
    destruct (cat_main_text insize outsize o script nl c Hpos Hg)
      as (out1 & Hcat & Hout1).
    { apply (numbers_fit_le _ _ _ _ Hfit). lia. }
    pose proof (chunks_text_fit o (script_data script) nl c _ Hfit) as Hfit1.
    cbn [cat_files]. rewrite Hcat.
    destruct (chunks_text o (script_data script) nl c) as [[t1 nl1] c1].
    cbn [fst snd] in *.
    destruct (IH (ok && true) nl1 c1 (acc ++ out1) Hpos Hgood Hfit1)
      as (out2 & -> & Hout2).
    cbv zeta in Hout2.
    destruct (chunks_text o (script_data (concat (map snd files))) nl1 c1)
      as [[t2 nl2] c2].
    cbn [fst snd] in *.
    exists (out1 ++ out2). rewrite andb_true_r, <- app_assoc.
    split; [reflexivity|]. rewrite concat_app, Hout1, Hout2. reflexivity.
Qed.

(** X12: several files given to [cat] one after the other, with
    [newlines2] and the line counter carried from each to the next, give
    the bytes that one file with all their reads, one after the other,
    gives, and leave the same count of blank lines and the same line
    counter: numbering and squeezing run on across the files. *)
Theorem X12_files_in_a_row_are_one_file outsize o files insize nl c :
  (1 <= outsize)%nat ->
  Forall (fun f => Forall (good_event f.1) f.2 /\ (f.1 <= insize)%nat) files ->
  numbers_fit o c (script_length (concat (map snd files))) ->
  exists nl' c' out out',
    cat_files outsize o files true nl c [] = Return true nl' c' out /\
    cat (outbuf_size insize outsize) outsize o (concat (map snd files)) nl c
      = Return true nl' c' out' /\
    concat out = concat out'.
Proof.
  intros Hpos Hfiles Hfit.
  assert (Hcalls : numbers_fit o c
            (chunks_calls o (script_data (concat (map snd files))) nl c)).
  { apply (numbers_fit_le _ _ _ _ Hfit). apply chunks_calls_bytes. }
  destruct (cat_files_text outsize o files true nl c [] Hpos) as (out & Hrun & Hout).
  { eapply Forall_impl; [exact Hfiles|]. intros f [Hf _]. exact Hf. }
  { exact Hcalls. }
  destruct (cat_main_text insize outsize o (concat (map snd files)) nl c Hpos)
    as (out' & Hone & Hout').
  { clear -Hfiles. induction Hfiles as [|[i s] files [Hg Hle] _ IH];
      [constructor|].
    cbn [map concat snd fst] in *. apply Forall_app. split; [|exact IH].
    eapply Forall_impl; [exact Hg|]. intros ev. apply good_event_le. exact Hle. }
  { exact Hcalls. }
  cbv zeta in Hrun, Hout. cbn [app] in Hrun.
  eexists _, _, out, out'. split; [exact Hrun|]. split; [exact Hone|].
  congruence.
Qed.

Lemma X12_files_in_a_row_are_one_file_witness :
  let o := {| show_nonprinting := false; show_tabs := false; number := true;
              number_nonblank := false; show_ends := false;
              squeeze_blank := true |} in
  let files := [(2%nat, [got [97; 10]; got [10]]); (3%nat, [got [10; 98; 10]])] in
  exists nl' c' out out',
    cat_files 4 o files true 0 initial [] = Return true nl' c' out /\
    cat (outbuf_size 3 4) 4 o (concat (map snd files)) 0 initial
      = Return true nl' c' out' /\
    concat out = concat out'.
Proof.
  intros o files.
  apply (X12_files_in_a_row_are_one_file 4 o files 3 0 initial).
  - lia.
  - repeat constructor; try discriminate; simpl; try lia;
      eexists; repeat split; simpl; try discriminate; lia.
  - apply numbers_fit_initial. vm_compute. reflexivity.
Defined.

Lemma squeezed_again b ls : squeezed b (squeezed b ls) = squeezed b ls.
Proof.
  revert b. induction ls as [|l ls IH]; intros b; [reflexivity|].
  cbn [squeezed]. destruct (is_blank l) eqn:Hl.
  - destruct b; [apply IH|].
    cbn [squeezed]. rewrite Hl, IH. reflexivity.
  - cbn [squeezed]. rewrite Hl, IH. reflexivity.
Qed.

Lemma squeezed_unbroken b ls :
  Forall unbroken ls -> Forall unbroken (squeezed b ls).
Proof.
  intros Hls. revert b. induction Hls as [|l ls Hl _ IH]; intros b;
    [constructor|].
  cbn [squeezed]. destruct (is_blank l); [destruct b|];
    try constructor; auto.
Qed.

Lemma line_text_unchanged o l :
  show_nonprinting o = false -> show_tabs o = false -> show_ends o = false ->
  line_text o l = l.
Proof.
  intros Hv Ht He. induction l as [|ch l IH]; [reflexivity|].
  cbn [line_text]. rewrite Hv, IH. unfold plain_text.
  rewrite Ht, He, !andb_false_r. reflexivity.
Qed.

Lemma numbered_text_unchanged o c ls :
  show_nonprinting o = false -> show_tabs o = false -> show_ends o = false ->
  number o = false ->
  numbered_text o c ls = (with_newlines ls, c).
Proof.
  intros Hv Ht He Hn. induction ls as [|l ls IH]; [reflexivity|].
  cbn [numbered_text]. unfold gets_number. rewrite Hn. cbn [andb].
  rewrite IH, with_newlines_cons, line_text_unchanged by assumption.
  unfold end_mark. rewrite He. reflexivity.
Qed.

(** X27: squeezing twice is squeezing once: with [squeeze_blank] as
    the only option set, what [cat] writes for a file of whole lines,
    given to [cat] again as the input of a new process, is written out
    unchanged. *)
Theorem X27_squeezing_again_changes_nothing insize outsize insize2 outsize2
    o script script2 ls :
  (1 <= outsize)%nat -> (1 <= outsize2)%nat ->
  show_nonprinting o = false -> show_tabs o = false -> show_ends o = false ->
  number o = false -> squeeze_blank o = true ->
  Forall (good_event insize) script ->
  Forall unbroken ls -> concat (script_data script) = with_newlines ls ->
  Forall (good_event insize2) script2 ->
  output (cat (outbuf_size insize outsize) outsize o script 0 initial)
    = Some (concat (script_data script2)) ->
  output (cat (outbuf_size insize2 outsize2) outsize2 o script2 0 initial)
    = Some (concat (script_data script2)).
Proof.
  intros Hpos Hpos2 Hv Ht He Hn Hs Hgood Hls Hdata Hgood2 Hfirst.
  assert (Hrun : forall i k sc l0,
            (1 <= k)%nat -> Forall (good_event i) sc -> Forall unbroken l0 ->
            concat (script_data sc) = with_newlines l0 ->
            output (cat (outbuf_size i k) k o sc 0 initial)
            = Some (with_newlines (squeezed false l0))).
  { intros i k sc l0 Hk Hg Hl0 Hd.
    destruct (cat_main_text i k o sc 0 initial Hk Hg) as (out0 & -> & Hout0).
    { apply numbers_fit_unnumbered. exact Hn. }
    cbn [output]. rewrite Hout0.
    rewrite chunks_text_concat by (apply seams_options; auto).
    rewrite Hd.
    destruct (chunk_text_whole_lines o l0 0 initial ltac:(lia) Hl0)
      as (nl0 & -> & _).
    rewrite Hs. change (1 <=? 0) with false. cbn [fst].
    rewrite numbered_text_unchanged by assumption. reflexivity. }
  rewrite (Hrun insize outsize script ls Hpos Hgood Hls Hdata) in Hfirst.
  injection Hfirst as Hfirst.
  rewrite (Hrun insize2 outsize2 script2 (squeezed false ls) Hpos2 Hgood2
             (squeezed_unbroken false ls Hls) (eq_sym Hfirst)).
  rewrite squeezed_again. congruence.
Qed.

Lemma X27_squeezing_again_changes_nothing_witness :
  let o := {| show_nonprinting := false; show_tabs := false; number := false;
              number_nonblank := false; show_ends := false;
              squeeze_blank := true |} in
  output (cat (outbuf_size 2 4) 4 o [got [97; 10]; got [10]] 0 initial)
    = Some (concat (script_data [got [97; 10]; got [10]])).
Proof.
  intros o.
  apply (X27_squeezing_again_changes_nothing 4 4 2 4 o
           [got [97; 10; 10; 10]] [got [97; 10]; got [10]]
           [[97]; []; []]);
    try reflexivity; try lia.
  - repeat constructor; try discriminate;
      eexists; repeat split; simpl; try discriminate; lia.
  - repeat constructor; lia.
  - repeat constructor; try discriminate;
      eexists; repeat split; simpl; try discriminate; lia.
Defined.

Lemma after_after m : forall k c, after m (after k c) = after (m + k) c.
Proof.
  induction m as [|m IH]; intros k c; [reflexivity|].
  cbn [after Nat.add]. rewrite IH. reflexivity.
Qed.

(** The counter behind numbered lines has counted those that got a
    number. *)
Lemma numbered_text_counter o ls : forall c,
  (numbered_text o c ls).2 = after (length (List.filter (gets_number o) ls)) c.
Proof.
  induction ls as [|l ls IH]; intros c; [reflexivity|].
  cbn [numbered_text List.filter]. cbv zeta.
  specialize (IH (if gets_number o l then next_line_num c else c)).
  destruct (numbered_text o (if gets_number o l then next_line_num c else c) ls)
    as [t c2].
  cbn [snd] in *. rewrite IH.
  destruct (gets_number o l); [|reflexivity].
  cbn [length]. rewrite after_next. reflexivity.
Qed.

Lemma kept_length blank ls : (length (squeezed blank ls) <= length ls)%nat.
Proof.
  revert blank. induction ls as [|l ls IH]; intros blank; [reflexivity|].
  cbn [squeezed length].
  pose proof (IH true). pose proof (IH false).
  destruct (is_blank l); [destruct blank|]; cbn [length]; lia.
Qed.

Lemma with_newlines_length ls : (length ls <= length (with_newlines ls))%nat.
Proof.
  induction ls as [|l ls IH]; [reflexivity|].
  rewrite with_newlines_cons, length_app. cbn [length]. lia.
Qed.

Lemma with_newlines_last ls : last (with_newlines ls) <> Some 13.
Proof.
  induction ls as [|l ls IH]; [discriminate|].
  rewrite with_newlines_cons.
  destruct (with_newlines ls) as [|x rest] eqn:E.
  - rewrite last_snoc. discriminate.
  - change (l ++ 10 :: x :: rest) with (l ++ [10] ++ x :: rest).
    rewrite !last_app. cbn [app] in *.
    destruct (last (x :: rest)) eqn:E'; [exact IH|].
    apply last_None in E'. discriminate.
Qed.

(** X31: a file that ends without a newline, read in any pieces from
    the start of a line.  Behind what is written for its whole lines,
    the last line is written with its number, when lines are numbered,
    and its bytes as the options show them; neither an end marker nor a
    newline follows.  The number is one more than the count of the
    numbered lines before it. *)
Theorem X31_final_partial_line insize outsize o script ls last nl k :
  (1 <= outsize)%nat -> 0 <= nl ->
  Forall (good_event insize) script ->
  Forall unbroken ls -> unbroken last -> last <> [] ->
  concat (script_data script) = with_newlines ls ++ last ->
  clean_cuts o (script_data script) ->
  (number o = true ->
   Z.of_nat k + Z.of_nat (script_length script) < 10 ^ 10) ->
  let c := after k initial in
  let kept := if squeeze_blank o then squeezed (1 <=? nl) ls else ls in
  let m := length (List.filter (gets_number o) kept) in
  exists out,
    cat (outbuf_size insize outsize) outsize o script nl c
      = Return true (-1)
          (if number o then after (S (m + k)) initial else c) out /\
    concat out =
      (numbered_text o c kept).1
      ++ (if number o then line_number (Z.of_nat (m + k) + 1) else [])
      ++ line_text o last.
Proof.
  intros Hpos Hnl Hgood Hls Hlast Hne Hdata Hclean Hfit c kept m.
  destruct (cat_main_text insize outsize o script nl c)
    as (out & Hcat & Hout); [assumption|assumption| |].
  { eapply numbers_fit_le; [apply numbers_fit_after; exact Hfit|].
    apply chunks_calls_bytes. }
  rewrite chunks_text_concat in Hcat, Hout by (apply seams_options; exact Hclean).
  rewrite Hdata in Hcat, Hout.
  rewrite chunk_text_app in Hcat, Hout
    by (right; right; left; apply with_newlines_last).
  destruct (chunk_text_whole_lines o ls nl c Hnl Hls) as (nl' & He & Hnl' & _).
  cbv zeta in He. fold kept in He. rewrite He in Hcat, Hout.
  rewrite chunk_text_unbroken, body_text_line in Hcat, Hout by assumption.
  cbn [fst snd] in Hcat, Hout.
  destruct (Z.leb_spec 0 nl'); [|lia]. cbn [andb] in Hcat, Hout.
  rewrite numbered_text_counter in Hcat, Hout. fold m in Hcat, Hout.
  subst c. rewrite after_after in Hcat, Hout.
  exists out. destruct (number o) eqn:Hn.
  - split; [exact Hcat|]. rewrite Hout. do 2 f_equal.
    apply rendered_next.
    assert (m <= length ls)%nat.
    { subst m. etransitivity; [apply List.filter_length_le|].
      subst kept. destruct (squeeze_blank o); [apply kept_length|lia]. }
    pose proof (with_newlines_length ls) as Hl.
    specialize (Hfit eq_refl). unfold script_length in Hfit.
    rewrite Hdata, length_app in Hfit. lia.
  - assert (Hm : m = 0%nat).
    { subst m. generalize kept. intros kept0.
      induction kept0 as [|l kept0 IH]; [reflexivity|].
      cbn [List.filter]. unfold gets_number at 1. rewrite Hn. exact IH. }
    rewrite Hm in Hcat. split; [exact Hcat|exact Hout].
Qed.

Lemma X31_final_partial_line_witness :
  let o := {| show_nonprinting := false; show_tabs := false; number := true;
              number_nonblank := true; show_ends := true;
              squeeze_blank := true |} in
  let ls := [[97]; []; []; [98; 13]] in
  let c := after 7 initial in
  let kept := if squeeze_blank o then squeezed (1 <=? 0) ls else ls in
  let m := length (List.filter (gets_number o) kept) in
  exists out,
    cat (outbuf_size 4 4) 4 o
      [got [97; 10; 10]; got [10; 98]; got [13; 10; 99; 100]] 0 c
      = Return true (-1)
          (if number o then after (S (m + 7)) initial else c) out /\
    concat out =
      (numbered_text o c kept).1
      ++ (if number o then line_number (Z.of_nat (m + 7) + 1) else [])
      ++ line_text o [99; 100].
Proof.
  intros o ls.
  apply (X31_final_partial_line 4 4 o
           [got [97; 10; 10]; got [10; 98]; got [13; 10; 99; 100]]
           ls [99; 100] 0 7).
  - lia.
  - lia.
  - repeat constructor; try discriminate;
      eexists; repeat split; simpl; try discriminate; lia.
  - repeat constructor; lia.
  - repeat constructor; lia.
  - discriminate.
  - reflexivity.
  - right. right. repeat constructor; discriminate.
  - intros _. vm_compute. reflexivity.
Defined.

End EngineLines.

(** ** The line engine: what it writes for each byte *)

Section EngineBytes.

Import Engine.

Lemma eol_text_unnumbered o nl c :
  number o = false -> squeeze_blank o = false ->
  (eol_text o nl c).1.1 = end_mark o.
Proof.
  intros Hn Hs. unfold eol_text. rewrite Hn, Hs, andb_false_r.
  cbn [andb]. destruct (0 <? nl + 1); reflexivity.
Qed.

Lemma chunk_text_bytewise o data : forall nl c,
  number o = false -> squeeze_blank o = false ->
  show_nonprinting o = true \/ show_ends o = false \/
    Forall (fun b => b <> 13) data ->
  (chunk_text o data nl c).1.1 = flat_map (byte_text o) data.
Proof.
  induction data as [|b data IH]; intros nl c Hn Hs Hcr; [reflexivity|].
  assert (Hcr' : show_nonprinting o = true \/ show_ends o = false \/
                 Forall (fun b => b <> 13) data).
  { destruct Hcr as [H|[H|H]]; auto.
    apply Forall_cons in H as [_ H]. auto. }
  cbn [flat_map]. unfold byte_text at 1.
  destruct (Z.eqb_spec b 10) as [->|Hb].
  - rewrite chunk_text_newline.
    pose proof (eol_text_unnumbered o nl c Hn Hs) as He.
    destruct (eol_text o nl c) as [[t1 nl1] c1]. cbn [fst] in He. subst t1.
    specialize (IH nl1 c1 Hn Hs Hcr').
    destruct (chunk_text o data nl1 c1) as [[t2 nl2] c2].
    cbn [fst] in *. rewrite IH. reflexivity.
  - rewrite chunk_text_byte by assumption. cbv zeta.
    rewrite Hn, andb_false_r.
    specialize (IH (-1) c Hn Hs Hcr').
    destruct (chunk_text o data (-1) c) as [[t2 nl2] c2].
    cbn [fst app] in *. rewrite IH. f_equal.
    destruct (show_nonprinting o) eqn:Hv; [reflexivity|].
    unfold plain_text. destruct ((b =? 9) && show_tabs o); [reflexivity|].
    destruct Hcr as [H|[H|H]]; [discriminate| |].
    + rewrite H, !andb_false_r. reflexivity.
    + apply Forall_cons in H as [H _].
      destruct (Z.eqb_spec b 13); [contradiction|]. reflexivity.
Qed.

Lemma chunks_text_bytewise o chunks : forall nl c,
  number o = false -> squeeze_blank o = false ->
  show_nonprinting o = true \/ show_ends o = false \/
    Forall (fun b => b <> 13) (concat chunks) ->
  (chunks_text o chunks nl c).1.1 = flat_map (byte_text o) (concat chunks).
Proof.
  induction chunks as [|d chunks IH]; intros nl c Hn Hs Hcr; [reflexivity|].
  cbn [chunks_text concat]. rewrite flat_map_app.
  assert (Hd : show_nonprinting o = true \/ show_ends o = false \/
               Forall (fun b => b <> 13) d).
  { destruct Hcr as [H|[H|H]]; auto.
    apply Forall_app in H as [H _]. auto. }
  assert (Hrest : show_nonprinting o = true \/ show_ends o = false \/
                  Forall (fun b => b <> 13) (concat chunks)).
  { destruct Hcr as [H|[H|H]]; auto.
    apply Forall_app in H as [_ H]. auto. }
  pose proof (chunk_text_bytewise o d nl c Hn Hs Hd) as H1.
  destruct (chunk_text o d nl c) as [[t1 nl1] c1]. cbn [fst] in H1.
  specialize (IH nl1 c1 Hn Hs Hrest).
  destruct (chunks_text o chunks nl1 c1) as [[t2 nl2] c2].
  cbn [fst] in *. congruence.
Qed.

(** X13: when lines are neither numbered nor squeezed, [cat] turns
    its input byte by byte, wherever the reads are cut: a newline gives
    the end of a line, any other byte its text under the options; this
    holds with [show_nonprinting], or without [show_ends], or for input
    without carriage returns. *)
Theorem X13_unnumbered_output_is_bytewise insize outsize o script nl c :
  (1 <= outsize)%nat ->
  Forall (good_event insize) script ->
  number o = false -> squeeze_blank o = false ->
  show_nonprinting o = true \/ show_ends o = false \/
    Forall (fun b => b <> 13) (concat (script_data script)) ->
  output (cat (outbuf_size insize outsize) outsize o script nl c)
  = Some (flat_map (byte_text o) (concat (script_data script))).
Proof.
  intros Hpos Hgood Hn Hs Hcr.
  destruct (cat_main_text insize outsize o script nl c Hpos Hgood)
    as (out & -> & Hout).
  { apply numbers_fit_unnumbered. exact Hn. }
  cbn [output]. rewrite Hout, chunks_text_bytewise by assumption.
  reflexivity.
Qed.

Lemma X13_unnumbered_output_is_bytewise_witness :
  let o := {| show_nonprinting := true; show_tabs := true; number := false;
              number_nonblank := false; show_ends := true;
              squeeze_blank := false |} in
  output (cat (outbuf_size 4 4) 4 o [got [9; 13]; got [10; 200]] 0 initial)
  = Some (flat_map (byte_text o)
            (concat (script_data [got [9; 13]; got [10; 200]]))).
Proof.
  intros o.
  apply (X13_unnumbered_output_is_bytewise 4 4 o
           [got [9; 13]; got [10; 200]] 0 initial).
  - lia.
  - repeat constructor; try discriminate;
      eexists; repeat split; simpl; try discriminate; lia.
  - reflexivity.
  - reflexivity.
  - left. reflexivity.
Defined.

(** X14: with [show_tabs] as the only option that may be set, [cat]
    copies its input and changes nothing but the tabs, each of which
    becomes the two bytes of [^I]; without [show_tabs] the output is the
    input, byte for byte. *)
Theorem X14_only_tabs_are_changed insize outsize o script nl c :
  (1 <= outsize)%nat ->
  Forall (good_event insize) script ->
  show_nonprinting o = false -> show_ends o = false ->
  number o = false -> squeeze_blank o = false ->
  output (cat (outbuf_size insize outsize) outsize o script nl c)
  = Some (flat_map (fun b => if (b =? 9) && show_tabs o then [94; 73]
                             else [b])
            (concat (script_data script))).
Proof.
  intros Hpos Hgood Hv He Hn Hs.
  destruct (cat_main_text insize outsize o script nl c Hpos Hgood)
    as (out & -> & Hout).
  { apply numbers_fit_unnumbered. exact Hn. }
  cbn [output]. rewrite Hout, chunks_text_bytewise by auto.
  f_equal. apply flat_map_ext. intros b.
  unfold byte_text, end_mark, plain_text. rewrite Hv, He.
  destruct (Z.eqb_spec b 10) as [->|Hb]; [reflexivity|].
  destruct (Z.eqb_spec b 9) as [->|Hb9]; cbn [andb].
  - destruct (show_tabs o); reflexivity.
  - rewrite !andb_false_r. reflexivity.
Qed.

Lemma X14_only_tabs_are_changed_witness :
  let o := {| show_nonprinting := false; show_tabs := true; number := false;
              number_nonblank := false; show_ends := false;
              squeeze_blank := false |} in
  output (cat (outbuf_size 4 4) 4 o [got [97; 9]; got [13; 10; 200]] 0 initial)
  = Some (flat_map (fun b => if (b =? 9) && show_tabs o then [94; 73]
                             else [b])
            (concat (script_data [got [97; 9]; got [13; 10; 200]]))).
Proof.
  intros o.
  apply (X14_only_tabs_are_changed 4 4 o
           [got [97; 9]; got [13; 10; 200]] 0 initial);
    try reflexivity; try lia.
  repeat constructor; try discriminate;
    eexists; repeat split; simpl; try discriminate; lia.
Defined.

(** X28: the same input cut into reads in two ways gives the same
    bytes, the same count of blank lines and the same line counter,
    whatever the two block sizes, provided [show_nonprinting] is set, or
    [show_ends] is not set, or no read of either run ends in a carriage
    return. *)
Theorem X28_reads_may_be_cut_anywhere insize1 outsize1 insize2 outsize2 o
    script1 script2 nl c :
  (1 <= outsize1)%nat -> (1 <= outsize2)%nat ->
  Forall (good_event insize1) script1 ->
  Forall (good_event insize2) script2 ->
  concat (script_data script1) = concat (script_data script2) ->
  show_nonprinting o = true \/ show_ends o = false \/
    Forall (fun d => last d <> Some 13)
           (script_data script1 ++ script_data script2) ->
  numbers_fit o c (script_length script1) ->
  exists nl' c' out1 out2,
    cat (outbuf_size insize1 outsize1) outsize1 o script1 nl c
      = Return true nl' c' out1 /\
    cat (outbuf_size insize2 outsize2) outsize2 o script2 nl c
      = Return true nl' c' out2 /\
    concat out1 = concat out2.
Proof.
  intros Hpos1 Hpos2 Hg1 Hg2 Hdata Hcr Hfit.
  assert (Hs1 : seams o (script_data script1)).
  { apply seams_options. destruct Hcr as [H|[H|H]]; auto.
    apply Forall_app in H as [H _]. auto. }
  assert (Hs2 : seams o (script_data script2)).
  { apply seams_options. destruct Hcr as [H|[H|H]]; auto.
    apply Forall_app in H as [_ H]. auto. }
  destruct (cat_main_text insize1 outsize1 o script1 nl c Hpos1 Hg1)
    as (out1 & Hcat1 & Hout1).
  { apply (numbers_fit_le _ _ _ _ Hfit). apply chunks_calls_bytes. }
  destruct (cat_main_text insize2 outsize2 o script2 nl c Hpos2 Hg2)
    as (out2 & Hcat2 & Hout2).
  { apply (numbers_fit_le _ _ _ _ Hfit).
    unfold script_length. rewrite Hdata. apply chunks_calls_bytes. }
  rewrite chunks_text_concat in Hcat1, Hout1 by exact Hs1.
  rewrite chunks_text_concat in Hcat2, Hout2 by exact Hs2.
  rewrite <- Hdata in Hcat2, Hout2.
  eexists _, _, out1, out2. split; [exact Hcat1|]. split; [exact Hcat2|].
  congruence.
Qed.

Lemma X28_reads_may_be_cut_anywhere_witness :
  let o := {| show_nonprinting := false; show_tabs := true; number := true;
              number_nonblank := true; show_ends := true;
              squeeze_blank := true |} in
  exists nl' c' out1 out2,
    cat (outbuf_size 2 3) 3 o [got [97; 9]; got [10; 10]; got [10; 98]]
        0 initial
      = Return true nl' c' out1 /\
    cat (outbuf_size 6 5) 5 o [got [97; 9; 10; 10; 10; 98]] 0 initial
      = Return true nl' c' out2 /\
    concat out1 = concat out2.
Proof.
  intros o.
  apply (X28_reads_may_be_cut_anywhere 2 3 6 5 o
           [got [97; 9]; got [10; 10]; got [10; 98]]
           [got [97; 9; 10; 10; 10; 98]] 0 initial).
  - lia.
  - lia.
  - repeat constructor; try discriminate;
      eexists; repeat split; simpl; try discriminate; lia.
  - repeat constructor; try discriminate;
      eexists; repeat split; simpl; try discriminate; lia.
  - reflexivity.
  - right. right. repeat constructor; discriminate.
  - apply numbers_fit_initial. vm_compute. reflexivity.
Defined.

(** X30: with [show_nonprinting] as the only option set, input made
    of tabs, newlines, blanks and visible ASCII characters only is
    written out unchanged. *)
Theorem X30_quoting_leaves_plain_text_alone insize outsize o script nl c :
  (1 <= outsize)%nat ->
  Forall (good_event insize) script ->
  show_nonprinting o = true -> show_tabs o = false -> show_ends o = false ->
  number o = false -> squeeze_blank o = false ->
  Forall printable (concat (script_data script)) ->
  output (cat (outbuf_size insize outsize) outsize o script nl c)
  = Some (concat (script_data script)).
Proof.
  intros Hpos Hgood Hv Ht He Hn Hs Hplain.
  destruct (cat_main_text insize outsize o script nl c Hpos Hgood)
    as (out & -> & Hout).
  { apply numbers_fit_unnumbered. exact Hn. }
  cbn [output]. rewrite Hout, chunks_text_bytewise by auto.
  f_equal. induction Hplain as [|b data Hb _ IH]; [reflexivity|].
  cbn [flat_map]. rewrite IH. clear IH.
  change (b :: data) with ([b] ++ data). f_equal.
  unfold byte_text, end_mark, quote_text. rewrite Hv, He, Ht.
  unfold printable in Hb.
  destruct (Z.eqb_spec b 10) as [->|H10]; [reflexivity|].
  destruct (Z.leb_spec 32 b).
  - destruct (Z.ltb_spec b 127); [reflexivity|lia].
  - destruct (Z.eqb_spec b 9) as [->|H9]; [reflexivity|lia].
Qed.

Lemma X30_quoting_leaves_plain_text_alone_witness :
  let o := {| show_nonprinting := true; show_tabs := false; number := false;
              number_nonblank := false; show_ends := false;
              squeeze_blank := false |} in
  output (cat (outbuf_size 4 4) 4 o [got [72; 105; 9]; got [33; 10]] 0 initial)
  = Some (concat (script_data [got [72; 105; 9]; got [33; 10]])).
Proof.
  intros o.
  apply (X30_quoting_leaves_plain_text_alone 4 4 o
           [got [72; 105; 9]; got [33; 10]] 0 initial);
    try reflexivity; try lia.
  - repeat constructor; try discriminate;
      eexists; repeat split; simpl; try discriminate; lia.
  - unfold printable. cbn [script_data map event_data ev_read got concat app].
    repeat (apply List.Forall_cons; [lia|]). apply List.Forall_nil.
Defined.

Lemma line_text_cr o l :
  show_nonprinting o = false -> show_tabs o = false -> show_ends o = true ->
  Forall (fun b => b <> 13) l ->
  line_text o (l ++ [13]) = l ++ [94; 77].
Proof.
  intros Hv Ht He. induction 1 as [|b l Hb _ IH].
  - cbn [app line_text hd]. rewrite Hv. unfold plain_text.
    rewrite Ht, He. reflexivity.
  - cbn [app line_text]. rewrite Hv, IH. f_equal.
    unfold plain_text. rewrite Ht, andb_false_r.
    destruct (Z.eqb_spec b 13); [contradiction|]. reflexivity.
Qed.

Lemma chunk_text_crlf_lines o ls : forall nl c,
  show_nonprinting o = false -> show_tabs o = false -> show_ends o = true ->
  number o = false -> squeeze_blank o = false ->
  Forall (Forall (fun b => b <> 13 /\ b <> 10)) ls ->
  (chunk_text o (concat (map (fun l => l ++ [13; 10]) ls)) nl c).1.1
  = concat (map (fun l => l ++ [94; 77; 36; 10]) ls).
Proof.
  induction ls as [|l ls IH]; intros nl c Hv Ht He Hn Hs Hls; [reflexivity|].
  apply Forall_cons in Hls as [Hl Hls].
  cbn [map concat].
  replace ((l ++ [13; 10]) ++ concat (map (fun l => l ++ [13; 10]) ls))
    with ((l ++ [13]) ++ 10 :: concat (map (fun l => l ++ [13; 10]) ls))
    by (rewrite <- !app_assoc; reflexivity).
  rewrite chunk_text_line.
  2:{ apply Forall_app. split; [|repeat constructor; lia].
      eapply Forall_impl; [exact Hl|]. intros b [_ Hb]. exact Hb. }
  rewrite body_text_line by (destruct l; discriminate).
  rewrite Hn, andb_false_r.
  pose proof (eol_text_unnumbered o (-1) c Hn Hs) as Heol.
  destruct (eol_text o (-1) c) as [[t1 nl1] c1]. cbn [fst] in Heol. subst t1.
  specialize (IH nl1 c1 Hv Ht He Hn Hs Hls).
  destruct (chunk_text o (concat (map (fun l => l ++ [13; 10]) ls)) nl1 c1)
    as [[t2 nl2] c2].
  cbn [fst app] in *. rewrite IH, line_text_cr; try assumption.
  2:{ eapply Forall_impl; [exact Hl|]. intros b [Hb _]. exact Hb. }
  unfold end_mark. rewrite He. rewrite <- !app_assoc. reflexivity.
Qed.

(** X29: with [show_ends] set and neither [show_nonprinting] nor
    [show_tabs], numbering or squeezing: a file whose lines all end in
    carriage return and newline, and hold no other carriage return, is
    written with each such line end turned into the four bytes of [^M$]
    and the newline, and nothing else changed, when no read ends in a
    carriage return. *)
Theorem X29_crlf_line_ends_are_shown insize outsize o script ls nl c :
  (1 <= outsize)%nat ->
  Forall (good_event insize) script ->
  show_nonprinting o = false -> show_tabs o = false -> show_ends o = true ->
  number o = false -> squeeze_blank o = false ->
  Forall (Forall (fun b => b <> 13 /\ b <> 10)) ls ->
  concat (script_data script) = concat (map (fun l => l ++ [13; 10]) ls) ->
  Forall (fun d => last d <> Some 13) (script_data script) ->
  output (cat (outbuf_size insize outsize) outsize o script nl c)
  = Some (concat (map (fun l => l ++ [94; 77; 36; 10]) ls)).
Proof.
  intros Hpos Hgood Hv Ht He Hn Hs Hls Hdata Hcr.
  destruct (cat_main_text insize outsize o script nl c Hpos Hgood)
    as (out & -> & Hout).
  { apply numbers_fit_unnumbered. exact Hn. }
  cbn [output]. rewrite Hout.
  rewrite chunks_text_concat by (apply seams_options; auto).
  rewrite Hdata, chunk_text_crlf_lines by assumption. reflexivity.
Qed.

Lemma X29_crlf_line_ends_are_shown_witness :
  let o := {| show_nonprinting := false; show_tabs := false; number := false;
              number_nonblank := false; show_ends := true;
              squeeze_blank := false |} in
  output (cat (outbuf_size 4 4) 4 o [got [97; 13; 10; 98]; got [13; 10]]
            0 initial)
  = Some (concat (map (fun l => l ++ [94; 77; 36; 10]) [[97]; [98]])).
Proof.
  intros o.
  apply (X29_crlf_line_ends_are_shown 4 4 o
           [got [97; 13; 10; 98]; got [13; 10]] [[97]; [98]] 0 initial);
    try reflexivity; try lia.
  - repeat constructor; try discriminate;
      eexists; repeat split; simpl; try discriminate; lia.
  - repeat constructor; lia.
  - repeat constructor; discriminate.
Defined.

End EngineBytes.

(** ** The line engine: lines that the reads cut anywhere *)

Section EngineCuts.

Import Engine.

Lemma chunks_text_skip o chunks nl c :
  chunks_text o ([] :: chunks) nl c = chunks_text o chunks nl c.
Proof.
  change (chunks_text o ([] :: chunks) nl c)
    with (let '(t2, nl2, c2) := chunks_text o chunks nl c in
          ([] ++ t2, nl2, c2)).
  destruct (chunks_text o chunks nl c) as [[t nl'] c']. reflexivity.
Qed.

Lemma chunks_text_empty o chunks : forall nl c,
  concat chunks = [] -> chunks_text o chunks nl c = ([], nl, c).
Proof.
  induction chunks as [|d chunks IH]; intros nl c H; [reflexivity|].
  cbn [concat] in H. apply app_eq_nil in H as [-> H].
  rewrite chunks_text_skip. apply IH. exact H.
Qed.

Lemma chunks_text_newline o d chunks nl c :
  chunks_text o ((10 :: d) :: chunks) nl c =
  let '(t1, nl1, c1) := eol_text o nl c in
  let '(t2, nl2, c2) := chunks_text o (d :: chunks) nl1 c1 in
  (t1 ++ t2, nl2, c2).
Proof.
  cbn [chunks_text]. rewrite chunk_text_newline.
  destruct (eol_text o nl c) as [[t1 nl1] c1].
  destruct (chunk_text o d nl1 c1) as [[t2 nl2] c2].
  destruct (chunks_text o chunks nl2 c2) as [[t3 nl3] c3].
  rewrite app_assoc. reflexivity.
Qed.

Lemma chunks_text_byte o ch d chunks nl c :
  ch <> 10 ->
  chunks_text o ((ch :: d) :: chunks) nl c =
  let numbered := (0 <=? nl) && number o in
  let '(t2, nl2, c2) :=
    chunks_text o (d :: chunks) (-1)
      (if numbered then next_line_num c else c) in
  ((if numbered then rendered (next_line_num c) else [])
   ++ (if show_nonprinting o then quote_text o ch
       else plain_text o ch (hd 10 d))
   ++ t2, nl2, c2).
Proof.
  intros Hch. cbn [chunks_text]. rewrite chunk_text_byte by assumption.
  cbv zeta.
  destruct (chunk_text o d (-1) _) as [[t2 nl2] c2].
  destruct (chunks_text o chunks nl2 c2) as [[t3 nl3] c3].
  rewrite <- !app_assoc. reflexivity.
Qed.

(** The read that brings the next byte, the empty reads before it
    left out. *)
Lemma first_byte o chunks : forall b tail,
  concat chunks = b :: tail ->
  exists d chunks',
    concat (d :: chunks') = tail /\
    (forall P : list Z -> Prop,
       Forall P chunks -> Forall P ((b :: d) :: chunks')) /\
    forall nl c,
      chunks_text o chunks nl c = chunks_text o ((b :: d) :: chunks') nl c.
Proof.
  induction chunks as [|d0 chunks IH]; intros b tail H; [discriminate|].
  destruct d0 as [|b0 d0].
  - destruct (IH b tail H) as (d & chunks' & H1 & H2 & H3).
    exists d, chunks'. split; [exact H1|]. split.
    + intros P HP. apply H2. apply Forall_cons in HP as [_ HP]. exact HP.
    + intros nl c. rewrite chunks_text_skip. apply H3.
  - cbn [concat app] in H. injection H as -> H.
    exists d0, chunks. split; [exact H|]. split; [auto|reflexivity].
Qed.

Lemma clean_cuts_tail o b d chunks :
  clean_cuts o ((b :: d) :: chunks) -> clean_cuts o (d :: chunks).
Proof.
  intros [H|[H|H]]; [left; exact H|right; left; exact H|].
  right. right. apply Forall_cons in H as [Hd H].
  constructor; [|exact H].
  destruct d as [|x d]; [discriminate|exact Hd].
Qed.

(** A whole line, from wherever the scan stands in it to its newline:
    the number if the line starts there and has a byte, the bytes, and
    the end of the line. *)
Lemma chunks_text_line o l : forall chunks rest,
  unbroken l -> concat chunks = l ++ 10 :: rest ->
  exists t chunks',
    shown o l t /\ concat chunks' = rest /\
    (clean_cuts o chunks -> t = line_text o l /\ clean_cuts o chunks') /\
    forall nl c,
      chunks_text o chunks nl c =
      let numbered := negb (is_blank l) && (0 <=? nl) && number o in
      let '(t2, nl2, c2) :=
        eol_text o (if is_blank l then nl else -1)
          (if numbered then next_line_num c else c) in
      let '(t3, nl3, c3) := chunks_text o chunks' nl2 c2 in
      ((if numbered then rendered (next_line_num c) else [])
       ++ t ++ t2 ++ t3, nl3, c3).
Proof.
  induction l as [|b l IH]; intros chunks rest Hl Hdata.
  - destruct (first_byte o chunks 10 rest Hdata) as (d & chunks' & H1 & H2 & H3).
    exists [], (d :: chunks'). split; [constructor|]. split; [exact H1|].
    split.
    + intros Hc. split; [reflexivity|].
      apply (clean_cuts_tail o 10).
      destruct Hc as [Hc|[Hc|Hc]]; [left; exact Hc|right; left; exact Hc|].
      right. right. apply H2. exact Hc.
    + intros nl c. rewrite H3, chunks_text_newline. reflexivity.
  - apply Forall_cons in Hl as [Hb Hl]. cbn [app] in Hdata.
    destruct (first_byte o chunks b (l ++ 10 :: rest) Hdata)
      as (d & chunks0 & H1 & H2 & H3).
    destruct (IH (d :: chunks0) rest Hl H1) as (t & chunks' & Ht & Hrest & Hc' & Heq).
    assert (Hnext : hd 10 d = hd 10 l \/ hd 10 d = 10).
    { destruct d as [|x d]; [right; reflexivity|].
      cbn [concat app] in H1. destruct l as [|y l].
      - cbn [app] in H1. injection H1 as -> _. right. reflexivity.
      - cbn [app] in H1. injection H1 as -> _. left. reflexivity. }
    exists ((if show_nonprinting o then quote_text o b
             else plain_text o b (hd 10 d)) ++ t), chunks'.
    split; [constructor; assumption|]. split; [exact Hrest|]. split.
    + intros Hc.
      assert (Hc0 : clean_cuts o ((b :: d) :: chunks0)).
      { destruct Hc as [Hc|[Hc|Hc]]; [left; exact Hc|right; left; exact Hc|].
        right. right. apply H2. exact Hc. }
      destruct (Hc' (clean_cuts_tail o b d chunks0 Hc0)) as [-> Hc1].
      split; [|exact Hc1]. cbn [line_text]. f_equal.
      destruct (show_nonprinting o) eqn:Hv; [reflexivity|].
      destruct Hnext as [Hnext|Hnext]; [rewrite Hnext; reflexivity|].
      unfold plain_text. destruct (show_ends o) eqn:He;
        [|rewrite !andb_false_r; reflexivity].
      destruct d as [|x d].
      * destruct Hc0 as [Hc0|[Hc0|Hc0]]; try congruence.
        apply Forall_cons in Hc0 as [Hc0 _]. cbn in Hc0.
        destruct (Z.eqb_spec b 13); [congruence|]. reflexivity.
      * cbn [hd] in Hnext. subst x.
        cbn [concat app] in H1. destruct l as [|y l].
        -- reflexivity.
        -- cbn [app] in H1. injection H1 as <- _. reflexivity.
    + intros nl c. rewrite H3, chunks_text_byte by assumption. cbv zeta.
      rewrite Heq. cbv zeta. cbn [is_blank negb andb].
      change (0 <=? -1) with false. rewrite andb_false_r. cbn [andb].
      replace (if is_blank l then -1 else -1) with (-1)
        by (destruct (is_blank l); reflexivity).
      destruct (eol_text o (-1) _) as [[t2 nl2] c2].
      destruct (chunks_text o chunks' nl2 c2) as [[t3 nl3] c3].
      rewrite <- !app_assoc. reflexivity.
Qed.

(** The calls of [next_line_num] against the newlines read. *)
Lemma lines_calls_lines o ls : forall nl c,
  (lines_calls o ls nl c + at_start (lines_text o ls nl c).1.2
   <= 2 * length ls + at_start nl)%nat.
Proof.
  induction ls as [|l ls IH]; intros nl c; cbn [lines_calls lines_text length].
  - cbn [fst snd]. lia.
  - assert (He : (eol_calls o nl <= 1)%nat)
      by (unfold eol_calls; destruct (_ && _); lia).
    destruct (eol_text o nl c) as [[t1 nl1] c1].
    assert (Hb : (body_calls o l nl1 + at_start (body_text o l nl1 c1).1.2
                  <= 1)%nat).
    { unfold body_calls, body_text, at_start. destruct l as [|ch l].
      - cbn [fst snd]. destruct (0 <=? nl1); lia.
      - destruct ((0 <=? nl1) && number o); cbn; lia. }
    destruct (body_text o l nl1 c1) as [[t2 nl2] c2]. cbn [fst snd] in Hb.
    specialize (IH nl2 c2).
    destruct (lines_text o ls nl2 c2) as [[t3 nl3] c3]. cbn [fst snd] in *.
    assert (at_start nl <= 1)%nat by (unfold at_start; destruct (0 <=? nl); lia).
    lia.
Qed.

Lemma chunk_calls_lines o d nl c :
  (chunk_calls o d nl c + at_start (chunk_text o d nl c).1.2 + 2
   <= 2 * length (split_lines d) + at_start nl)%nat.
Proof.
  unfold chunk_calls, chunk_text.
  destruct (split_lines_cons d) as (l & ls & ->). cbn [length].
  assert (Hb : (body_calls o l nl + at_start (body_text o l nl c).1.2
                <= at_start nl)%nat).
  { unfold body_calls, body_text, at_start. destruct l as [|ch l].
    - cbn [fst snd]. lia.
    - destruct (0 <=? nl); cbn [andb]; [destruct (number o)|]; cbn; lia. }
  destruct (body_text o l nl c) as [[t2 nl2] c2]. cbn [fst snd] in Hb.
  pose proof (lines_calls_lines o ls nl2 c2) as Hl.
  destruct (lines_text o ls nl2 c2) as [[t3 nl3] c3]. cbn [fst snd] in *.
  lia.
Qed.

Lemma split_lines_length a : forall b,
  (length (split_lines (a ++ b)) + 1
   = length (split_lines a) + length (split_lines b))%nat.
Proof.
  induction a as [|ch a IH]; intros b.
  - cbn. lia.
  - cbn [app split_lines]. specialize (IH b).
    destruct (ch =? 10); cbn [length]; [lia|].
    destruct (split_lines_cons (a ++ b)) as (l & ls & E).
    destruct (split_lines_cons a) as (l' & ls' & E').
    rewrite E, E' in *. cbn [length] in *. lia.
Qed.

Lemma chunks_calls_lines o chunks : forall nl c,
  (chunks_calls o chunks nl c + at_start (chunks_text o chunks nl c).1.2 + 2
   <= 2 * length (split_lines (concat chunks)) + at_start nl)%nat.
Proof.
  induction chunks as [|d chunks IH]; intros nl c;
    cbn [chunks_calls chunks_text concat].
  - cbn. lia.
  - pose proof (chunk_calls_lines o d nl c) as Hd.
    pose proof (split_lines_length d (concat chunks)) as Hn.
    destruct (chunk_text o d nl c) as [[t1 nl1] c1]. cbn [fst snd] in Hd.
    specialize (IH nl1 c1).
    destruct (chunks_text o chunks nl1 c1) as [[t2 nl2] c2].
    cbn [fst snd] in *. lia.
Qed.

End EngineCuts.

Section EngineCutTheorems.

Import Engine.

Lemma shown_blank o t : shown o [] t -> t = [].
Proof. inversion 1. reflexivity. Qed.

(** A line and its newline when every line is numbered. *)
Lemma numbered_cut o l chunks rest :
  number o = true -> number_nonblank o = false -> squeeze_blank o = false ->
  unbroken l -> concat chunks = l ++ 10 :: rest ->
  exists t chunks',
    shown o l t /\ concat chunks' = rest /\
    (clean_cuts o chunks -> t = line_text o l /\ clean_cuts o chunks') /\
    forall nl c, 0 <= nl ->
      exists nl2, 0 <= nl2 /\
        chunks_text o chunks nl c =
        let '(t3, nl3, c3) := chunks_text o chunks' nl2 (next_line_num c) in
        (rendered (next_line_num c) ++ t ++ end_mark o ++ t3, nl3, c3).
Proof.
  intros Hn Hb Hs Hl Hdata.
  destruct (chunks_text_line o l chunks rest Hl Hdata)
    as (t & chunks' & Ht & Hrest & Hc & Heq).
  exists t, chunks'. repeat (split; [assumption|]).
  intros nl c Hnl. rewrite Heq. cbv zeta. rewrite Hn, andb_true_r.
  destruct (Z.leb_spec 0 nl); [|lia]. rewrite andb_true_r.
  destruct l as [|b l]; cbn [is_blank negb]; cbv iota.
  - apply shown_blank in Ht. subst t.
    unfold eol_text. rewrite Hn, Hb, Hs, andb_false_r. cbn [negb andb].
    destruct (Z.ltb_spec 0 (nl + 1)); [|lia].
    exists (if 2 <=? nl + 1 then 2 else nl + 1).
    split; [destruct (2 <=? nl + 1); lia|]. cbv beta iota.
    destruct (chunks_text o chunks' _ _) as [[t3 nl3] c3].
    cbn [app]. rewrite <- app_assoc. reflexivity.
  - exists 0. split; [lia|].
    change (eol_text o (-1) (next_line_num c))
      with (end_mark o, 0, next_line_num c).
    cbv beta iota.
    destruct (chunks_text o chunks' 0 _) as [[t3 nl3] c3]. reflexivity.
Qed.

(** A line that has a byte, when lines are numbered. *)
Lemma nonblank_cut o l chunks rest :
  number o = true -> l <> [] ->
  unbroken l -> concat chunks = l ++ 10 :: rest ->
  exists t chunks',
    shown o l t /\ concat chunks' = rest /\
    (clean_cuts o chunks -> t = line_text o l /\ clean_cuts o chunks') /\
    forall nl c, 0 <= nl ->
      chunks_text o chunks nl c =
      let '(t3, nl3, c3) := chunks_text o chunks' 0 (next_line_num c) in
      (rendered (next_line_num c) ++ t ++ end_mark o ++ t3, nl3, c3).
Proof.
  intros Hn Hne Hl Hdata.
  destruct (chunks_text_line o l chunks rest Hl Hdata)
    as (t & chunks' & Ht & Hrest & Hc & Heq).
  exists t, chunks'. repeat (split; [assumption|]).
  intros nl c Hnl. rewrite Heq. cbv zeta. rewrite Hn, andb_true_r.
  destruct (Z.leb_spec 0 nl); [|lia]. rewrite andb_true_r.
  destruct l as [|b l]; [congruence|]. cbn [is_blank negb]. cbv iota.
  change (eol_text o (-1) (next_line_num c))
    with (end_mark o, 0, next_line_num c).
  cbv beta iota.
  destruct (chunks_text o chunks' 0 _) as [[t3 nl3] c3]. reflexivity.
Qed.

(** An empty line behind a line that has a byte, when empty lines get
    no number. *)
Lemma blank_cut o chunks rest :
  number_nonblank o = true -> concat chunks = 10 :: rest ->
  exists chunks',
    concat chunks' = rest /\
    (clean_cuts o chunks -> clean_cuts o chunks') /\
    forall c,
      chunks_text o chunks 0 c =
      let '(t3, nl3, c3) := chunks_text o chunks' 1 c in
      (end_mark o ++ t3, nl3, c3).
Proof.
  intros Hb Hdata.
  destruct (chunks_text_line o [] chunks rest ltac:(constructor) Hdata)
    as (t & chunks' & Ht & Hrest & Hc & Heq).
  apply shown_blank in Ht. subst t.
  exists chunks'. split; [assumption|]. split; [intros H; apply Hc, H|].
  intros c. rewrite Heq. cbv zeta. cbn [is_blank negb andb].
  rewrite eol_unnumbered_blank by assumption. cbv beta iota.
  destruct (chunks_text o chunks' 1 c) as [[t3 nl3] c3]. reflexivity.
Qed.

(** C7: a file of five lines, in whatever reads it comes, at the start
    of the process.  With [number] set and neither [number_nonblank]
    nor [squeeze_blank], each line is written behind its number, 1 to 5
    in order, which stands right-justified in six places and is
    followed by a tab.  With [number_nonblank] set, lines 2 and 4 empty
    and lines 1, 3 and 5 not, the empty lines are written without a
    number and are not counted: lines 1, 3 and 5 carry the numbers 1, 2
    and 3.  Behind its number each line has its bytes as the options
    show them and its end; where no read ends in a carriage return (or
    [show_nonprinting] is set, or [show_ends] is not) the bytes are
    those of [line_text]. *)
Theorem C7_line_numbers insize outsize o script (l1 l2 l3 l4 l5 : list Z) :
  (1 <= outsize)%nat -> Forall (good_event insize) script ->
  number o = true ->
  unbroken l1 -> unbroken l2 -> unbroken l3 -> unbroken l4 -> unbroken l5 ->
  let n i := [32; 32; 32; 32; 32; 48 + i; 9] in
  let e := end_mark o in
  let run :=
    output (cat (outbuf_size insize outsize) outsize o script 0 initial) in
  (number_nonblank o = false -> squeeze_blank o = false ->
   concat (script_data script)
   = l1 ++ 10 :: l2 ++ 10 :: l3 ++ 10 :: l4 ++ 10 :: l5 ++ [10] ->
   exists t1 t2 t3 t4 t5,
     run = Some (n 1 ++ t1 ++ e ++ n 2 ++ t2 ++ e ++ n 3 ++ t3 ++ e
                 ++ n 4 ++ t4 ++ e ++ n 5 ++ t5 ++ e) /\
     Forall2 (shown o) [l1; l2; l3; l4; l5] [t1; t2; t3; t4; t5] /\
     (clean_cuts o (script_data script) ->
      [t1; t2; t3; t4; t5] = map (line_text o) [l1; l2; l3; l4; l5])) /\
  (number_nonblank o = true -> l1 <> [] -> l3 <> [] -> l5 <> [] ->
   concat (script_data script)
   = l1 ++ 10 :: 10 :: l3 ++ 10 :: 10 :: l5 ++ [10] ->
   exists t1 t3 t5,
     run = Some (n 1 ++ t1 ++ e ++ e ++ n 2 ++ t3 ++ e ++ e
                 ++ n 3 ++ t5 ++ e) /\
     Forall2 (shown o) [l1; l3; l5] [t1; t3; t5] /\
     (clean_cuts o (script_data script) ->
      [t1; t3; t5] = map (line_text o) [l1; l3; l5])).
Proof.
  intros Hpos Hgood Hn H1 H2 H3 H4 H5 n e run. subst run.
  assert (Hrun : forall ls, Forall unbroken ls -> length ls = 5%nat ->
            concat (script_data script) = with_newlines ls ->
            output (cat (outbuf_size insize outsize) outsize o script 0 initial)
            = Some (chunks_text o (script_data script) 0 initial).1.1).
  { intros ls Hls Hlen Hdata.
    destruct (cat_main_text insize outsize o script 0 initial Hpos Hgood)
      as (out & -> & Hout); [|cbn [output]; rewrite Hout; reflexivity].
    apply (numbers_fit_le o initial 11); [apply numbers_fit_initial; lia|].
    pose proof (chunks_calls_lines o (script_data script) 0 initial) as Hc.
    rewrite Hdata, split_lines_with_newlines, length_app, Hlen in Hc
      by assumption.
    change (at_start 0) with 1%nat in Hc. cbn [length] in Hc. lia. }
  split.
  - intros Hb Hs Hdata.
    rewrite (Hrun [l1; l2; l3; l4; l5]);
      [|repeat constructor; assumption|reflexivity
       |rewrite Hdata; unfold with_newlines; cbn [flat_map];
        rewrite <- !app_assoc; reflexivity].
    destruct (numbered_cut o l1 _ _ Hn Hb Hs H1 Hdata)
      as (t1 & ch1 & Ht1 & Hr1 & Hc1 & He1).
    destruct (numbered_cut o l2 _ _ Hn Hb Hs H2 Hr1)
      as (t2 & ch2 & Ht2 & Hr2 & Hc2 & He2).
    destruct (numbered_cut o l3 _ _ Hn Hb Hs H3 Hr2)
      as (t3 & ch3 & Ht3 & Hr3 & Hc3 & He3).
    destruct (numbered_cut o l4 _ _ Hn Hb Hs H4 Hr3)
      as (t4 & ch4 & Ht4 & Hr4 & Hc4 & He4).
    destruct (numbered_cut o l5 _ _ Hn Hb Hs H5 Hr4)
      as (t5 & ch5 & Ht5 & Hr5 & Hc5 & He5).
    exists t1, t2, t3, t4, t5. split; [|split].
    + destruct (He1 0 initial ltac:(lia)) as (nl1 & Hnl1 & ->).
      set (c1 := next_line_num initial).
      destruct (He2 nl1 c1 Hnl1) as (nl2 & Hnl2 & ->).
      set (c2 := next_line_num c1).
      destruct (He3 nl2 c2 Hnl2) as (nl3 & Hnl3 & ->).
      set (c3 := next_line_num c2).
      destruct (He4 nl3 c3 Hnl3) as (nl4 & Hnl4 & ->).
      set (c4 := next_line_num c3).
      destruct (He5 nl4 c4 Hnl4) as (nl5 & Hnl5 & ->).
      subst c1 c2 c3 c4.
      rewrite (chunks_text_empty o ch5) by assumption.
      cbn [fst]. rewrite app_nil_r. reflexivity.
    + repeat constructor; assumption.
    + intros Hc.
      destruct (Hc1 Hc) as [-> Hc'1]. destruct (Hc2 Hc'1) as [-> Hc'2].
      destruct (Hc3 Hc'2) as [-> Hc'3]. destruct (Hc4 Hc'3) as [-> Hc'4].
      destruct (Hc5 Hc'4) as [-> _]. reflexivity.
  - intros Hb Hl1 Hl3 Hl5 Hdata.
    rewrite (Hrun [l1; []; l3; []; l5]);
      [|repeat constructor; assumption|reflexivity
       |rewrite Hdata; unfold with_newlines; cbn [flat_map];
        rewrite <- !app_assoc; reflexivity].
    destruct (nonblank_cut o l1 _ _ Hn Hl1 H1 Hdata)
      as (t1 & ch1 & Ht1 & Hr1 & Hc1 & He1).
    destruct (blank_cut o _ _ Hb Hr1) as (ch2 & Hr2 & Hc2 & He2).
    destruct (nonblank_cut o l3 _ _ Hn Hl3 H3 Hr2)
      as (t3 & ch3 & Ht3 & Hr3 & Hc3 & He3).
    destruct (blank_cut o _ _ Hb Hr3) as (ch4 & Hr4 & Hc4 & He4).
    destruct (nonblank_cut o l5 _ _ Hn Hl5 H5 Hr4)
      as (t5 & ch5 & Ht5 & Hr5 & Hc5 & He5).
    exists t1, t3, t5. split; [|split].
    + rewrite He1, He2, He3, He4, He5 by lia.
      rewrite (chunks_text_empty o ch5) by assumption.
      cbn [fst]. rewrite app_nil_r. reflexivity.
    + repeat constructor; assumption.
    + intros Hc.
      destruct (Hc1 Hc) as [-> Hc'1]. pose proof (Hc2 Hc'1) as Hc'2.
      destruct (Hc3 Hc'2) as [-> Hc'3]. pose proof (Hc4 Hc'3) as Hc'4.
      destruct (Hc5 Hc'4) as [-> _]. reflexivity.
Qed.

Lemma C7_line_numbers_witness :
  exists t1 t2 t3 t4 t5,
    output (cat (outbuf_size 4 4) 4
              {| show_nonprinting := false; show_tabs := false;
                 number := true; number_nonblank := false;
                 show_ends := true; squeeze_blank := false |}
              [got [97; 13]; got [10; 98; 10; 99]; got [10; 100; 10; 101];
               got [10]] 0 initial)
    = Some ([32; 32; 32; 32; 32; 48 + 1; 9] ++ t1 ++ [36; 10]
            ++ [32; 32; 32; 32; 32; 48 + 2; 9] ++ t2 ++ [36; 10]
            ++ [32; 32; 32; 32; 32; 48 + 3; 9] ++ t3 ++ [36; 10]
            ++ [32; 32; 32; 32; 32; 48 + 4; 9] ++ t4 ++ [36; 10]
            ++ [32; 32; 32; 32; 32; 48 + 5; 9] ++ t5 ++ [36; 10]) /\
    Forall2 (shown
               {| show_nonprinting := false; show_tabs := false;
                  number := true; number_nonblank := false;
                  show_ends := true; squeeze_blank := false |})
      [[97; 13]; [98]; [99]; [100]; [101]] [t1; t2; t3; t4; t5].
Proof.
  destruct (proj1
    (C7_line_numbers 4 4
       {| show_nonprinting := false; show_tabs := false; number := true;
          number_nonblank := false; show_ends := true;
          squeeze_blank := false |}
       [got [97; 13]; got [10; 98; 10; 99]; got [10; 100; 10; 101];
        got [10]]
       [97; 13] [98] [99] [100] [101]
       ltac:(lia)
       ltac:(repeat constructor; try discriminate;
             eexists; repeat split; simpl; try discriminate; lia)
       eq_refl
       ltac:(repeat constructor; lia) ltac:(repeat constructor; lia)
       ltac:(repeat constructor; lia) ltac:(repeat constructor; lia)
       ltac:(repeat constructor; lia))
    eq_refl eq_refl eq_refl)
    as (t1 & t2 & t3 & t4 & t5 & Hrun & Hshown & _).
  exists t1, t2, t3, t4, t5. split; [exact Hrun|exact Hshown].
Defined.

End EngineCutTheorems.

(** ** The line engine: the bytes that [show_nonprinting] leaves *)

Section EnginePrintable.

Import Engine.

Variable o : options.
Variable P : Z -> Prop.

Hypothesis quoting : show_nonprinting o = true.
Hypothesis P_quote :
  forall b, byte b -> b <> 10 -> Forall P (quote_text o b).
Hypothesis P_mark : Forall P (end_mark o).
Hypothesis P_number :
  number o = true -> forall c, counter_ok c -> Forall P (rendered c).

Lemma eol_text_all nl c :
  counter_ok c ->
  Forall P (eol_text o nl c).1.1 /\ counter_ok (eol_text o nl c).2.
Proof.
  intros Hc. unfold eol_text.
  destruct (0 <? nl + 1); [|auto].
  destruct ((2 <=? nl + 1) && squeeze_blank o); [cbn; auto|].
  destruct (number o && negb (number_nonblank o)) eqn:Hn; [|auto].
  apply andb_prop in Hn as [Hn _]. cbn [fst snd].
  pose proof (next_line_num_kept c Hc) as Hc'.
  split; [|exact Hc']. apply Forall_app. split; [|exact P_mark].
  apply P_number; assumption.
Qed.

Lemma chunk_text_all data : forall nl c,
  counter_ok c -> Forall byte data ->
  Forall P (chunk_text o data nl c).1.1 /\
  counter_ok (chunk_text o data nl c).2.
Proof.
  induction data as [|b data IH]; intros nl c Hc Hd.
  - cbn. auto.
  - apply Forall_cons in Hd as [Hb Hd].
    destruct (Z.eqb_spec b 10) as [->|Hne].
    + rewrite chunk_text_newline.
      destruct (eol_text_all nl c Hc) as [H1 H2].
      destruct (eol_text o nl c) as [[t1 nl1] c1]. cbn [fst snd] in H1, H2.
      destruct (IH nl1 c1 H2 Hd) as [H3 H4].
      destruct (chunk_text o data nl1 c1) as [[t2 nl2] c2].
      cbn [fst snd] in *. split; [|exact H4].
      apply Forall_app. auto.
    + rewrite chunk_text_byte by assumption. cbv zeta. rewrite quoting.
      set (numbered := (0 <=? nl) && number o).
      assert (Hc1 : counter_ok (if numbered then next_line_num c else c)).
      { destruct numbered; [apply next_line_num_kept|]; exact Hc. }
      destruct (IH (-1) _ Hc1 Hd) as [H3 H4].
      destruct (chunk_text o data (-1)
                  (if numbered then next_line_num c else c))
        as [[t2 nl2] c2].
      cbn [fst snd] in *. split; [|exact H4].
      apply Forall_app. split.
      * destruct numbered eqn:Hn; [|constructor].
        apply andb_prop in Hn as [_ Hn].
        apply P_number; [exact Hn|apply next_line_num_kept; exact Hc].
      * apply Forall_app. split; [|exact H3]. apply P_quote; assumption.
Qed.

Lemma chunks_text_all chunks : forall nl c,
  counter_ok c -> Forall (Forall byte) chunks ->
  Forall P (chunks_text o chunks nl c).1.1.
Proof.
  induction chunks as [|d chunks IH]; intros nl c Hc Hd; [constructor|].
  apply Forall_cons in Hd as [Hd Hrest].
  cbn [chunks_text].
  destruct (chunk_text_all d nl c Hc Hd) as [H1 H2].
  destruct (chunk_text o d nl c) as [[t1 nl1] c1]. cbn [fst snd] in H1, H2.
  specialize (IH nl1 c1 H2 Hrest).
  destruct (chunks_text o chunks nl1 c1) as [[t2 nl2] c2].
  cbn [fst] in *. apply Forall_app. auto.
Qed.

End EnginePrintable.

Section EnginePrintableTheorem.

Import Engine.

Lemma quote_text_printable o b :
  byte b -> b <> 10 ->
  Forall printable (quote_text o b) /\
  (show_tabs o = true ->
   Forall (fun b => b = 10 \/ 32 <= b <= 126) (quote_text o b)).
Proof.
  unfold byte, printable, quote_text. intros Hb Hne.
  destruct (show_tabs o);
    repeat match goal with |- context [if ?c then _ else _] =>
      destruct c eqn:? end;
    (split; [|intros Ht; try discriminate Ht]);
    repeat (apply List.Forall_cons; [lia|]); try apply List.Forall_nil.
Qed.

Lemma rendered_printable c : counter_ok c -> Forall printable (rendered c).
Proof.
  intros Hc. rewrite rendered_kept by assumption.
  destruct Hc as (_ & _ & _ & _ & _ & Hall & _).
  apply Forall_app. split.
  - apply Forall_drop. eapply Forall_impl; [exact Hall|].
    unfold printable. intros b Hb. cbv beta in Hb. lia.
  - apply List.Forall_cons; [unfold printable; lia|apply List.Forall_nil].
Qed.

(** X15: with [show_nonprinting] set, whatever bytes come in, every
    byte that [cat] writes is a tab, a newline, a blank or a visible
    ASCII character; with [show_tabs] set as well and no numbering, no
    tab is written either. *)
Theorem X15_quoted_output_is_printable insize outsize o script nl c :
  (1 <= outsize)%nat ->
  Forall (good_event insize) script ->
  Forall (Forall byte) (script_data script) ->
  show_nonprinting o = true ->
  counter_ok c -> numbers_fit o c (script_length script) ->
  exists nl' c' out,
    cat (outbuf_size insize outsize) outsize o script nl c
      = Return true nl' c' out /\
    Forall printable (concat out) /\
    (show_tabs o = true -> number o = false ->
     Forall (fun b => b = 10 \/ 32 <= b <= 126) (concat out)).
Proof.
  intros Hpos Hgood Hbytes Hv Hc Hfit.
  destruct (cat_main_text insize outsize o script nl c Hpos Hgood)
    as (out & Hcat & Hout).
  { apply (numbers_fit_le _ _ _ _ Hfit). apply chunks_calls_bytes. }
  eexists _, _, out. split; [exact Hcat|]. rewrite Hout. split.
  - apply chunks_text_all; try assumption.
    + intros b Hb Hne. apply quote_text_printable; assumption.
    + unfold end_mark, printable.
      destruct (show_ends o);
        repeat (apply List.Forall_cons; [lia|]); apply List.Forall_nil.
    + intros _ c0 Hc0. apply rendered_printable. exact Hc0.
  - intros Ht Hn. apply chunks_text_all; try assumption.
    + intros b Hb Hne. apply quote_text_printable; assumption.
    + unfold end_mark.
      destruct (show_ends o);
        repeat (apply List.Forall_cons; [lia|]); apply List.Forall_nil.
    + congruence.
Qed.

Lemma X15_quoted_output_is_printable_witness :
  let o := {| show_nonprinting := true; show_tabs := true; number := false;
              number_nonblank := false; show_ends := true;
              squeeze_blank := false |} in
  exists nl' c' out,
    cat (outbuf_size 4 4) 4 o [got [0; 9; 255]; got [10; 127]] 0 initial
      = Return true nl' c' out /\
    Forall printable (concat out) /\
    Forall (fun b => b = 10 \/ 32 <= b <= 126) (concat out).
Proof.
  intros o.
  destruct (X15_quoted_output_is_printable 4 4 o
              [got [0; 9; 255]; got [10; 127]] 0 initial)
    as (nl' & c' & out & Hcat & Hall & Htabs).
  - lia.
  - repeat constructor; try discriminate;
      eexists; repeat split; simpl; try discriminate; lia.
  - unfold byte. cbn [script_data map event_data ev_read got].
    repeat (apply List.Forall_cons;
            [repeat (apply List.Forall_cons; [lia|]); apply List.Forall_nil|]).
    apply List.Forall_nil.
  - reflexivity.
  - apply counter_ok_initial.
  - apply numbers_fit_initial. vm_compute. reflexivity.
  - exists nl', c', out. split; [exact Hcat|]. split; [exact Hall|].
    apply Htabs; reflexivity.
Defined.

End EnginePrintableTheorem.

(** ** The line engine: its writes and its failures *)

Section EngineWrites.

Import Engine.

Variable outbuf_len : nat.
Variable outsize : nat.
Variable o : options.

Hypothesis outsize_pos : (1 <= outsize)%nat.

Lemma flushed_on_refl s : flushed_on outsize s s.
Proof.
  split; [reflexivity|]. exists []. rewrite app_nil_r. split; constructor.
Qed.

Lemma flushed_on_trans s1 s2 s3 :
  flushed_on outsize s1 s2 -> flushed_on outsize s2 s3 ->
  flushed_on outsize s1 s3.
Proof.
  intros [Hu1 (b1 & Hw1 & Hb1)] [Hu2 (b2 & Hw2 & Hb2)].
  split; [congruence|]. exists (b1 ++ b2).
  rewrite Hw2, Hw1, <- app_assoc. split; [reflexivity|].
  apply Forall_app. auto.
Qed.

Lemma flushed_on_same s s' :
  written s' = written s -> use_fionread s' = use_fionread s ->
  flushed_on outsize s s'.
Proof.
  intros Hw Hu. split; [exact Hu|]. exists [].
  rewrite app_nil_r. split; [exact Hw|constructor].
Qed.

Lemma flush_flushed s s' :
  flush outsize s = Ok s' ->
  flushed_on outsize s s' /\ (length (bpout s') < outsize)%nat.
Proof.
  intros Hf.
  destruct (Nat.leb_spec outsize (length (bpout s))) as [Hfull|Hroom].
  - destruct (flush_full outsize s outsize_pos Hfull)
      as (blocks & rest & Heq & _ & Hall & _ & Hrest).
    rewrite Heq in Hf. injection Hf as <-. cbn.
    split; [|exact Hrest]. split; [reflexivity|]. exists blocks. auto.
  - unfold flush in Hf.
    destruct (Nat.leb_spec outsize (length (bpout s))); [lia|].
    injection Hf as <-. split; [apply flushed_on_refl|exact Hroom].
Qed.

Lemma number_line_same s s' :
  number_line outbuf_len s = Ok s' ->
  written s' = written s /\ use_fionread s' = use_fionread s.
Proof.
  unfold number_line. destruct (stpcpy _ _ _) as [b|f]; cbn [bind];
    [|discriminate].
  intros H. injection H as <-. auto.
Qed.

Lemma put_newline_same s s' :
  put_newline outbuf_len o s = Ok s' ->
  written s' = written s /\ use_fionread s' = use_fionread s.
Proof.
  unfold put_newline.
  destruct (if show_ends o then put outbuf_len 36 (bpout s) else Ok (bpout s))
    as [b|f]; cbn [bind]; [|discriminate].
  destruct (put outbuf_len 10 b) as [b'|f]; cbn [bind]; [|discriminate].
  intros H. injection H as <-. auto.
Qed.

Lemma end_of_line_same s s' :
  end_of_line outbuf_len o s = Ok s' ->
  written s' = written s /\ use_fionread s' = use_fionread s.
Proof.
  unfold end_of_line.
  destruct (0 <? newlines s + 1).
  - destruct ((2 <=? newlines s + 1) && squeeze_blank o).
    + intros H. injection H as <-. auto.
    + destruct (number o && negb (number_nonblank o)); cbn [bind].
      * destruct (number_line outbuf_len (set_newlines _ s)) as [s1|f] eqn:Hn;
          cbn [bind]; [|discriminate].
        apply number_line_same in Hn as [Hw Hu]. cbn in Hw, Hu.
        intros H. apply put_newline_same in H as [Hw' Hu']. split; congruence.
      * intros H. apply put_newline_same in H as [Hw' Hu']. auto.
  - intros H. apply put_newline_same in H as [Hw' Hu']. auto.
Qed.

Lemma fetched_flushed again bpin s s' :
  (forall bpin s s', again bpin s = Ok s' ->
     flushed_on outsize s s' /\ (length (bpout s') < outsize)%nat) ->
  fetched outbuf_len o again bpin s = Ok s' ->
  flushed_on outsize s s' /\ (length (bpout s') < outsize)%nat.
Proof.
  intros Hagain. unfold fetched.
  destruct bpin as [|ch bpin]; [discriminate|].
  destruct (ch =? 10); [apply Hagain|].
  destruct (if (0 <=? newlines s) && number o
            then number_line outbuf_len s else Ok s) as [s1|f] eqn:Hn;
    cbn [bind]; [|discriminate].
  assert (Hs1 : written s1 = written s /\ use_fionread s1 = use_fionread s).
  { destruct ((0 <=? newlines s) && number o).
    - apply number_line_same. exact Hn.
    - injection Hn as <-. auto. }
  destruct (if show_nonprinting o
            then scan_quoted outbuf_len o bpin ch (bpout s1)
            else scan_plain outbuf_len o bpin ch (bpout s1))
    as [[bpin' b]|f]; cbn [bind]; [|discriminate].
  intros H. apply Hagain in H as [Hfl Hb]. split; [|exact Hb].
  destruct Hs1 as [Hw Hu].
  eapply flushed_on_trans; [|exact Hfl].
  apply flushed_on_same; cbn; assumption.
Qed.

Lemma lines_flushed : forall fuel bpin s s',
  lines outbuf_len outsize o fuel bpin s = Ok s' ->
  flushed_on outsize s s' /\ (length (bpout s') < outsize)%nat.
Proof.
  induction fuel as [|fuel IH]; intros bpin s s'; cbn [lines];
    [discriminate|].
  destruct (flush outsize s) as [s1|f] eqn:Hf; cbn [bind]; [|discriminate].
  apply flush_flushed in Hf as [Hf Hb1].
  destruct bpin as [|x bpin].
  - intros H. injection H as <-. auto.
  - destruct (end_of_line outbuf_len o s1) as [s2|f] eqn:He; cbn [bind];
      [|discriminate].
    apply end_of_line_same in He as [Hw Hu].
    intros H. apply (fetched_flushed _ _ _ _ (IH)) in H as [Hfl Hb].
    split; [|exact Hb].
    eapply flushed_on_trans; [exact Hf|].
    eapply flushed_on_trans; [|exact Hfl].
    apply flushed_on_same; assumption.
Qed.

Lemma chunk_flushed data s s' :
  chunk outbuf_len outsize o data s = Ok s' ->
  flushed_on outsize s s' /\ (length (bpout s') < outsize)%nat.
Proof.
  unfold chunk. apply fetched_flushed. apply lines_flushed.
Qed.

(** One pass through the reading code that brings bytes. *)
Lemma reads_step insize ev script s :
  good_event insize ev ->
  reads outbuf_len outsize o (ev :: script) s =
  match chunk outbuf_len outsize o (event_data ev) (before_read ev s) with
  | Ok s3 => reads outbuf_len outsize o script s3
  | Stop f => Halt f
  end.
Proof.
  intros [Hio (data & Hrd & Hne & Hlen)].
  destruct ev as [io rd]. cbn in Hio, Hrd. subst rd.
  unfold event_data, before_read. cbn [ev_read ev_ioctl].
  destruct data as [|x data]; [congruence|].
  cbn [reads ev_ioctl ev_read].
  destruct (use_fionread s); [destruct io as [n| |]|];
    try congruence; try reflexivity.
  - destruct (n =? 0); reflexivity.
Qed.

Lemma before_read_kept ev s :
  total (before_read ev s) = total s /\
  newlines (before_read ev s) = newlines s /\
  counter (before_read ev s) = counter s /\
  (length (bpout (before_read ev s)) <= length (bpout s))%nat /\
  (use_fionread s = false -> use_fionread (before_read ev s) = false) /\
  (ev_ioctl ev <> Unsupported -> ev_ioctl ev <> IoctlFailed ->
   use_fionread (before_read ev s) = use_fionread s) /\
  (use_fionread s = true -> input_pending ev -> before_read ev s = s).
Proof.
  unfold before_read.
  destruct (use_fionread s) eqn:Hu; [destruct (ev_ioctl ev) as [n| |] eqn:Hio|].
  - destruct (Z.eqb_spec n 0).
    + destruct (write_pending_total s) as (H1 & H2 & H3 & H4 & H5).
      repeat split; try assumption; try congruence.
      intros _ (m & Hm & Hne). congruence.
    + repeat split; auto; congruence.
  - match goal with |- context [write_pending ?s1] =>
      destruct (write_pending_total s1) as (H1 & H2 & H3 & H4 & H5)
    end.
    rewrite H1, H3, H4, H5. cbn. repeat split; auto; try congruence.
    intros _ (m & Hm & Hne). congruence.
  - match goal with |- context [write_pending ?s1] =>
      destruct (write_pending_total s1) as (H1 & H2 & H3 & H4 & H5)
    end.
    rewrite H1, H3, H4, H5. cbn. repeat split; auto; try congruence.
    intros _ (m & Hm & Hne). congruence.
  - change (0 =? 0) with true. cbv iota.
    destruct (write_pending_total s) as (H1 & H2 & H3 & H4 & H5).
    repeat split; try assumption; try congruence.
Qed.

End EngineWrites.

Section EngineFailures.

Import Engine.

Variable outbuf_len : nat.
Variable outsize : nat.
Variable insize : nat.
Variable o : options.

Hypothesis outsize_pos : (1 <= outsize)%nat.
Hypothesis outbuf_room : (outsize + 4 * insize + 19 <= outbuf_len)%nat.

(** The reads that bring bytes, followed by anything. *)
Lemma reads_prefix pre : forall tail s,
  Forall (good_event insize) pre ->
  (length (bpout s) < outsize)%nat ->
  numbers_fit o (counter s)
    (chunks_calls o (script_data pre) (newlines s) (counter s)) ->
  let all := chunks_text o (script_data pre) (newlines s) (counter s) in
  exists s',
    reads outbuf_len outsize o (pre ++ tail) s
      = reads outbuf_len outsize o tail s' /\
    total s' = total s ++ all.1.1 /\
    newlines s' = all.1.2 /\ counter s' = all.2 /\
    (length (bpout s') < outsize)%nat /\
    (use_fionread s = false -> use_fionread s' = false) /\
    (Forall (fun ev => ev_ioctl ev <> Unsupported) pre ->
     use_fionread s' = use_fionread s) /\
    (use_fionread s = true -> Forall input_pending pre ->
     flushed_on outsize s s').
Proof.
  induction pre as [|ev pre IH]; intros tail s Hgood Hb Hfit; cbv zeta.
  - exists s. cbn. rewrite app_nil_r.
    split; [reflexivity|]. split; [reflexivity|]. split; [reflexivity|].
    split; [reflexivity|]. split; [assumption|]. split; [auto|].
    split; [auto|]. intros _ _. apply flushed_on_refl.
  - apply Forall_cons in Hgood as [Hev Hgood].
    cbn [app]. rewrite (reads_step _ _ _ insize) by assumption.
    destruct (before_read_kept ev s) as (Ht & Hn & Hc & Hb2 & Hu0 & Hu1 & Hp).
    cbn [script_data map chunks_text chunks_calls] in *.
    rewrite <- Hn, <- Hc in *.
    set (s2 := before_read ev s) in *.
    destruct (chunk_text o (event_data ev) (newlines s2) (counter s2))
      as [[t1 nl1] c1] eqn:Hchunk.
    assert (Hlen : (length (event_data ev) <= insize)%nat).
    { destruct Hev as [_ (data & Hrd & _ & Hlen)].
      unfold event_data. rewrite Hrd. exact Hlen. }
    destruct (chunk_ok outbuf_len outsize o insize outsize_pos outbuf_room
                (event_data ev) s2 t1 nl1 c1)
      as (s3 & Hrun & Htot3 & Hn3 & Hc3 & Hb3 & Hu3);
      [assumption|lia|apply (numbers_fit_le _ _ _ _ Hfit); lia|assumption|].
    rewrite Hrun.
    destruct (IH tail s3 Hgood Hb3) as (s' & Hreads & Htot & Hn' & Hc' & Hb' & Hf0 & Hf1 & Hfl).
    { rewrite Hn3, Hc3. apply (chunk_text_fit _ _ _ _ _ _ _ _ Hchunk Hfit). }
    cbv zeta in Htot, Hn', Hc'. rewrite Hn3, Hc3 in Htot, Hn', Hc'.
    exists s'. split; [exact Hreads|].
    unfold script_data in Htot, Hn', Hc'.
    destruct (chunks_text o (map event_data pre) nl1 c1) as [[t2 nl2] c2].
    cbn [fst snd] in *.
    split; [rewrite Htot, Htot3, Ht, <- app_assoc; reflexivity|].
    split; [assumption|]. split; [assumption|]. split; [assumption|].
    split; [|split].
    + intros Hu. apply Hf0. rewrite Hu3. apply Hu0. exact Hu.
    + intros Hall. apply Forall_cons in Hall as [Hne Hall].
      rewrite (Hf1 Hall), Hu3. apply Hu1; [exact Hne|apply Hev].
    + intros Hu Hall. apply Forall_cons in Hall as [Hpend Hall].
      assert (Hs2 : s2 = s) by (apply Hp; assumption).
      apply (chunk_flushed _ _ _ outsize_pos) in Hrun as [Hfl3 _].
      rewrite Hs2 in Hfl3.
      eapply flushed_on_trans; [exact Hfl3|].
      apply Hfl; [|exact Hall].
      rewrite Hu3. fold s2. rewrite Hs2. exact Hu.
Qed.

Lemma reads_read_failed ev later s :
  ev_read ev = ReadFailed -> ev_ioctl ev <> IoctlFailed ->
  reads outbuf_len outsize o (ev :: later) s
  = leave false (write_pending (before_read ev s)).
Proof.
  intros Hrd Hio. destruct ev as [io rd]. cbn in Hrd, Hio. subst rd.
  unfold before_read. cbn [reads ev_ioctl ev_read].
  destruct (use_fionread s); [destruct io as [n| |]|]; try congruence;
    try reflexivity.
  - destruct (n =? 0); reflexivity.
Qed.

Lemma cat_reads script nl c :
  cat outbuf_len outsize o script nl c =
  reads outbuf_len outsize o script
    {| newlines := nl; counter := c; bpout := []; written := [];
       use_fionread := true |}.
Proof.
  unfold cat, flush. cbn [bpout length].
  destruct (Nat.leb_spec outsize 0); [lia|]. reflexivity.
Qed.

(** When a read fails after reads that brought bytes: everything the
    earlier reads gave is written, and [cat] returns false. *)
Lemma cat_read_failed pre ev later nl c :
  Forall (good_event insize) pre ->
  ev_read ev = ReadFailed -> ev_ioctl ev <> IoctlFailed ->
  numbers_fit o c (chunks_calls o (script_data pre) nl c) ->
  let all := chunks_text o (script_data pre) nl c in
  exists out,
    cat outbuf_len outsize o (pre ++ ev :: later) nl c
      = Return false all.1.2 all.2 out /\
    concat out = all.1.1.
Proof.
  intros Hgood Hrd Hio Hfit. cbv zeta. rewrite cat_reads.
  match goal with |- context [reads _ _ _ _ ?s] => set (s0 := s) end.
  destruct (reads_prefix pre (ev :: later) s0 Hgood)
    as (s' & -> & Htot & Hn & Hc & _); [cbn; lia|cbn; exact Hfit|].
  cbv zeta in Htot, Hn, Hc. cbn [newlines counter] in Htot, Hn, Hc.
  rewrite reads_read_failed by assumption. unfold leave.
  destruct (before_read_kept ev s') as (Ht & Hn2 & Hc2 & _).
  destruct (write_pending_total (before_read ev s')) as (_ & _ & Hn3 & Hc3 & _).
  rewrite Hn3, Hc3, Hn2, Hc2, Hn, Hc.
  eexists. split; [reflexivity|].
  rewrite write_pending_concat, Ht, Htot. reflexivity.
Qed.

(** When the [ioctl] fails for good after reads that brought bytes:
    [cat] returns false without a read and without writing what is in
    the buffer. *)
Lemma cat_ioctl_failed pre ev later nl c :
  Forall (good_event insize) pre ->
  Forall (fun e => ev_ioctl e <> Unsupported) pre ->
  ev_ioctl ev = IoctlFailed ->
  numbers_fit o c (chunks_calls o (script_data pre) nl c) ->
  let all := chunks_text o (script_data pre) nl c in
  exists out lost,
    cat outbuf_len outsize o (pre ++ ev :: later) nl c
      = Return false all.1.2 all.2 out /\
    concat out ++ lost = all.1.1 /\
    (length lost < outsize)%nat /\
    (Forall input_pending pre ->
     Forall (fun b => length b = outsize) out).
Proof.
  intros Hgood Hsup Hio Hfit. cbv zeta. rewrite cat_reads.
  match goal with |- context [reads _ _ _ _ ?s] => set (s0 := s) end.
  destruct (reads_prefix pre (ev :: later) s0 Hgood)
    as (s' & -> & Htot & Hn & Hc & Hb & _ & Hu & Hfl);
    [cbn; lia|cbn; exact Hfit|].
  cbv zeta in Htot, Hn, Hc. cbn in Htot, Hn, Hc, Hu, Hfl.
  specialize (Hu Hsup).
  cbn [reads]. rewrite Hu, Hio. unfold leave. rewrite Hn, Hc.
  exists (written s'), (bpout s'). split; [reflexivity|].
  split; [exact Htot|]. split; [exact Hb|].
  intros Hpend. destruct (Hfl eq_refl Hpend) as [_ (blocks & Hw & Hall)].
  cbn in Hw. rewrite Hw. exact Hall.
Qed.

(** When input is pending at every read, every write but the last is
    a block of [outsize] bytes. *)
Lemma cat_blocks script nl c :
  Forall (good_event insize) script ->
  Forall input_pending script ->
  numbers_fit o c (chunks_calls o (script_data script) nl c) ->
  let all := chunks_text o (script_data script) nl c in
  exists blocks rest,
    cat outbuf_len outsize o script nl c
      = Return true all.1.2 all.2
          (blocks ++ match rest with [] => [] | _ :: _ => [rest] end) /\
    Forall (fun b => length b = outsize) blocks /\
    (length rest < outsize)%nat /\
    concat blocks ++ rest = all.1.1.
Proof.
  intros Hgood Hpend Hfit. cbv zeta. rewrite cat_reads.
  match goal with |- context [reads _ _ _ _ ?s] => set (s0 := s) end.
  destruct (reads_prefix script [] s0 Hgood)
    as (s' & Hr & Htot & Hn & Hc & Hb & _ & _ & Hfl);
    [cbn; lia|cbn; exact Hfit|].
  rewrite app_nil_r in Hr. rewrite Hr.
  cbv zeta in Htot, Hn, Hc. cbn in Htot, Hn, Hc, Hfl.
  destruct (Hfl eq_refl Hpend) as [_ (blocks & Hw & Hall)]. cbn in Hw.
  cbn [reads]. unfold leave.
  destruct (write_pending_total s') as (_ & _ & -> & -> & _).
  rewrite Hn, Hc. exists blocks, (bpout s').
  unfold total in Htot. rewrite Hw in Htot.
  split; [|auto].
  f_equal. unfold write_pending.
  destruct (bpout s') eqn:E; cbn; rewrite Hw, ?app_nil_r; reflexivity.
Qed.

(** Without [use_fionread] the answers of the [ioctl] play no part. *)
Lemma reads_without_ioctl script script' :
  same_reads script script' ->
  forall s, use_fionread s = false ->
  reads outbuf_len outsize o script s = reads outbuf_len outsize o script' s.
Proof.
  induction 1 as [|ev ev' script script' Hrd _ IH]; intros s Hu;
    [reflexivity|].
  cbn [reads]. rewrite Hu, <- Hrd. change (0 =? 0) with true. cbn [negb].
  destruct (ev_read ev) as [|[|x data]]; try reflexivity.
  destruct (chunk outbuf_len outsize o (x :: data) (write_pending s))
    as [s3|f] eqn:Hrun; [|reflexivity].
  apply IH.
  apply (chunk_flushed _ _ _ outsize_pos) in Hrun as [[Hu3 _] _].
  rewrite Hu3. destruct (write_pending_total s) as (_ & _ & _ & _ & ->).
  exact Hu.
Qed.

Lemma reads_unsupported pre ev script script' : forall s,
  ev_ioctl ev = Unsupported -> same_reads script script' ->
  reads outbuf_len outsize o (pre ++ ev :: script) s
  = reads outbuf_len outsize o (pre ++ ev :: script') s.
Proof.
  induction pre as [|e pre IH]; intros s Hio Hsame.
  - cbn [app reads]. rewrite Hio.
    destruct (use_fionread s) eqn:Hu.
    + cbv iota.
      destruct (ev_read ev) as [|[|x data]]; try reflexivity.
      match goal with |- context [chunk _ _ _ _ ?s2] =>
        destruct (chunk outbuf_len outsize o (x :: data) s2) as [s3|f] eqn:Hrun;
          [|reflexivity];
        apply (chunk_flushed _ _ _ outsize_pos) in Hrun as [[Hu3 _] _];
        destruct (write_pending_total
                    {| newlines := newlines s; counter := counter s;
                       bpout := bpout s; written := written s;
                       use_fionread := false |}) as (_ & _ & _ & _ & Hu2)
      end.
      apply reads_without_ioctl; [exact Hsame|].
      rewrite Hu3, Hu2. reflexivity.
    + change (0 =? 0) with true. cbn [negb].
      destruct (ev_read ev) as [|[|x data]]; try reflexivity.
      destruct (chunk outbuf_len outsize o (x :: data) (write_pending s))
        as [s3|f] eqn:Hrun; [|reflexivity].
      apply reads_without_ioctl; [exact Hsame|].
      apply (chunk_flushed _ _ _ outsize_pos) in Hrun as [[Hu3 _] _].
      rewrite Hu3. destruct (write_pending_total s) as (_ & _ & _ & _ & ->).
      exact Hu.
  - cbn [app reads].
    destruct (if use_fionread s then ev_ioctl e else Available 0) as [n| |];
      try reflexivity.
    + destruct (ev_read e) as [|[|x data]]; try reflexivity.
      match goal with |- context [chunk _ _ _ _ ?s2] =>
        destruct (chunk outbuf_len outsize o (x :: data) s2) as [s3|f];
          [|reflexivity]
      end.
      apply IH; assumption.
    + destruct (ev_read e) as [|[|x data]]; try reflexivity.
      match goal with |- context [chunk _ _ _ _ ?s2] =>
        destruct (chunk outbuf_len outsize o (x :: data) s2) as [s3|f];
          [|reflexivity]
      end.
      apply IH; assumption.
Qed.

End EngineFailures.

Section EngineFailureTheorems.

Import Engine.

(** X16: when a read fails after reads that brought bytes, [cat]
    writes everything that is still in its buffer, saves [newlines] and
    returns false without reading further: the bytes written, the count
    of blank lines and the line counter are those of a file that ends
    where the read failed. *)
Theorem X16_read_error_writes_all_and_fails insize outsize o pre ev later
    nl c :
  (1 <= outsize)%nat ->
  Forall (good_event insize) pre ->
  ev_read ev = ReadFailed -> ev_ioctl ev <> IoctlFailed ->
  numbers_fit o c (script_length pre) ->
  exists nl' c' out out',
    cat (outbuf_size insize outsize) outsize o pre nl c
      = Return true nl' c' out /\
    cat (outbuf_size insize outsize) outsize o (pre ++ ev :: later) nl c
      = Return false nl' c' out' /\
    concat out' = concat out.
Proof.
  intros Hpos Hgood Hrd Hio Hfit.
  assert (Hcalls : numbers_fit o c (chunks_calls o (script_data pre) nl c)).
  { apply (numbers_fit_le _ _ _ _ Hfit). apply chunks_calls_bytes. }
  destruct (cat_main_text insize outsize o pre nl c Hpos Hgood Hcalls)
    as (out & Hcat & Hout).
  destruct (cat_read_failed (outbuf_size insize outsize) outsize insize o
              Hpos (outbuf_size_room insize outsize Hpos)
              pre ev later nl c Hgood Hrd Hio Hcalls)
    as (out' & Hfail & Hout').
  cbv zeta in Hfail, Hout'.
  eexists _, _, out, out'. split; [exact Hcat|]. split; [exact Hfail|].
  congruence.
Qed.

Lemma X16_read_error_writes_all_and_fails_witness :
  let o := {| show_nonprinting := false; show_tabs := false; number := true;
              number_nonblank := false; show_ends := false;
              squeeze_blank := false |} in
  exists nl' c' out out',
    cat (outbuf_size 4 8) 8 o [{| ev_ioctl := Available 5;
                                  ev_read := ReadOk [97; 10] |}] 0 initial
      = Return true nl' c' out /\
    cat (outbuf_size 4 8) 8 o
      ([{| ev_ioctl := Available 5; ev_read := ReadOk [97; 10] |}]
       ++ {| ev_ioctl := Available 3; ev_read := ReadFailed |} :: []) 0 initial
      = Return false nl' c' out' /\
    concat out' = concat out.
Proof.
  intros o.
  apply (X16_read_error_writes_all_and_fails 4 8 o
           [{| ev_ioctl := Available 5; ev_read := ReadOk [97; 10] |}]
           {| ev_ioctl := Available 3; ev_read := ReadFailed |} [] 0 initial).
  - lia.
  - repeat constructor; try discriminate;
      eexists; repeat split; simpl; try discriminate; lia.
  - reflexivity.
  - discriminate.
  - apply numbers_fit_initial. vm_compute. reflexivity.
Defined.

Lemma length_concat_blocks (n : nat) (blocks : list (list Z)) :
  Forall (fun b => length b = n) blocks ->
  length (concat blocks) = (n * length blocks)%nat.
Proof.
  induction 1 as [|b blocks Hb _ IH]; [simpl; lia|].
  cbn [concat length]. rewrite length_app, IH, Hb. lia.
Qed.

(** X17: when the [ioctl] fails for good, [cat] returns false at
    once, without a read and without writing what is in its buffer: of
    the bytes that a file ending there gives, the last ones, fewer than
    [outsize], are not written.  When input was pending at every read
    before, only whole blocks of [outsize] bytes were written, so that
    what is lost is all that lies behind the last whole block. *)
Theorem X17_ioctl_error_drops_the_buffer insize outsize o pre ev later
    nl c :
  (1 <= outsize)%nat ->
  Forall (good_event insize) pre ->
  Forall (fun e => ev_ioctl e <> Unsupported) pre ->
  ev_ioctl ev = IoctlFailed ->
  numbers_fit o c (script_length pre) ->
  exists nl' c' out out' lost,
    cat (outbuf_size insize outsize) outsize o pre nl c
      = Return true nl' c' out /\
    cat (outbuf_size insize outsize) outsize o (pre ++ ev :: later) nl c
      = Return false nl' c' out' /\
    concat out' ++ lost = concat out /\
    (length lost < outsize)%nat /\
    (Forall input_pending pre ->
     Forall (fun b => length b = outsize) out' /\
     length lost = (length (concat out) mod outsize)%nat).
Proof.
  intros Hpos Hgood Hsup Hio Hfit.
  assert (Hcalls : numbers_fit o c (chunks_calls o (script_data pre) nl c)).
  { apply (numbers_fit_le _ _ _ _ Hfit). apply chunks_calls_bytes. }
  destruct (cat_main_text insize outsize o pre nl c Hpos Hgood Hcalls)
    as (out & Hcat & Hout).
  destruct (cat_ioctl_failed (outbuf_size insize outsize) outsize insize o
              Hpos (outbuf_size_room insize outsize Hpos)
              pre ev later nl c Hgood Hsup Hio Hcalls)
    as (out' & lost & Hfail & Hout' & Hlost & Hblocks).
  cbv zeta in Hfail, Hout'.
  eexists _, _, out, out', lost. split; [exact Hcat|]. split; [exact Hfail|].
  split; [congruence|]. split; [exact Hlost|].
  intros Hpend. specialize (Hblocks Hpend). split; [exact Hblocks|].
  rewrite Hout, <- Hout', length_app.
  rewrite (length_concat_blocks outsize out' Hblocks).
  rewrite Nat.add_comm, Nat.mul_comm, Nat.Div0.mod_add.
  symmetry. apply Nat.mod_small. exact Hlost.
Qed.

Lemma X17_ioctl_error_drops_the_buffer_witness :
  let o := {| show_nonprinting := false; show_tabs := false; number := true;
              number_nonblank := false; show_ends := false;
              squeeze_blank := false |} in
  exists nl' c' out out' lost,
    cat (outbuf_size 4 8) 8 o [{| ev_ioctl := Available 5;
                                  ev_read := ReadOk [97; 10] |}] 0 initial
      = Return true nl' c' out /\
    cat (outbuf_size 4 8) 8 o
      ([{| ev_ioctl := Available 5; ev_read := ReadOk [97; 10] |}]
       ++ {| ev_ioctl := IoctlFailed; ev_read := ReadOk [98] |} :: [])
      0 initial
      = Return false nl' c' out' /\
    concat out' ++ lost = concat out /\
    (length lost < 8)%nat /\
    Forall (fun b => length b = 8%nat) out' /\
    length lost = (length (concat out) mod 8)%nat.
Proof.
  intros o.
  destruct (X17_ioctl_error_drops_the_buffer 4 8 o
              [{| ev_ioctl := Available 5; ev_read := ReadOk [97; 10] |}]
              {| ev_ioctl := IoctlFailed; ev_read := ReadOk [98] |} [] 0
              initial)
    as (nl' & c' & out & out' & lost & H1 & H2 & H3 & H4 & H5).
  - lia.
  - repeat constructor; try discriminate;
      eexists; repeat split; simpl; try discriminate; lia.
  - repeat constructor; discriminate.
  - reflexivity.
  - apply numbers_fit_initial. vm_compute. reflexivity.
  - exists nl', c', out, out', lost.
    split; [exact H1|]. split; [exact H2|]. split; [exact H3|].
    split; [exact H4|]. apply H5.
    repeat constructor. exists 5. split; [reflexivity|lia].
Defined.

(** X18: when input is pending at every read, so that [cat] never
    writes ahead of a wait, every write it makes is a block of exactly
    [outsize] bytes, but for the last one at the end of the file, which
    takes what is left, fewer than [outsize] bytes, and is not made when
    nothing is left. *)
Theorem X18_writes_are_whole_blocks insize outsize o script nl c :
  (1 <= outsize)%nat ->
  Forall (good_event insize) script ->
  Forall input_pending script ->
  numbers_fit o c (script_length script) ->
  exists nl' c' blocks rest,
    cat (outbuf_size insize outsize) outsize o script nl c
      = Return true nl' c'
          (blocks ++ match rest with [] => [] | _ :: _ => [rest] end) /\
    Forall (fun b => length b = outsize) blocks /\
    (length rest < outsize)%nat.
Proof.
  intros Hpos Hgood Hpend Hfit.
  assert (Hcalls : numbers_fit o c (chunks_calls o (script_data script) nl c)).
  { apply (numbers_fit_le _ _ _ _ Hfit). apply chunks_calls_bytes. }
  destruct (cat_blocks (outbuf_size insize outsize) outsize insize o
              Hpos (outbuf_size_room insize outsize Hpos)
              script nl c Hgood Hpend Hcalls)
    as (blocks & rest & Hcat & Hall & Hrest & _).
  cbv zeta in Hcat. eexists _, _, blocks, rest.
  split; [exact Hcat|]. split; assumption.
Qed.

Lemma X18_writes_are_whole_blocks_witness :
  let o := {| show_nonprinting := true; show_tabs := false; number := false;
              number_nonblank := false; show_ends := false;
              squeeze_blank := false |} in
  let script := [{| ev_ioctl := Available 5; ev_read := ReadOk [200; 201] |};
                 {| ev_ioctl := Available 3; ev_read := ReadOk [10; 202] |}] in
  exists nl' c' blocks rest,
    cat (outbuf_size 2 3) 3 o script 0 initial
      = Return true nl' c'
          (blocks ++ match rest with [] => [] | _ :: _ => [rest] end) /\
    Forall (fun b => length b = 3%nat) blocks /\
    (length rest < 3)%nat.
Proof.
  intros o script.
  apply (X18_writes_are_whole_blocks 2 3 o script 0 initial).
  - lia.
  - repeat constructor; try discriminate;
      eexists; repeat split; simpl; try discriminate; lia.
  - repeat constructor; eexists; split; (reflexivity || lia).
  - apply numbers_fit_unnumbered. reflexivity.
Defined.

(** X19: once the [ioctl] has answered that it is not supported,
    [cat] does not call it again for this file: whatever the later
    [ioctl]s would have answered, also a failure, the run is the
    same. *)
Theorem X19_unsupported_ioctl_is_not_asked_again outbuf_len outsize o
    pre ev script script' nl c :
  (1 <= outsize)%nat ->
  ev_ioctl ev = Unsupported -> same_reads script script' ->
  cat outbuf_len outsize o (pre ++ ev :: script) nl c
  = cat outbuf_len outsize o (pre ++ ev :: script') nl c.
Proof.
  intros Hpos Hio Hsame. unfold cat.
  destruct (flush outsize _) as [s|f]; [|reflexivity].
  apply reads_unsupported; assumption.
Qed.

Lemma X19_unsupported_ioctl_is_not_asked_again_witness :
  let o := {| show_nonprinting := false; show_tabs := false; number := true;
              number_nonblank := false; show_ends := false;
              squeeze_blank := false |} in
  cat 99 4 o
    ([] ++ {| ev_ioctl := Unsupported; ev_read := ReadOk [97] |}
        :: [{| ev_ioctl := IoctlFailed; ev_read := ReadOk [98; 10] |}])
    0 initial
  = cat 99 4 o
      ([] ++ {| ev_ioctl := Unsupported; ev_read := ReadOk [97] |}
          :: [{| ev_ioctl := Available 0; ev_read := ReadOk [98; 10] |}])
      0 initial.
Proof.
  intros o.
  apply (X19_unsupported_ioctl_is_not_asked_again 99 4 o []
           {| ev_ioctl := Unsupported; ev_read := ReadOk [97] |}
           [{| ev_ioctl := IoctlFailed; ev_read := ReadOk [98; 10] |}]
           [{| ev_ioctl := Available 0; ev_read := ReadOk [98; 10] |}]
           0 initial).
  - lia.
  - reflexivity.
  - repeat constructor.
Defined.

End EngineFailureTheorems.

(** ** [main]: the options *)

Section MainOptions.

Import Engine Main.

Lemma parse_options_app cs1 : forall cs2 o,
  parse_options (cs1 ++ cs2) o =
  match parse_options cs1 o with
  | Some o' => parse_options cs2 o'
  | None => None
  end.
Proof.
  induction cs1 as [|c cs1 IH]; intros cs2 o; [reflexivity|].
  cbn [app parse_options]. destruct (set_option c o); [apply IH|reflexivity].
Qed.

Lemma set_option_letter c o :
  In c option_letters ->
  set_option c o =
  Some {| show_nonprinting :=
            show_nonprinting o || given 118 [c] || given 101 [c]
            || given 116 [c] || given 65 [c];
          show_tabs := show_tabs o || given 116 [c] || given 65 [c]
                       || given 84 [c];
          number := number o || given 98 [c] || given 110 [c];
          number_nonblank := number_nonblank o || given 98 [c];
          show_ends := show_ends o || given 101 [c] || given 65 [c]
                       || given 69 [c];
          squeeze_blank := squeeze_blank o || given 115 [c] |}.
Proof.
  intros Hc. unfold option_letters in Hc. cbn [In] in Hc.
  destruct o as [v t n b e s].
  repeat (destruct Hc as [<-|Hc];
          [cbn; rewrite ?orb_true_r, ?orb_false_r; reflexivity|]).
  contradiction.
Qed.

Lemma set_option_other c o :
  ~ In c option_letters -> set_option c o = None.
Proof.
  intros Hc. unfold option_letters in Hc. cbn [In] in Hc.
  assert (c <> 98 /\ c <> 101 /\ c <> 110 /\ c <> 115 /\ c <> 116 /\
          c <> 117 /\ c <> 118 /\ c <> 65 /\ c <> 69 /\ c <> 84)
    as (? & ? & ? & ? & ? & ? & ? & ? & ? & ?)
    by (repeat split; intros ->; apply Hc; tauto).
  unfold set_option.
  destruct c as [|q|q]; try reflexivity.
  repeat (destruct q as [q|q|]; try reflexivity; try congruence).
Qed.

Lemma given_cons c x cs : given c (x :: cs) = given c [x] || given c cs.
Proof. unfold given. cbn [existsb]. rewrite orb_false_r. reflexivity. Qed.

Lemma parse_options_letters (cs : list Z) : forall o,
  Forall (fun c => In c option_letters) cs ->
  parse_options cs o =
  Some {| show_nonprinting :=
            show_nonprinting o || given 118 cs || given 101 cs
            || given 116 cs || given 65 cs;
          show_tabs := show_tabs o || given 116 cs || given 65 cs
                       || given 84 cs;
          number := number o || given 98 cs || given 110 cs;
          number_nonblank := number_nonblank o || given 98 cs;
          show_ends := show_ends o || given 101 cs || given 65 cs
                       || given 69 cs;
          squeeze_blank := squeeze_blank o || given 115 cs |}.
Proof.
  induction cs as [|c cs IH]; intros o Hall.
  - destruct o. cbn. rewrite ?orb_false_r. reflexivity.
  - apply Forall_cons in Hall as [Hc Hall].
    cbn [parse_options]. rewrite (set_option_letter c o Hc).
    rewrite (IH _ Hall). cbn [show_nonprinting show_tabs number
      number_nonblank show_ends squeeze_blank].
    rewrite (given_cons 118 c cs), (given_cons 101 c cs),
      (given_cons 116 c cs), (given_cons 65 c cs), (given_cons 84 c cs),
      (given_cons 98 c cs), (given_cons 110 c cs), (given_cons 69 c cs),
      (given_cons 115 c cs).
    destruct o as [v t n b e s].
    cbn [show_nonprinting show_tabs number number_nonblank show_ends
         squeeze_blank].
    f_equal. f_equal;
      repeat match goal with |- context [given ?a ?l] =>
        generalize (given a l); intro end;
      repeat match goal with |- context [orb ?x _] =>
        is_var x; destruct x; cbn [orb] end;
      rewrite ?orb_true_r; reflexivity.
Qed.

Lemma parse_options_other (cs : list Z) : forall o,
  Exists (fun c => ~ In c option_letters) cs -> parse_options cs o = None.
Proof.
  induction cs as [|c cs IH]; intros o Hex.
  - inversion Hex.
  - cbn [parse_options].
    destruct (decide (In c option_letters)) as [Hc|Hc].
    + rewrite (set_option_letter c o Hc). apply IH.
      apply Exists_cons in Hex as [Hex|Hex]; [contradiction|exact Hex].
    + rewrite (set_option_other c o Hc). reflexivity.
Qed.

Lemma given_In c cs : given c cs = true <-> In c cs.
Proof.
  unfold given. rewrite existsb_exists. split.
  - intros (x & Hx & Heq). apply Z.eqb_eq in Heq. subst x. exact Hx.
  - intros Hc. exists c. split; [exact Hc|apply Z.eqb_refl].
Qed.

(** X20: the options that [main] ends up with depend only on which
    option letters were given, not on their order or on how often:
    [show_nonprinting] is set by v, e, t and A, [show_tabs] by t, A and
    T, [number] by b and n, [number_nonblank] by b, [show_ends] by e, A
    and E, [squeeze_blank] by s, and u sets nothing.  Any other value
    from [getopt_long] ends the process inside the switch. *)
Theorem X20_options_by_letters (cs : list Z) (o : options) :
  parse_options cs o =
  if forallb (fun c => given c option_letters) cs then
    Some {| show_nonprinting :=
              show_nonprinting o || given 118 cs || given 101 cs
              || given 116 cs || given 65 cs;
            show_tabs := show_tabs o || given 116 cs || given 65 cs
                         || given 84 cs;
            number := number o || given 98 cs || given 110 cs;
            number_nonblank := number_nonblank o || given 98 cs;
            show_ends := show_ends o || given 101 cs || given 65 cs
                         || given 69 cs;
            squeeze_blank := squeeze_blank o || given 115 cs |}
  else None.
Proof.
  destruct (forallb (fun c => given c option_letters) cs) eqn:Hall.
  - apply parse_options_letters. rewrite forallb_forall in Hall.
    apply List.Forall_forall. intros c Hc. apply given_In, Hall, Hc.
  - apply parse_options_other. apply List.Exists_exists.
    assert (Hnot : ~ forall c, In c cs -> given c option_letters = true).
    { intros H. apply forallb_forall in H. congruence. }
    clear Hall. induction cs as [|c cs IH].
    + exfalso. apply Hnot. intros c [].
    + destruct (given c option_letters) eqn:Hc.
      * destruct IH as (x & Hx & Hbad).
        { intros H. apply Hnot. intros y [<-|Hy]; auto. }
        exists x. split; [right; exact Hx|exact Hbad].
      * exists c. split; [left; reflexivity|].
        intros Hin. apply given_In in Hin. congruence.
Qed.

(** X21: the equivalences that the help text gives hold wherever the
    option stands among the others: A does what v, E and T do, e what v
    and E do, t what v and T do; u changes nothing; and with b given, n
    before or behind it adds nothing. *)
Theorem X21_options_as_the_help_says (pre post : list Z) (o : options) :
  parse_options (pre ++ [65] ++ post) o
    = parse_options (pre ++ [118; 69; 84] ++ post) o /\
  parse_options (pre ++ [101] ++ post) o
    = parse_options (pre ++ [118; 69] ++ post) o /\
  parse_options (pre ++ [116] ++ post) o
    = parse_options (pre ++ [118; 84] ++ post) o /\
  parse_options (pre ++ [117] ++ post) o = parse_options (pre ++ post) o /\
  parse_options (pre ++ [110; 98] ++ post) o
    = parse_options (pre ++ [98] ++ post) o /\
  parse_options (pre ++ [98; 110] ++ post) o
    = parse_options (pre ++ [98] ++ post) o.
Proof.
  repeat split; rewrite !parse_options_app;
    destruct (parse_options pre o) as [[v t n b e s]|]; reflexivity.
Qed.

Lemma set_option_formatting c o :
  In c option_letters ->
  exists o', set_option c o = Some o' /\
             formatting o' = formatting o || negb (c =? 117).
Proof.
  intros Hc. unfold option_letters in Hc. cbn [In] in Hc.
  destruct o as [v t n b e s]. unfold formatting.
  repeat (destruct Hc as [<-|Hc];
          [eexists; split; [reflexivity|];
           cbn [number show_ends show_nonprinting show_tabs squeeze_blank
                Z.eqb Pos.eqb negb];
           rewrite ?orb_true_r, ?orb_false_r; reflexivity|]).
  contradiction.
Qed.

(** X22: which of the two copy loops [main] uses: with option letters
    of the switch only, the options are accepted, and the formatting
    loop [cat] is chosen exactly when a letter other than u is among
    them; with no option, or with u alone, it is [simple_cat]. *)
Theorem X22_formatting_unless_only_u (cs : list Z) :
  Forall (fun c => In c option_letters) cs ->
  exists o,
    parse_options cs no_options = Some o /\
    formatting o = existsb (fun c => negb (c =? 117)) cs.
Proof.
  intros Hall.
  assert (Hgen : forall o, exists o',
            parse_options cs o = Some o' /\
            formatting o' = formatting o
                            || existsb (fun c => negb (c =? 117)) cs).
  { induction Hall as [|c cs Hc _ IH]; intros o.
    - exists o. cbn. rewrite orb_false_r. auto.
    - destruct (set_option_formatting c o Hc) as (o1 & Hset & Hf1).
      destruct (IH o1) as (o' & Hparse & Hf).
      exists o'. cbn [parse_options existsb]. rewrite Hset.
      split; [exact Hparse|]. rewrite Hf, Hf1, orb_assoc. reflexivity. }
  destruct (Hgen no_options) as (o & Hparse & Hf).
  exists o. split; [exact Hparse|]. rewrite Hf. reflexivity.
Qed.

Lemma X22_formatting_unless_only_u_witness :
  exists o,
    parse_options [117; 117] no_options = Some o /\
    formatting o = existsb (fun c => negb (c =? 117)) [117; 117].
Proof.
  apply (X22_formatting_unless_only_u [117; 117]).
  repeat constructor; unfold option_letters; cbn; tauto.
Defined.

End MainOptions.

(** ** [main]: the operands *)

Section MainOperands.

Import Engine Main.

Lemma contin_failed f p : contin f (failed p) = failed p.
Proof. unfold contin. destruct (negb (is_stdin f) && negb (closes f)); reflexivity. Qed.

Lemma contin_closed f p :
  contin f p =
  {| ok := ok p && closed_well f; newlines2 := newlines2 p;
     line_counter_now := line_counter_now p; out := out p |}.
Proof.
  unfold contin, closed_well, failed. destruct p as [k nl c w].
  destruct (is_stdin f), (closes f); cbn;
    rewrite ?andb_true_r, ?andb_false_r; reflexivity.
Qed.

Lemma one_operand_unusable o outsize f p :
  usable f = false -> one_operand o outsize f p = inl (failed p).
Proof.
  unfold usable, one_operand. intros Hu.
  destruct (is_stdin f), (opens f), (stats f), (is_output f);
    cbn in Hu |- *; try discriminate; rewrite ?contin_failed; reflexivity.
Qed.

Lemma one_operand_failed o outsize f p :
  one_operand o outsize f (failed p) =
  match one_operand o outsize f p with
  | inl p' => inl (failed p')
  | inr e => inr e
  end.
Proof.
  unfold one_operand.
  destruct (negb (is_stdin f) && negb (opens f)); [reflexivity|].
  destruct (negb (stats f));
    [rewrite !contin_failed; reflexivity|].
  destruct (is_output f); [rewrite !contin_failed; reflexivity|].
  destruct (negb (formatting o)).
  - cbn [out failed].
    destruct (Simple.simple_cat _ _ _) as [w [k|[]]]; try reflexivity.
    rewrite !contin_closed. reflexivity.
  - cbn [newlines2 line_counter_now out failed].
    destruct (cat _ _ _ _ _ _) as [k nl c w|]; [|reflexivity].
    rewrite !contin_closed. reflexivity.
Qed.

Lemma operands_failed o outsize ops : forall p,
  operands o outsize ops (failed p) =
  match operands o outsize ops p with
  | inl p' => inl (failed p')
  | inr e => inr e
  end.
Proof.
  induction ops as [|f ops IH]; intros p; [reflexivity|].
  cbn [operands]. rewrite one_operand_failed.
  destruct (one_operand o outsize f p) as [p'|e]; [apply IH|reflexivity].
Qed.

(** X23: an operand that cannot be opened, on which [fstat] fails, or
    that is the output file is left out: the others are copied as if it
    had not been given, with the same bytes written and the same line
    numbers, and all that is kept of it is that the process will not
    end with success. *)
Theorem X23_unusable_operands_are_left_out o outsize ops p :
  operands o outsize ops p =
  match operands o outsize (filter (fun f => usable f) ops) p with
  | inl p' => inl (if forallb usable ops then p' else failed p')
  | inr e => inr e
  end.
Proof.
  revert p. induction ops as [|f ops IH]; intros p; [reflexivity|].
  cbn [operands forallb]. rewrite filter_cons.
  destruct (usable f) eqn:Hu.
  - rewrite decide_True by exact I. cbn [operands andb].
    destruct (one_operand o outsize f p) as [p'|e]; [apply IH|reflexivity].
  - rewrite decide_False by (intros H; exact H). cbn [andb].
    rewrite one_operand_unusable by assumption.
    rewrite operands_failed, IH.
    destruct (operands o outsize (filter (fun f => usable f) ops) p)
      as [p'|e]; [|reflexivity].
    destruct (forallb usable ops); reflexivity.
Qed.

Lemma reads_of_script (s : list read_event) :
  Forall (fun ev => exists d, ev_read ev = ReadOk d /\ d <> [] /\
                              Forall Simple.plain d) s ->
  map ev_read s = map ReadOk (script_data s) /\
  Forall (fun d => d <> [] /\ Forall Simple.plain d) (script_data s).
Proof.
  induction 1 as [|ev s (d & Hrd & Hne & Hd) _ [IH1 IH2]];
    [split; constructor|].
  cbn [map script_data]. unfold event_data at 1 3. rewrite Hrd.
  split; [f_equal; exact IH1|]. constructor; [auto|exact IH2].
Qed.

(** The operands in substitution mode, all of them usable and with
    ASCII bytes only. *)
Lemma operands_substituted o outsize ops : forall p,
  formatting o = false ->
  Forall (fun f => usable f = true /\
            Forall (fun ev => exists d, ev_read ev = ReadOk d /\ d <> [] /\
                                        Forall Simple.plain d) (script f))
         ops ->
  operands o outsize ops p =
  inl {| ok := ok p && forallb closed_well ops;
         newlines2 := newlines2 p; line_counter_now := line_counter_now p;
         out := out p
                ++ concat (map (fun f => map (flat_map Simple.replacement)
                                           (script_data (script f))) ops) |}.
Proof.
  intros p Hmode Hall. revert p.
  induction Hall as [|f ops [Hu Hf] _ IH]; intros p.
  - cbn. rewrite andb_true_r, app_nil_r. destruct p; reflexivity.
  - cbn [operands]. unfold one_operand.
    unfold usable in Hu.
    apply andb_prop in Hu as [Hu Hout]. apply andb_prop in Hu as [Hopen Hstat].
    apply negb_true_iff in Hout. rewrite Hstat, Hout, Hmode. cbn [negb].
    assert (Ho : negb (is_stdin f) && negb (opens f) = false)
      by (destruct (is_stdin f), (opens f); cbn in *; congruence).
    rewrite Ho.
    destruct (reads_of_script (script f) Hf) as [-> Hplain].
    destruct (simple_cat_plain (script_data (script f)) [] (memory f) (out p)
                Hplain) as (buf' & Hrun).
    rewrite app_nil_r in Hrun. rewrite Hrun. cbn [Simple.simple_cat].
    rewrite contin_closed, IH.
    cbn [ok newlines2 line_counter_now out forallb map concat].
    rewrite andb_true_r, <- !app_assoc, andb_assoc. reflexivity.
Qed.

(** X24: [main] without options, or with u only, on operands that can
    all be opened and read and that hold ASCII bytes only: what is
    written is the substitution of the bytes of the operands, in the
    order of the operands; the process ends with success unless a
    [close] fails, and through [die] when it is the final [close] of the
    standard input that fails. *)
Theorem X24_main_substitutes_its_operands optchars outsize ops
    stdin_closes :
  Forall (fun c => c = 117) optchars ->
  Forall (fun f => usable f = true /\
            Forall (fun ev => exists d, ev_read ev = ReadOk d /\ d <> [] /\
                                        Forall Simple.plain d) (script f))
         ops ->
  exists outs,
    main optchars true outsize ops stdin_closes =
      Some (if existsb is_stdin ops && negb stdin_closes then Died outs
            else Exited (forallb closed_well ops) outs) /\
    concat outs = flat_map Simple.replacement (concat (map contents ops)).
Proof.
  intros Hopts Hops.
  assert (Hparse : parse_options optchars no_options = Some no_options).
  { induction Hopts as [|c cs -> _ IH]; [reflexivity|exact IH]. }
  exists (concat (map (fun f => map (flat_map Simple.replacement)
                                (script_data (script f))) ops)).
  split.
  - unfold main. rewrite Hparse. cbn [negb].
    rewrite (operands_substituted no_options outsize ops _ eq_refl Hops).
    cbn [ok out app andb].
    destruct (existsb is_stdin ops && negb stdin_closes); reflexivity.
  - clear. induction ops as [|f ops IH]; [reflexivity|].
    cbn [map concat]. rewrite !concat_app, flat_map_app, IH.
    f_equal. apply flat_map_concat.
Qed.

Lemma X24_main_substitutes_its_operands_witness :
  let f1 := {| is_stdin := false; opens := true; stats := true; blksize := 4;
               is_output := false; memory := [0; 0; 0; 0];
               script := [got [72; 105]; got [10]]; closes := true |} in
  let f2 := {| is_stdin := true; opens := false; stats := true; blksize := 4;
               is_output := false; memory := [0; 0; 0; 0];
               script := [got [98]]; closes := false |} in
  exists outs,
    main [117] true 4 [f1; f2] true =
      Some (if existsb is_stdin [f1; f2] && negb true then Died outs
            else Exited (forallb closed_well [f1; f2]) outs) /\
    concat outs
    = flat_map Simple.replacement (concat (map contents [f1; f2])).
Proof.
  intros f1 f2.
  apply (X24_main_substitutes_its_operands [117] 4 [f1; f2] true).
  - repeat constructor.
  - repeat constructor;
      eexists; repeat split; try discriminate;
      repeat (apply List.Forall_cons; [unfold Simple.plain; lia|]);
      apply List.Forall_nil.
Defined.

(** The operands in formatting mode, all of them usable and with
    reads that bring bytes. *)
Lemma operands_formatted o outsize ops : forall p,
  (1 <= outsize)%nat -> formatting o = true ->
  Forall (fun f => usable f = true /\
                   Forall (good_event (blksize f)) (script f)) ops ->
  numbers_fit o (line_counter_now p)
    (chunks_calls o (script_data (concat (map script ops)))
       (newlines2 p) (line_counter_now p)) ->
  let all := chunks_text o (script_data (concat (map script ops)))
               (newlines2 p) (line_counter_now p) in
  exists outs,
    operands o outsize ops p =
    inl {| ok := ok p && forallb closed_well ops;
           newlines2 := all.1.2; line_counter_now := all.2;
           out := out p ++ outs |} /\
    concat outs = all.1.1.
Proof.
  intros p Hpos Hmode Hall. revert p.
  induction Hall as [|f ops [Hu Hgood] _ IH]; intros p Hfit; cbv zeta.
  - exists []. cbn. rewrite andb_true_r, app_nil_r. destruct p; auto.
  - cbn [map concat] in *. rewrite script_data_app in *.
    rewrite chunks_calls_app in Hfit. rewrite chunks_text_app.
    destruct (cat_main_text (blksize f) outsize o (script f)
                (newlines2 p) (line_counter_now p) Hpos Hgood)
      as (out1 & Hcat & Hout1).
    { apply (numbers_fit_le _ _ _ _ Hfit). lia. }
    pose proof (chunks_text_fit o (script_data (script f)) (newlines2 p)
                  (line_counter_now p) _ Hfit) as Hfit1.
    cbn [operands]. unfold one_operand.
    unfold usable in Hu.
    apply andb_prop in Hu as [Hu Hout]. apply andb_prop in Hu as [Hopen Hstat].
    apply negb_true_iff in Hout. rewrite Hstat, Hout, Hmode. cbn [negb].
    assert (Ho : negb (is_stdin f) && negb (opens f) = false)
      by (destruct (is_stdin f), (opens f); cbn in *; congruence).
    rewrite Ho, Hcat. rewrite contin_closed.
    cbn [ok newlines2 line_counter_now out].
    destruct (chunks_text o (script_data (script f)) (newlines2 p)
                (line_counter_now p)) as [[t1 nl1] c1].
    cbn [fst snd] in *.
    edestruct (IH {| ok := ok p && true && closed_well f; newlines2 := nl1;
                     line_counter_now := c1; out := out p ++ out1 |})
      as (outs & -> & Houts); [exact Hfit1|].
    cbv zeta in Houts. cbn [ok newlines2 line_counter_now out] in *.
    destruct (chunks_text o (script_data (concat (map script ops))) nl1 c1)
      as [[t2 nl2] c2].
    cbn [fst snd forallb] in *.
    exists (out1 ++ outs).
    rewrite andb_true_r, <- !app_assoc, andb_assoc.
    split; [reflexivity|]. rewrite concat_app, Hout1, Houts. reflexivity.
Qed.

(** X25: [main] with options that select the formatting loop, on
    operands that can all be opened and read: what is written is what
    [cat] writes for one file that holds the reads of all the operands
    in a row, so that line numbers and the squeezing of blank lines run
    on from one operand to the next; the process ends with success
    unless a [close] fails, and through [die] when it is the final
    [close] of the standard input that fails. *)
Theorem X25_main_formats_its_operands_as_one optchars o insize outsize ops
    stdin_closes :
  (1 <= outsize)%nat ->
  parse_options optchars no_options = Some o -> formatting o = true ->
  Forall (fun f => usable f = true /\
                   Forall (good_event (blksize f)) (script f) /\
                   (blksize f <= insize)%nat) ops ->
  numbers_fit o initial (script_length (concat (map script ops))) ->
  exists outs nl c out',
    main optchars true outsize ops stdin_closes =
      Some (if existsb is_stdin ops && negb stdin_closes then Died outs
            else Exited (forallb closed_well ops) outs) /\
    cat (outbuf_size insize outsize) outsize o (concat (map script ops))
      0 initial = Return true nl c out' /\
    concat outs = concat out'.
Proof.
  intros Hpos Hparse Hmode Hops Hfit.
  assert (Hcalls : numbers_fit o initial
            (chunks_calls o (script_data (concat (map script ops))) 0 initial)).
  { apply (numbers_fit_le _ _ _ _ Hfit). apply chunks_calls_bytes. }
  destruct (operands_formatted o outsize ops
              {| ok := true; newlines2 := 0; line_counter_now := initial;
                 out := [] |} Hpos Hmode)
    as (outs & Hrun & Houts).
  { eapply Forall_impl; [exact Hops|]. intros f (H1 & H2 & _). auto. }
  { exact Hcalls. }
  destruct (cat_main_text insize outsize o (concat (map script ops)) 0 initial
              Hpos) as (out' & Hone & Hout').
  { clear -Hops. induction Hops as [|f ops (_ & Hg & Hle) _ IH];
      [constructor|].
    cbn [map concat]. apply Forall_app. split; [|exact IH].
    eapply Forall_impl; [exact Hg|]. intros ev. apply good_event_le.
    exact Hle. }
  { exact Hcalls. }
  cbv zeta in Hrun, Houts. cbn [ok newlines2 line_counter_now out app andb]
    in Hrun, Houts.
  eexists outs, _, _, out'. split; [|split; [exact Hone|congruence]].
  unfold main. rewrite Hparse. cbn [negb]. rewrite Hrun. cbn [ok out].
  destruct (existsb is_stdin ops && negb stdin_closes); reflexivity.
Qed.

Lemma X25_main_formats_its_operands_as_one_witness :
  let o := {| show_nonprinting := false; show_tabs := false; number := true;
              number_nonblank := false; show_ends := false;
              squeeze_blank := true |} in
  let f1 := {| is_stdin := false; opens := true; stats := true; blksize := 3;
               is_output := false; memory := [];
               script := [got [97; 10; 10]]; closes := true |} in
  let f2 := {| is_stdin := true; opens := false; stats := true; blksize := 4;
               is_output := false; memory := [];
               script := [got [10; 98; 10]]; closes := false |} in
  exists outs nl c out',
    main [110; 115] true 4 [f1; f2] true =
      Some (if existsb is_stdin [f1; f2] && negb true then Died outs
            else Exited (forallb closed_well [f1; f2]) outs) /\
    cat (outbuf_size 4 4) 4 o (concat (map script [f1; f2])) 0 initial
      = Return true nl c out' /\
    concat outs = concat out'.
Proof.
  intros o f1 f2.
  apply (X25_main_formats_its_operands_as_one [110; 115] o 4 4 [f1; f2] true).
  - lia.
  - reflexivity.
  - reflexivity.
  - repeat constructor; try discriminate; simpl; try lia;
      eexists; repeat split; simpl; try discriminate; lia.
  - apply numbers_fit_initial. vm_compute. reflexivity.
Defined.

End MainOperands.

(** ** The line engine: where the output buffer suffices *)

Section EngineRoom.

Import Engine.

(** X26: as long as the line numbers have ten digits at most, that
    is when the lines numbered before and the bytes of the file together
    stay below [10 ^ 10], no store of [cat] leaves the output buffer of
    the size that [main] asks for, whatever the options, the reads and
    the two block sizes: [cat] returns true, and the bytes it has written
    are the text of its reads. *)
Theorem X26_buffer_suffices_up_to_ten_digits insize outsize o script nl k :
  (1 <= outsize)%nat ->
  Forall (good_event insize) script ->
  Z.of_nat k + Z.of_nat (script_length script) < 10 ^ 10 ->
  exists nl' c' out,
    cat (outbuf_size insize outsize) outsize o script nl (after k initial)
      = Return true nl' c' out /\
    concat out = (chunks_text o (script_data script) nl (after k initial)).1.1.
Proof.
  intros Hpos Hgood Hk.
  destruct (cat_main_text insize outsize o script nl (after k initial)
              Hpos Hgood) as (out & Hcat & Hout).
  { intros _. rewrite initial_showing, after_showing by lia.
    rewrite Z.add_0_l.
    pose proof (chunks_calls_bytes o (script_data script) nl
                  (showing (Z.of_nat k))) as Hcalls.
    fold (script_length script) in Hcalls.
    apply widths_within_showing; lia. }
  eexists _, _, out. split; [exact Hcat|exact Hout].
Qed.

Lemma X26_buffer_suffices_up_to_ten_digits_witness :
  let o := {| show_nonprinting := true; show_tabs := false; number := true;
              number_nonblank := false; show_ends := true;
              squeeze_blank := false |} in
  exists nl' c' out,
    cat (outbuf_size 2 2) 2 o [got [10; 200]; got [201; 10]] 0
        (after 999 initial)
      = Return true nl' c' out /\
    concat out
    = (chunks_text o (script_data [got [10; 200]; got [201; 10]]) 0
         (after 999 initial)).1.1.
Proof.
  intros o.
  apply (X26_buffer_suffices_up_to_ten_digits 2 2 o
           [got [10; 200]; got [201; 10]] 0 999).
  - lia.
  - repeat constructor; try discriminate;
      eexists; repeat split; simpl; try discriminate; lia.
  - vm_compute. reflexivity.
Defined.

End EngineRoom.
